(** * Filmlane: the paste classification pipeline and its session memory

    A shallow embedding of [src/lib/paste-classifier.ts] and of
    [lib/context-memory-manager.ts] (class [ContextMemoryManager]), with the
    properties the specification states about them (Part II), and of what
    they meet in the editor: the formats of [screenplay-config.ts], the
    styles of [editor-styles.ts] and the key rules of [EditorArea], with
    further properties of all of these (Part III).

    Modelling conventions.
    - A JavaScript string is the list of its UTF-16 code units ([list N]);
      [.length] is the length of that list.  String literals of the source are
      written as UTF-8 literals and decoded by [u].
    - A regular expression is a term of [regex]; [run] enumerates its matches
      at a position in the priority order of a backtracking matcher, so the
      head of the enumeration is the match JavaScript reports.
    - A JavaScript object with string values is the list of its properties
      in insertion order.
    - The manager's [Map] holds references into a heap of objects; the JSON
      round trip [JSON.parse(JSON.stringify(x))] reads a value out of the heap
      and allocates a fresh object graph for it.
    - [characterDialogueMap] is a plain object: its properties hold numbers
      or strings, and a name that it has no property for reads the member
      of [Object.prototype] of that name, if there is one ([Host]).
    - An [async] method runs up to its first [await] when it is called and
      goes on when it is resumed; a run of the manager is a list of such
      steps ([Turn]), so that calls that are not awaited overlap. *)

From Stdlib Require Import String Ascii NArith ZArith List Bool Lia.
From stdpp Require Import gmap list.
Import ListNotations.

(* ================================================================== *)
(** * Part I. Definitions                                              *)
(* ================================================================== *)

(** ** JavaScript strings *)

Abbreviation jsstring := (list N).

Fixpoint bytes_of (s : string) : list N :=
  match s with
  | EmptyString => []
  | String a r => N_of_ascii a :: bytes_of r
  end.

(** UTF-8 to UTF-16: one, two and three byte sequences give one code unit, a
    four byte sequence gives a surrogate pair. *)
Fixpoint utf16_of_utf8 (bs : list N) : jsstring :=
  match bs with
  | [] => []
  | b0 :: r =>
      if (b0 <? 0x80)%N then b0 :: utf16_of_utf8 r
      else if (b0 <? 0xE0)%N then
        match r with
        | b1 :: r1 => ((b0 mod 0x20) * 64 + b1 mod 64)%N :: utf16_of_utf8 r1
        | _ => []
        end
      else if (b0 <? 0xF0)%N then
        match r with
        | b1 :: b2 :: r2 =>
            ((b0 mod 0x10) * 4096 + (b1 mod 64) * 64 + b2 mod 64)%N
              :: utf16_of_utf8 r2
        | _ => []
        end
      else
        match r with
        | b1 :: b2 :: b3 :: r3 =>
            let cp := ((b0 mod 8) * 262144 + (b1 mod 64) * 4096
                       + (b2 mod 64) * 64 + b3 mod 64 - 0x10000)%N in
            (0xD800 + cp / 1024)%N :: (0xDC00 + cp mod 1024)%N
              :: utf16_of_utf8 r3
        | _ => []
        end
  end.

Definition u (s : string) : jsstring := utf16_of_utf8 (bytes_of s).

(** [a === b] on strings *)
Fixpoint jseq (a b : jsstring) : bool :=
  match a, b with
  | [], [] => true
  | x :: a', y :: b' => (x =? y)%N && jseq a' b'
  | _, _ => false
  end.

(** *** Character classes *)

Definition between (lo hi c : N) : bool := ((lo <=? c) && (c <=? hi))%N.

Definition one_of (cs : jsstring) (c : N) : bool := existsb (N.eqb c) cs.

Definition none_of (cs : jsstring) (c : N) : bool := negb (one_of cs c).

(** [\s], which is also what [trim] removes: the white space and line
    terminator code units of ECMAScript. *)
Definition is_ws (c : N) : bool :=
  between 9 13 c || (c =? 32)%N || (c =? 0xA0)%N || (c =? 0x1680)%N
  || between 0x2000 0x200A c || (c =? 0x2028)%N || (c =? 0x2029)%N
  || (c =? 0x202F)%N || (c =? 0x205F)%N || (c =? 0x3000)%N || (c =? 0xFEFF)%N.

(** [\S] *)
Definition is_nonws (c : N) : bool := negb (is_ws c).

(** [.] without the [s] flag: anything but a line terminator. *)
Definition is_dot (c : N) : bool :=
  negb ((c =? 10)%N || (c =? 13)%N || (c =? 0x2028)%N || (c =? 0x2029)%N).

(** [\d] *)
Definition is_digit (c : N) : bool := between 48 57 c.

(** [\w] *)
Definition is_word (c : N) : bool :=
  between 65 90 c || between 97 122 c || is_digit c || (c =? 95)%N.

(** [[؀-ۿ]] *)
Definition is_arabic (c : N) : bool := between 0x600 0x6FF c.

(** [[٠-٩]] *)
Definition is_arabic_digit (c : N) : bool := between 0x660 0x669 c.

(** [[0-9٠-٩]] *)
Definition is_any_digit (c : N) : bool := is_digit c || is_arabic_digit c.

(** *** String methods *)

Fixpoint skip (p : N -> bool) (s : jsstring) : jsstring :=
  match s with
  | c :: t => if p c then skip p t else s
  | [] => []
  end.

Fixpoint span (p : N -> bool) (s : jsstring) : nat :=
  match s with
  | c :: t => if p c then S (span p t) else O
  | [] => O
  end.

Definition trimStart (s : jsstring) : jsstring := skip is_ws s.
Definition trimEnd (s : jsstring) : jsstring := rev (skip is_ws (rev s)).
Definition trim (s : jsstring) : jsstring := trimEnd (trimStart s).

Fixpoint startsWith (s p : jsstring) : bool :=
  match p, s with
  | [], _ => true
  | a :: p', b :: s' => (a =? b)%N && startsWith s' p'
  | _ :: _, [] => false
  end.

Definition endsWith (s p : jsstring) : bool := startsWith (rev s) (rev p).

Fixpoint includes (s p : jsstring) : bool :=
  startsWith s p ||
  match s with
  | [] => false
  | _ :: t => includes t p
  end.

(** [s.split(c)] for a one code unit separator. *)
Fixpoint split_on (c : N) (s : jsstring) : list jsstring :=
  match s with
  | [] => [[]]
  | x :: t =>
      if (x =? c)%N then [] :: split_on c t
      else match split_on c t with
           | f :: fs => (x :: f) :: fs
           | [] => [[x]]
           end
  end.

(** [s.split(/\s+/)]: the fields between maximal runs of white space.
    [inws] says that the separator run is still open. *)
Fixpoint split_ws_from (inws : bool) (s : jsstring) : list jsstring :=
  match s with
  | [] => [[]]
  | x :: t =>
      if is_ws x then
        if inws then split_ws_from true t else [] :: split_ws_from true t
      else match split_ws_from false t with
           | f :: fs => (x :: f) :: fs
           | [] => [[x]]
           end
  end.

Definition split_ws (s : jsstring) : list jsstring := split_ws_from false s.

(** A string is truthy when it is not empty. *)
Definition truthy (s : jsstring) : bool :=
  match s with [] => false | _ => true end.

(** [s.split(/\s+/).filter(Boolean)] *)
Definition words (s : jsstring) : list jsstring :=
  List.filter truthy (split_ws s).

(** [xs.join(sep)] *)
Fixpoint join (sep : jsstring) (xs : list jsstring) : jsstring :=
  match xs with
  | [] => []
  | [x] => x
  | x :: rest => x ++ sep ++ join sep rest
  end.

(** [s.replace(/[class]/g, empty)] *)
Definition remove_all (p : N -> bool) (s : jsstring) : jsstring :=
  List.filter (fun c => negb (p c)) s.

(** ** Regular expressions *)

Inductive regex : Type :=
| Chr (p : N -> bool)                               (* one unit of a class *)
| Str (s : jsstring)                                (* a literal *)
| StrI (s : jsstring)                               (* a literal under /i *)
| Cat (a b : regex)
| Alt (a b : regex)
| Opt (a : regex)                                   (* (?:a)? *)
| Rep (p : N -> bool) (lo : nat) (hi : option nat)  (* [class]{lo,hi} *)
| RepLazy (p : N -> bool) (lo : nat) (hi : option nat) (* [class]{lo,hi}? *)
| Grp (a : regex)                                   (* a capturing group *)
| Eos.                                              (* $ *)

(** Canonicalisation under [/i] for the ASCII letters, the only cased units
    the patterns of this program contain. *)
Definition fold_case (c : N) : N :=
  if between 97 122 c then (c - 32)%N else c.

Fixpoint strip_prefix (eqc : N -> N -> bool) (p s : jsstring)
  : option jsstring :=
  match p, s with
  | [], _ => Some s
  | a :: p', b :: s' => if eqc a b then strip_prefix eqc p' s' else None
  | _ :: _, [] => None
  end.

(** How many units a repetition may take: every count from [lo] to the length
    of the run of the class, capped by [hi]. *)
Definition rep_counts (p : N -> bool) (lo : nat) (hi : option nat)
    (s : jsstring) : list nat :=
  let m := span p s in
  let m' := match hi with Some h => Nat.min m h | None => m end in
  seq lo (S m' - lo).

(** A match leaves a rest and the captures of its groups. *)
Abbreviation outcome := (jsstring * list jsstring)%type.

Definition consumed (s rest : jsstring) : jsstring :=
  take (length s - length rest) s.

(** Sequencing: every way to go on after every outcome, in order, the
    captures of both sides joined. *)
Definition then_run (os : list outcome) (k : jsstring -> list outcome)
  : list outcome :=
  flat_map (fun o1 : outcome =>
              map (fun o2 : outcome => (fst o2, snd o1 ++ snd o2))
                  (k (fst o1)))
           os.

Fixpoint run (r : regex) (s : jsstring) : list outcome :=
  match r with
  | Chr p =>
      match s with
      | c :: t => if p c then [(t, [])] else []
      | [] => []
      end
  | Str l =>
      match strip_prefix N.eqb l s with
      | Some t => [(t, [])]
      | None => []
      end
  | StrI l =>
      match strip_prefix (fun a b => (fold_case a =? fold_case b)%N) l s with
      | Some t => [(t, [])]
      | None => []
      end
  | Cat a b => then_run (run a s) (run b)
  | Alt a b => run a s ++ run b s
  | Opt a => run a s ++ [(s, [])]
  | Rep p lo hi =>
      map (fun k => (drop k s, [])) (rev (rep_counts p lo hi s))
  | RepLazy p lo hi =>
      map (fun k => (drop k s, [])) (rep_counts p lo hi s)
  | Grp a =>
      map (fun o : outcome => (fst o, consumed s (fst o) :: snd o)) (run a s)
  | Eos =>
      match s with
      | [] => [([], [])]
      | _ :: _ => []
      end
  end.

(** [/^r/.exec(s)]: the captures of the first match at the start. *)
Definition exec_start (r : regex) (s : jsstring) : option (list jsstring) :=
  match run r s with
  | o :: _ => Some (snd o)
  | [] => None
  end.

(** [/^r/.test(s)] *)
Definition test_start (r : regex) (s : jsstring) : bool :=
  match run r s with
  | _ :: _ => true
  | [] => false
  end.

(** [/r/.test(s)]: a match at some position, the end of the string included. *)
Fixpoint test (r : regex) (s : jsstring) : bool :=
  test_start r s ||
  match s with
  | [] => false
  | _ :: t => test r t
  end.

(** [s.replace(/^r/, empty)] *)
Definition replace_start (r : regex) (s : jsstring) : jsstring :=
  match run r s with
  | o :: _ => fst o
  | [] => s
  end.

(** [s.replace(/r/, empty)]: the leftmost match is cut out. *)
Fixpoint replace_first (r : regex) (s : jsstring) : jsstring :=
  match run r s with
  | o :: _ => fst o
  | [] =>
      match s with
      | [] => []
      | c :: t => c :: replace_first r t
      end
  end.

(** [(a|b|c)] for literals written as in the source, separated by bars. *)
Definition bar : N := 124%N.

Fixpoint alts (mk : jsstring -> regex) (ws : list jsstring) : regex :=
  match ws with
  | [] => Chr (fun _ => false)
  | [w] => mk w
  | w :: rest => Alt (mk w) (alts mk rest)
  end.

Definition any_of (src : string) : regex := alts Str (split_on bar (u src)).
Definition any_of_i (src : string) : regex := alts StrI (split_on bar (u src)).

Definition star (p : N -> bool) : regex := Rep p 0 None.
Definition plus (p : N -> bool) : regex := Rep p 1 None.

Fixpoint cat (rs : list regex) : regex :=
  match rs with
  | [] => Str []
  | [r] => r
  | r :: rest => Cat r (cat rest)
  end.

(** ** Line normalisation ([paste-classifier.ts]) *)

(** [[ً-ٰٟ]] *)
Definition is_tashkeel (c : N) : bool :=
  between 0x64B 0x65F c || (c =? 0x670)%N.

(** [[‏‎﻿\t]] *)
Definition is_mark_or_tab (c : N) : bool :=
  one_of [0x200F; 0x200E; 0xFEFF; 9]%N c.

(** [[\s‎‏؜﻿]] *)
Definition is_lead (c : N) : bool :=
  is_ws c || one_of [0x200E; 0x200F; 0x061C; 0xFEFF]%N c.

Definition bullet_glyphs : jsstring := u "•·∙⋅●○◦■□▪▫◆◇–—−‒―‣⁃*+-".

Definition is_bullet : N -> bool := one_of bullet_glyphs.

(** The class of [startsWithBullet] and of the bullet strip inside
    [classifyWithContext]: the same glyphs without the hyphen
    (both classes contain the private use unit U+F0A7). *)
Definition bullet_glyphs_no_hyphen : jsstring := u "•·∙⋅●○◦■□▪▫◆◇–—−‒―‣⁃*+".

Definition is_bullet_no_hyphen : N -> bool := one_of bullet_glyphs_no_hyphen.

Definition stripLeadingBullets (input : jsstring) : jsstring :=
  replace_start (cat [star is_lead; plus is_bullet; star is_ws]) input.

Definition normalizeLine (input : jsstring) : jsstring :=
  trim
    (replace_start (cat [star is_lead; plus is_bullet])
       (remove_all is_mark_or_tab (remove_all is_tashkeel input))).

Definition hasSentencePunctuation (line : jsstring) : bool :=
  test (Chr (one_of (u ".!?،؛"))) line.

(** ** Basmala *)

Definition isBasmala (line : jsstring) : bool :=
  let cleaned :=
    trim (remove_all (one_of [0x200F; 0x200E; 0xFEFF]%N)
            (remove_all (one_of (u "{}()[]")) line)) in
  let normalized := normalizeLine cleaned in
  let compact :=
    remove_all (fun c => negb (is_arabic c || is_ws c)) normalized in
  let hasBasm := test (StrI (u "بسم")) compact in
  let hasAllah := test (StrI (u "الله")) compact in
  let hasRahman :=
    test (StrI (u "الرحمن")) compact || test (StrI (u "الرحي")) compact in
  hasBasm && hasAllah && hasRahman.

(** ** Scene headers *)

Definition scene_word : regex := any_of_i "مشهد|scene".

Definition SCENE_NUMBER_RE : regex :=
  cat [scene_word; star is_ws; Grp (plus is_any_digit)].

(** anchored at the start *)
Definition SCENE_NUMBER_EXACT_RE : regex :=
  cat [star is_ws; scene_word; star is_ws; plus is_any_digit].

Definition isSceneHeader1 (line : jsstring) : bool :=
  test SCENE_NUMBER_RE (normalizeLine line).

Definition TIME_RE : regex := Grp (any_of_i "نهار|ليل|صباح|مساء|فجر").
Definition LOCATION_RE : regex := Grp (any_of_i "داخلي|خارجي").

(** [s.replace(/[class]/g, " ")] *)
Definition blank_all (p : N -> bool) (s : jsstring) : jsstring :=
  map (fun c => if p c then 32%N else c) s.

(** [s.replace(/\s+/g, " ")] *)
Fixpoint collapse_ws_from (inws : bool) (s : jsstring) : jsstring :=
  match s with
  | [] => []
  | c :: t =>
      if is_ws c then
        if inws then collapse_ws_from true t
        else 32%N :: collapse_ws_from true t
      else c :: collapse_ws_from false t
  end.

Definition collapse_ws (s : jsstring) : jsstring := collapse_ws_from false s.

Definition isSceneHeader2 (line : jsstring) : bool :=
  let normalized :=
    trim (collapse_ws (blank_all (one_of (u "-–—")) (normalizeLine line))) in
  let hasTime := test TIME_RE normalized in
  let hasLocation := test LOCATION_RE normalized in
  hasTime && hasLocation.

Definition isCompleteSceneHeader (line : jsstring) : bool :=
  let normalized := normalizeLine line in
  test_start SCENE_NUMBER_EXACT_RE normalized && isSceneHeader2 normalized.

Record SceneHeaderParts := {
  sh_number : jsstring;
  sh_description : jsstring
}.

(** the scene number cue in group 1, an optional separator out of [-–—:،],
    and the rest of the line in group 2; anchored at the start, under /i *)
Definition SPLIT_SCENE_HEADER_RE : regex :=
  cat [star is_ws;
       Grp (cat [scene_word; star is_ws; plus is_any_digit]);
       star is_ws; Opt (Chr (one_of (u "-–—:،"))); star is_ws;
       Grp (star is_dot)].

Definition splitSceneHeader (line : jsstring) : option SceneHeaderParts :=
  match exec_start SPLIT_SCENE_HEADER_RE line with
  | Some [g1; g2] =>
      Some {| sh_number := trim g1; sh_description := trim g2 |}
  | _ => None
  end.

Definition isTransition (line : jsstring) : bool :=
  let normalized := normalizeLine line in
  test_start (any_of_i "قطع|اختفاء|تحول|انتقال|fade|cut|dissolve|wipe")
    normalized.

(** ** Action lines *)

Definition ACTION_VERB_LIST : string :=
  "يدخل|يخرج|ينظر|يرفع|تبتسم|ترقد|تقف|يبسم|يضع|يقول|تنظر|تربت|تقوم|يشق|تشق|تضرب|يسحب|يلتفت|يقف|يجلس|تجلس|يجري|تجري|يمشي|تمشي|يركض|تركض|يصرخ|اصرخ|يبكي|تبكي|يضحك|تضحك|يغني|تغني|يرقص|ترقص|يأكل|تأكل|يشرب|تشرب|ينام|تنام|يستيقظ|تستيقظ|يكتب|تكتب|يقرأ|تقرأ|يسمع|تسمع|يشم|تشم|يلمس|تلمس|يأخذ|تأخذ|يعطي|تعطي|يفتح|تفتح|يغلق|تغلق|يبدأ|تبدأ|ينتهي|تنتهي|يذهب|تذهب|يعود|تعود|يأتي|تأتي|يموت|تموت|يحيا|تحيا|يقاتل|تقاتل|ينصر|تنتصر|يخسر|تخسر|يرسم|ترسم|يصمم|تصمم|يخطط|تخطط|يقرر|تقرر|يفكر|تفكر|يتذكر|تتذكر|يحاول|تحاول|يستطيع|تستطيع|يريد|تريد|يحتاج|تحتاج|يبحث|تبحث|يجد|تجد|يفقد|تفقد|يحمي|تحمي|يراقب|تراقب|يخفي|تخفي|يكشف|تكشف|يكتشف|تكتشف|يعرف|تعرف|يتعلم|تتعلم|يعلم|تعلم|يوجه|توجه|يسافر|تسافر|يرحل|ترحل|يبقى|تبقى|ينتقل|تنتقل|يتغير|تتغير|ينمو|تنمو|يتطور|تتطور|يواجه|تواجه|يحل|تحل|يفشل|تفشل|ينجح|تنجح|يحقق|تحقق|ينهي|تنهي|يوقف|توقف|يستمر|تستمر|ينقطع|تنقطع|يرتبط|ترتبط|ينفصل|تنفصل|يتزوج|تتزوج|يطلق|تطلق|يولد|تولد|يكبر|تكبر|يشيخ|تشيخ|يمرض|تمرض|يشفي|تشفي|يصاب|تصاب|يتعافى|تتعافى|يقتل|تقتل|يُقتل|تُقتل|يختفي|تختفي|يظهر|تظهر|يختبئ|تختبئ|يطلب|تطلب|يأمر|تأمر|يمنع|تمنع|يسمح|تسمح|يوافق|توافق|يرفض|ترفض|يعتذر|تعتذر|يشكر|تشكر|يحيي|تحيي|يودع|تودع|يجيب|تجيب|يسأل|تسأل|يصيح|صيح|يهمس|همس|يصمت|صمت|يتكلم|تكلم|ينادي|تنادي|يحكي|تحكي|يروي|تروي|يقص|تقص|يتنهد|تتنهد|يئن|تئن".

Definition EXTRA_ACTION_VERBS : string :=
  "نرى|نسمع|نلاحظ|نقترب|نبتعد|ننتقل|ترفع|ينهض|تنهض|تقتحم|يقتحم|يتبادل|يبتسم|يبدؤون|تفتح|يفتح|تدخل|يُظهر|يظهر|تظهر".

Definition ACTION_VERB_SET : list jsstring :=
  List.filter truthy
    (map trim
       (split_on bar (u ACTION_VERB_LIST ++ [bar] ++ u EXTRA_ACTION_VERBS))).

(** [set.has(x)] *)
Definition has (set : list jsstring) (x : jsstring) : bool :=
  existsb (jseq x) set.

Definition isActionVerbStart (line : jsstring) : bool :=
  let firstToken :=
    match split_ws (trim line) with
    | t :: _ => t
    | [] => []
    end in
  let normalized :=
    trim (remove_all (fun c => negb (is_arabic c))
            (remove_all (one_of [0x200E; 0x200F; 0x061C]%N) firstToken)) in
  if negb (truthy normalized) then false
  else if has ACTION_VERB_SET normalized then true
  else
    existsb
      (fun p =>
         startsWith normalized p && (1 <? length normalized)%nat
         && has ACTION_VERB_SET (drop 1 normalized))
      [u "و"; u "ف"; u "ل"].

(** [(?:\s+\S|$)] *)
Definition word_end : regex := Alt (cat [plus is_ws; Chr is_nonws]) Eos.

Definition actionStartPatterns : list regex :=
  [ cat [star is_ws;
         Opt (cat [Str (u "ثم"); plus is_ws]);
         Opt (cat [Str (u "و"); any_of "هو|هي"; plus is_ws]);
         Chr (one_of (u "يت")); Rep is_arabic 2 None; word_end];
    cat [star is_ws; Opt (any_of "و|ف|ل");
         any_of "نرى|نسمع|نلاحظ|نقترب|نبتعد|ننتقل"; word_end];
    cat [star is_ws; any_of "رأينا|سمعنا|لاحظنا|شاهدنا"; word_end] ].

Definition matchesActionStartPattern (line : jsstring) : bool :=
  let normalized := normalizeLine line in
  existsb (fun pattern => test_start pattern normalized) actionStartPatterns.

Definition isLikelyAction (line : jsstring) : bool :=
  if negb (truthy line) || negb (truthy (trim line)) then false
  else
    let normalized := normalizeLine line in
    if matchesActionStartPattern normalized then true
    else if isActionVerbStart normalized then true
    else false.

(** ** Character cues *)

Definition is_colon : N -> bool := one_of (u ":：").

(** [/^\s*(?:صوت\s+)?[؀-ۿ][؀-ۿ\s0-9٠-٩]{0,30}:?\s*$/] *)
Definition CHARACTER_RE : regex :=
  cat [star is_ws;
       Opt (cat [Str (u "صوت"); plus is_ws]);
       Chr is_arabic;
       Rep (fun c => is_arabic c || is_ws c || is_any_digit c) 0 (Some 30%nat);
       Opt (Chr (one_of (u ":"))); star is_ws; Eos].

Definition isParenthetical (line : jsstring) : bool :=
  test_start
    (cat [Chr (one_of (u "(（")); RepLazy is_dot 0 None;
          Chr (one_of (u ")）")); Eos])
    (trim line).

Record InlineParts := {
  characterName : jsstring;
  dialogueText : jsstring
}.

(** [/^([^:：]{1,60}?)\s*[:：]\s*(.+)$/] *)
Definition INLINE_RE : regex :=
  cat [Grp (RepLazy (fun c => negb (is_colon c)) 1 (Some 60%nat));
       star is_ws; Chr is_colon; star is_ws; Grp (plus is_dot); Eos].

Definition parseInlineCharacterDialogue (line : jsstring)
  : option InlineParts :=
  let trimmed := trim line in
  match exec_start INLINE_RE trimmed with
  | Some [g1; g2] =>
      let name := trim g1 in
      let text := trim g2 in
      if negb (truthy name) || negb (truthy text) then None
      else if negb (test_start CHARACTER_RE (name ++ u ":")) then None
      else Some {| characterName := name; dialogueText := text |}
  | _ => None
  end.

(** The optional second argument of [isCharacterLine]; [lastFormat] is
    [None] when the caller passes [undefined] (an empty label history). *)
Record CharacterContext := {
  lastFormat : option jsstring;
  cc_isInDialogueBlock : bool
}.

(** [x === "label"] for a value that may be [undefined]. *)
Definition is_label (x : option jsstring) (label : string) : bool :=
  match x with
  | Some t => jseq t (u label)
  | None => false
  end.

Definition stopWords : list jsstring :=
  map u ["في"; "على"; "من"; "إلى"; "داخل"; "خارج"; "أمام"; "خلف"; "تحت";
         "فوق"; "بين"; "حول"; "ثم"; "بعد"; "قبل"; "عندما"; "بينما"; "مع";
         "فجأة"; "وهو"; "وهي"]%string.

(** [[\s؀-ۿ\d٠-٩ݐ-ݿࢠ-ࣿﭐ-﷿ﹰ-﻿]] *)
Definition is_arabic_script (c : N) : bool :=
  is_ws c || is_arabic c || is_digit c || is_arabic_digit c
  || between 0x750 0x77F c || between 0x8A0 0x8FF c
  || between 0xFB50 0xFDFF c || between 0xFE70 0xFEFF c.

Definition hasColonIn (s : jsstring) : bool :=
  includes s (u ":") || includes s (u "：").

Definition endsWithColon (s : jsstring) : bool :=
  endsWith s (u ":") || endsWith s (u "：").

Definition isCharacterLine (line : jsstring)
    (context : option CharacterContext) : bool :=
  let trimmed := trim line in
  if negb (truthy trimmed) then false
  else if isCompleteSceneHeader trimmed || isTransition trimmed
          || isParenthetical trimmed then false
  else
    let normalized := normalizeLine trimmed in
    let wordCount := length (words normalized) in
    if (5 <? wordCount)%nat then false
    else if isActionVerbStart normalized then false
    else if matchesActionStartPattern normalized then false
    else
      let hasColon := hasColonIn trimmed in
      if hasColon && endsWithColon trimmed then true
      else
        let arabicOnlyWithNumbers :=
          test_start (cat [plus is_arabic_script; Eos]) normalized in
        if negb hasColon && arabicOnlyWithNumbers then
          let tokens := words normalized in
          if (length tokens =? 0)%nat || (3 <? length tokens)%nat then false
          else if existsb (has stopWords) tokens then false
          else true
        else if negb hasColon then false
        else
          match context with
          | Some context =>
              if cc_isInDialogueBlock context
                 && is_label (lastFormat context) "character"
              then test_start CHARACTER_RE trimmed
              else if cc_isInDialogueBlock context
                      && is_label (lastFormat context) "dialogue"
              then false
              else if is_label (lastFormat context) "action" && hasColon
              then test_start CHARACTER_RE trimmed
              else test_start CHARACTER_RE trimmed
          | None => test_start CHARACTER_RE trimmed
          end.

(** ** Session memory ([context-memory-manager.ts]) *)

Record ClassificationRecord := {
  rec_line : jsstring;
  rec_classification : jsstring;
  rec_timestamp : Z
}.

(** *** The plain object [characterDialogueMap]

    The code indexes this object by any name a line gives.  Where the object
    has no property of that name of its own, a name of a member of
    [Object.prototype] ([constructor], [toString], [__proto__], ...) reads
    that member, and what the code then stores or compares is the string the
    member converts to.  These strings, and the number a string converts to,
    are the host's. *)
Class Host := {
  (** [String(Object.prototype[key])] when [key] names a member of
      [Object.prototype], [None] when it names none *)
  inheritedText : jsstring -> option jsstring;
  (** [Number(s) >= 3] *)
  numberAtLeast3 : jsstring -> bool
}.

(** What a property of the object holds: a number, or a string once a member
    of [Object.prototype] went through the addition. *)
Inductive Count : Type :=
| Num (n : nat)
| Text (s : jsstring).

(** What [obj[key]] reads. *)
Inductive Member : Type :=
| Own (c : Count)
| Inherited (text : jsstring)
| Missing.

(** [obj[key]] *)
Definition get_member {host : Host} (obj : gmap jsstring Count)
    (key : jsstring) : Member :=
  match obj !! key with
  | Some c => Own c
  | None =>
      match inheritedText key with
      | Some text => Inherited text
      | None => Missing
      end
  end.

(** [(x || 0) + 1]: a number is added to, a string and a member of
    [Object.prototype] are concatenated with; the empty string is falsy. *)
Definition plus_one (x : Member) : Count :=
  match x with
  | Own (Num n) => Num (n + 1)
  | Own (Text s) => if truthy s then Text (s ++ u "1") else Num 1
  | Inherited text => Text (text ++ u "1")
  | Missing => Num 1
  end.

(** [(x || 0) >= 3] *)
Definition at_least_three {host : Host} (x : Member) : bool :=
  match x with
  | Own (Num n) => (3 <=? n)%nat
  | Own (Text s) => if truthy s then numberAtLeast3 s else false
  | Inherited text => numberAtLeast3 text
  | Missing => false
  end.

(** [obj[key] = c] for a number or a string [c]: a property of its own is
    written or created, except that the setter of [__proto__] takes the
    assignment of a primitive value and drops it when the object has no
    property of that name of its own. *)
Definition set_member (obj : gmap jsstring Count) (key : jsstring)
    (c : Count) : gmap jsstring Count :=
  match obj !! key with
  | Some _ => <[key := c]> obj
  | None => if jseq key (u "__proto__") then obj else <[key := c]> obj
  end.

(** The value of a [ContextMemory] record, which is also what its JSON text
    denotes. *)
Record MemoryData := {
  commonCharacters : list jsstring;
  commonLocations : list jsstring;
  lastClassifications : list jsstring;
  characterDialogueMap : gmap jsstring Count
}.

Record ContextMemory := {
  sessionId : jsstring;
  lastModified : Z;
  data : MemoryData
}.

(** *** The object heap

    A [ContextMemory] is a graph of six objects: the record, its [data]
    object, three arrays and the occurrence map. *)

Abbreviation loc := positive.

Inductive object : Type :=
| OArray (items : list jsstring)
| ODict (entries : gmap jsstring Count)
| OData (characters locations classifications dialogueMap : loc)
| OMemory (session : jsstring) (modified : Z) (dat : loc).

Definition get_array (h : gmap loc object) (l : loc) : option (list jsstring) :=
  match h !! l with
  | Some (OArray xs) => Some xs
  | _ => None
  end.

Definition get_dict (h : gmap loc object) (l : loc)
  : option (gmap jsstring Count) :=
  match h !! l with
  | Some (ODict m) => Some m
  | _ => None
  end.

Definition get_data (h : gmap loc object) (l : loc)
  : option (loc * loc * loc * loc) :=
  match h !! l with
  | Some (OData a b c m) => Some (a, b, c, m)
  | _ => None
  end.

Definition get_memory (h : gmap loc object) (l : loc)
  : option (jsstring * Z * loc) :=
  match h !! l with
  | Some (OMemory s t d) => Some (s, t, d)
  | _ => None
  end.

(** [JSON.stringify(x)]: the value read through the reference [l]. *)
Definition stringify (h : gmap loc object) (l : loc) : option ContextMemory :=
  '(s, t, d) ← get_memory h l;
  '(a, b, c, m) ← get_data h d;
  cc ← get_array h a;
  cl ← get_array h b;
  lc ← get_array h c;
  cdm ← get_dict h m;
  Some {| sessionId := s; lastModified := t;
          data := {| commonCharacters := cc; commonLocations := cl;
                     lastClassifications := lc;
                     characterDialogueMap := cdm |} |}.

Definition alloc (h : gmap loc object) (o : object) : gmap loc object * loc :=
  let l := fresh (dom h) in (<[l := o]> h, l).

(** [JSON.parse(text)], and also an object literal with these contents: a
    fresh object graph holding the value. *)
Definition parse (h : gmap loc object) (v : ContextMemory)
  : gmap loc object * loc :=
  let '(h1, a) := alloc h (OArray (commonCharacters (data v))) in
  let '(h2, b) := alloc h1 (OArray (commonLocations (data v))) in
  let '(h3, c) := alloc h2 (OArray (lastClassifications (data v))) in
  let '(h4, m) := alloc h3 (ODict (characterDialogueMap (data v))) in
  let '(h5, d) := alloc h4 (OData a b c m) in
  alloc h5 (OMemory (sessionId v) (lastModified v) d).

(** The objects reachable from a [ContextMemory] reference. *)
Definition footprint (h : gmap loc object) (l : loc) : list loc :=
  match get_memory h l with
  | Some (_, _, d) =>
      match get_data h d with
      | Some (a, b, c, m) => [l; d; a; b; c; m]
      | None => [l; d]
      end
  | None => [l]
  end.

(** *** The manager: the heap and the private [storage] map *)

Record State := {
  heap : gmap loc object;
  storage : gmap jsstring loc
}.

(** [new ContextMemoryManager()] in a heap [h] *)
Definition new_manager (h : gmap loc object) : State :=
  {| heap := h; storage := ∅ |}.

(** Each method returns [None] only on a heap that is not well typed (a
    reference of [storage] or the argument that leads to no [ContextMemory]
    graph), which no run of the program produces. *)
Definition loadContext (st : State) (sid : jsstring)
  : option (State * option loc) :=
  match storage st !! sid with
  | Some l =>
      v ← stringify (heap st) l;
      let '(h', l') := parse (heap st) v in
      Some ({| heap := h'; storage := storage st |}, Some l')
  | None => Some (st, None)
  end.

Definition saveContext (st : State) (sid : jsstring) (memory : loc)
  : option State :=
  v ← stringify (heap st) memory;
  let '(h', l') := parse (heap st) v in
  Some {| heap := h'; storage := <[sid := l']> (storage st) |}.

Definition empty_memory (sid : jsstring) (now : Z) : ContextMemory :=
  {| sessionId := sid; lastModified := now;
     data := {| commonCharacters := []; commonLocations := [];
                lastClassifications := []; characterDialogueMap := ∅ |} |}.

(** [memory.lastModified = t] *)
Definition set_lastModified (h : gmap loc object) (memory : loc) (t : Z)
  : option (gmap loc object) :=
  '(s, _, d) ← get_memory h memory;
  Some (<[memory := OMemory s t d]> h).

(** [memory.data.lastClassifications = arr] *)
Definition set_lastClassifications (h : gmap loc object) (memory arr : loc)
  : option (gmap loc object) :=
  '(_, _, d) ← get_memory h memory;
  '(a, b, _, m) ← get_data h d;
  Some (<[d := OData a b arr m]> h).

(** The class of the replace in [updateMemory], as the source file has it:
    the colon and the units U+00EF, U+00BC, U+0161. *)
Definition is_name_separator : N -> bool := one_of [58; 0xEF; 0xBC; 0x161]%N.

Definition record_name (record : ClassificationRecord) : jsstring :=
  trim (remove_all is_name_separator (rec_line record)).

(** The body of the [forEach] over the records. *)
Definition remember_character {host : Host} (memory : loc)
    (h : gmap loc object) (record : ClassificationRecord)
  : option (gmap loc object) :=
  if jseq (rec_classification record) (u "character") then
    let charName := record_name record in
    if truthy charName then
      '(_, _, d) ← get_memory h memory;
      '(a, _, _, m) ← get_data h d;
      cc ← get_array h a;
      let h1 :=
        if has cc charName then h
        else <[a := OArray (cc ++ [charName])]> h in
      cdm ← get_dict h1 m;
      Some (<[m := ODict (set_member cdm charName
                            (plus_one (get_member cdm charName)))]> h1)
    else Some h
  else Some h.

Fixpoint for_each {A S : Type} (f : S -> A -> option S) (s : S) (xs : list A)
  : option S :=
  match xs with
  | [] => Some s
  | x :: rest => s' ← f s x; for_each f s' rest
  end.

(** [updateMemory] from its first [await] on, when [loadContext] has given
    [loaded] ([None] for [null]); [now] is the value of [Date.now()].  It
    runs to the call of [saveContext], its second [await], after which it
    does nothing more. *)
Definition updateMemory_resumed {host : Host} (st : State) (now : Z)
    (sid : jsstring) (classifications : list ClassificationRecord)
    (loaded : option loc) : option State :=
  let '(h1, memory) :=
    match loaded with
    | Some l => (heap st, l)
    | None => parse (heap st) (empty_memory sid now)
    end in
  h2 ← set_lastModified h1 memory now;
  old ← (lastClassifications ∘ data) <$> stringify h2 memory;
  let '(h3, arr) :=
    alloc h2 (OArray (take 20 (map rec_classification classifications
                                 ++ old))) in
  h4 ← set_lastClassifications h3 memory arr;
  h5 ← for_each (remember_character memory) h4 classifications;
  saveContext {| heap := h5; storage := storage st |} sid memory.

(** A call of [updateMemory] with nothing else running between its call of
    [loadContext], which takes place at once, and the rest, which takes
    place when the [await] resumes. *)
Definition updateMemory {host : Host} (st : State) (now : Z) (sid : jsstring)
    (classifications : list ClassificationRecord) : option State :=
  '(st1, loaded) ← loadContext st sid;
  updateMemory_resumed st1 now sid classifications loaded.

(** What the store holds for a session, as a value. *)
Definition stored (st : State) (sid : jsstring) : option ContextMemory :=
  l ← storage st !! sid; stringify (heap st) l.

(** *** The update on values *)

Definition remember_character_value {host : Host} (d : MemoryData)
    (record : ClassificationRecord) : MemoryData :=
  if jseq (rec_classification record) (u "character") then
    let charName := record_name record in
    if truthy charName then
      {| commonCharacters :=
           if has (commonCharacters d) charName then commonCharacters d
           else commonCharacters d ++ [charName];
         commonLocations := commonLocations d;
         lastClassifications := lastClassifications d;
         characterDialogueMap :=
           set_member (characterDialogueMap d) charName
             (plus_one (get_member (characterDialogueMap d) charName)) |}
    else d
  else d.

Definition updated_memory {host : Host} (now : Z) (sid : jsstring)
    (before : option ContextMemory)
    (classifications : list ClassificationRecord) : ContextMemory :=
  let memory := default (empty_memory sid now) before in
  let d := data memory in
  {| sessionId := sessionId memory;
     lastModified := now;
     data :=
       fold_left remember_character_value classifications
         {| commonCharacters := commonCharacters d;
            commonLocations := commonLocations d;
            lastClassifications :=
              take 20 (map rec_classification classifications
                         ++ lastClassifications d);
            characterDialogueMap := characterDialogueMap d |} |}.

(** ** The context window *)

Record LineStats := {
  wordCount : nat;
  charCount : nat;
  hasColon : bool;
  hasPunctuation : bool;
  startsWithBullet : bool;
  isShort : bool;
  isLong : bool
}.

Record LinePattern := {
  isInDialogueBlock : bool;
  isInSceneHeader : bool;
  lastSceneDistance : Z;
  lastCharacterDistance : Z
}.

Record LineContext := {
  previousLines : list jsstring;
  currentLine : jsstring;
  nextLines : list jsstring;
  previousTypes : list jsstring;
  stats : LineStats;
  pattern : LinePattern
}.

(** [xs[xs.length - 1]], [undefined] on the empty array *)
Definition last_of (xs : list jsstring) : option jsstring :=
  match rev xs with
  | x :: _ => Some x
  | [] => None
  end.

(** [xs.slice(-n)] *)
Definition slice_last (n : nat) (xs : list jsstring) : list jsstring :=
  drop (length xs - n) xs.

(** [lines[i] || ""] *)
Definition line_at (lines : list jsstring) (i : nat) : jsstring :=
  nth i lines [].

(** The backward scans of [buildContext]: the distance from the end of the
    history to the last label that satisfies [p], or -1. *)
Fixpoint first_index (p : jsstring -> bool) (xs : list jsstring)
  : option nat :=
  match xs with
  | [] => None
  | x :: rest => if p x then Some O else S <$> first_index p rest
  end.

Definition distance_back (p : jsstring -> bool) (types : list jsstring) : Z :=
  match first_index p (rev types) with
  | Some k => Z.of_nat k
  | None => (-1)%Z
  end.

Definition WINDOW_SIZE : nat := 3.

Definition buildContext (lines : list jsstring) (currentIndex : nat)
    (previousTypes : list jsstring) : LineContext :=
  let currentLine := line_at lines currentIndex in
  let first := (currentIndex - WINDOW_SIZE)%nat in
  let previousLines :=
    map (line_at lines) (seq first (currentIndex - first)) in
  let stop := Nat.min (length lines) (currentIndex + WINDOW_SIZE + 1) in
  let nextLines :=
    map (line_at lines) (seq (currentIndex + 1) (stop - (currentIndex + 1))) in
  let trimmedLine := trim currentLine in
  let normalized := normalizeLine currentLine in
  let stats :=
    {| wordCount := length (words normalized);
       charCount := length trimmedLine;
       hasColon := hasColonIn trimmedLine;
       hasPunctuation := test (Chr (one_of (u ".!?،؛"))) trimmedLine;
       startsWithBullet :=
         test_start (cat [star is_lead; Chr is_bullet_no_hyphen]) currentLine;
       isShort := (length trimmedLine <? 30)%nat;
       isLong := (100 <? length trimmedLine)%nat |} in
  let recentTypes := slice_last 10 previousTypes in
  let lastType := last_of previousTypes in
  let isInDialogueBlock :=
    existsb (fun t => jseq t (u "character") || jseq t (u "dialogue")
                      || jseq t (u "parenthetical"))
            (slice_last 3 recentTypes) in
  let isInSceneHeader :=
    is_label lastType "scene-header-top-line"
    || is_label lastType "scene-header-1"
    || is_label lastType "scene-header-2" in
  {| previousLines := previousLines;
     currentLine := currentLine;
     nextLines := nextLines;
     previousTypes := previousTypes;
     stats := stats;
     pattern :=
       {| isInDialogueBlock := isInDialogueBlock;
          isInSceneHeader := isInSceneHeader;
          lastSceneDistance :=
            distance_back (fun t => includes t (u "scene-header"))
              previousTypes;
          lastCharacterDistance :=
            distance_back (fun t => jseq t (u "character")) previousTypes |} |}.

(** ** The rule based classifier *)

Definition KNOWN_PLACES : regex :=
  Grp (any_of_i "مسجد|بيت|منزل|شارع|حديقة|مدرسة|جامعة|مكتب|محل|مستشفى|مطعم|فندق|سيارة|غرفة|قاعة|ممر|سطح|ساحة|مقبرة|مخبز|مكتبة|نهر|بحر|جبل|غابة|سوق|مصنع|بنك|محكمة|سجن|موقف|محطة|مطار|ميناء|كوبرى|نفق|مبنى|قصر|نادي|ملعب|ملهى|بار|كازينو|متحف|مسرح|سينما|معرض|مزرعة|مختبر|مستودع|مقهى|شركة|كهف|صالة|حمام|مطبخ|شرفة|ميدان|مخزن|مخازن|حرم|باحة|دار|روضة|معهد|مركز|عيادة|ورشة|مصلى|زاوية").

Definition is_word_or_ws (c : N) : bool := is_word c || is_ws c.

(** a place, then words, a dash out of [–—-], then words *)
Definition PLACE_DASH_RE : regex :=
  cat [Grp (any_of_i "منزل|بيت|مكتب|شقة|فيلا|قصر|محل|مصنع|مستشفى|مدرسة|جامعة|فندق|مطعم|مقهى|شركة|بنك|مركز");
       plus is_ws; plus is_word_or_ws; star is_ws;
       Chr (one_of (u "–—-")); star is_ws; plus is_word_or_ws].

Definition sceneHeaderFamily : list jsstring :=
  [u "scene-header-top-line"; u "scene-header-1"; u "scene-header-2"].

(** [family.includes(x)] for a value that may be [undefined] *)
Definition includes_label (family : list jsstring) (x : option jsstring)
  : bool :=
  match x with
  | Some t => has family t
  | None => false
  end.

(** [normalized.replace(/:+\s*$/, empty)] *)
Definition withoutColon (normalized : jsstring) : jsstring :=
  replace_first (cat [plus (one_of (u ":")); star is_ws; Eos]) normalized.

Definition isSceneHeader3 (line : jsstring) (ctx : LineContext) : bool :=
  let normalized := normalizeLine line in
  let normalizedWithoutColon := withoutColon normalized in
  let wordCount := length (words normalizedWithoutColon) in
  let lastType := last_of (previousTypes ctx) in
  if includes_label sceneHeaderFamily lastType
     && (wordCount <=? 12)%nat
     && negb (hasSentencePunctuation line)
     && negb (isActionVerbStart normalizedWithoutColon)
     && negb (matchesActionStartPattern normalizedWithoutColon)
  then true
  else if test_start KNOWN_PLACES normalizedWithoutColon then true
  else if test_start PLACE_DASH_RE normalizedWithoutColon then true
  else false.

(** [ctx.nextLines[0]] *)
Definition nextLine_of (ctx : LineContext) : option jsstring :=
  head (nextLines ctx).

Definition isLikelyCharacter (line : jsstring) (ctx : LineContext) : bool :=
  if negb (isShort (stats ctx)) || (5 <? wordCount (stats ctx))%nat then false
  else if isTransition line then false
  else if isActionVerbStart (normalizeLine line) then false
  else if hasPunctuation (stats ctx) && negb (hasColon (stats ctx)) then false
  else if match nextLine_of ctx with
          | Some nextLine =>
              truthy nextLine
              && (isCompleteSceneHeader nextLine || isTransition nextLine)
          | None => false
          end then false
  else if (lastCharacterDistance (pattern ctx) =? 1)%Z then false
  else true.

Definition classifyWithContext (line : jsstring) (ctx : LineContext)
  : jsstring :=
  let lastType := last_of (previousTypes ctx) in
  let nextLine := nextLine_of ctx in
  if isBasmala line then u "basmala"
  else if isCompleteSceneHeader line then u "scene-header-top-line"
  else if isSceneHeader1 line then u "scene-header-1"
  else if isSceneHeader2 line then u "scene-header-2"
  else if isTransition line then u "transition"
  else if isParenthetical line && isInDialogueBlock (pattern ctx)
  then u "parenthetical"
  else if isLikelyAction line then u "action"
  else if isInSceneHeader (pattern ctx) && isSceneHeader3 line ctx
  then u "scene-header-3"
  else if isInDialogueBlock (pattern ctx)
          && (is_label lastType "character"
              || is_label lastType "parenthetical")
          && negb (isCharacterLine line
                     (Some {| lastFormat := lastType;
                              cc_isInDialogueBlock := true |}))
  then u "dialogue"
  else if isInDialogueBlock (pattern ctx)
          && is_label lastType "dialogue"
          && negb (hasColon (stats ctx))
          && negb (isCompleteSceneHeader line)
  then u "dialogue"
  else if isShort (stats ctx) && hasColon (stats ctx)
          && isCharacterLine line
               (Some {| lastFormat := lastType;
                        cc_isInDialogueBlock :=
                          isInDialogueBlock (pattern ctx) |})
  then u "character"
  else if isShort (stats ctx)
          && match nextLine with
             | Some nextLine =>
                 truthy nextLine && (20 <? length (trim nextLine))%nat
             | None => false
             end
          && isLikelyCharacter line ctx
  then u "character"
  else if isLong (stats ctx) && hasPunctuation (stats ctx) then u "action"
  else if startsWithBullet (stats ctx)
          && match parseInlineCharacterDialogue
                     (trim (replace_start
                              (cat [star is_lead; Chr is_bullet_no_hyphen])
                              line)) with
             | None => true
             | Some _ => false
             end
  then u "action"
  else u "action".

(** ** Classification with the session memory *)

(** How a call that may throw ends. *)
Inductive Completion (A : Type) : Type :=
| Returned (a : A)
| Thrown (error : jsstring).

Arguments Returned {A} a.
Arguments Thrown {A} error.

Definition and_then {A B : Type} (c : Completion A) (k : A -> Completion B)
  : Completion B :=
  match c with
  | Returned a => k a
  | Thrown e => Thrown e
  end.

(** How [await memoryManager.loadContext(sessionId)] ends: with a record,
    with [null], or rejected. *)
Inductive LoadOutcome : Type :=
| Loaded (memory : ContextMemory)
| NotFound
| Rejected (error : jsstring).

(** What a caller of [loadContext] observes of the in-memory manager. *)
Definition observe (st : State) (sid : jsstring) : LoadOutcome :=
  match stored st sid with
  | Some v => Loaded v
  | None => NotFound
  end.

(** [xs.slice(0, n)] is [take n xs]. *)

Section WithHost.

Context {host : Host}.

(** [String.prototype.toLowerCase], a built-in of the host. *)
Variable toLowerCase : jsstring -> jsstring.

(** The body of the [try] block once the memory is loaded. *)
Definition adjustWithMemory (line : jsstring) (ctx : LineContext)
    (memory : ContextMemory) (classification : jsstring) : jsstring :=
  let c1 :=
    if isShort (stats ctx) && negb (hasPunctuation (stats ctx)) then
      let normalized := remove_all is_colon (normalizeLine line) in
      let knownCharacter :=
        List.find
          (fun char =>
             let charNormalized := toLowerCase char in
             let lineNormalized := toLowerCase normalized in
             includes charNormalized lineNormalized
             || includes lineNormalized charNormalized)
          (commonCharacters (data memory)) in
      match knownCharacter with
      | Some known =>
          if truthy known && (wordCount (stats ctx) <=? 3)%nat
             && (length line <? 40)%nat
          then u "character" else classification
      | None => classification
      end
    else classification in
  let recentPattern :=
    join (u "-") (take 3 (lastClassifications (data memory))) in
  let lastType := last_of (previousTypes ctx) in
  let c2 :=
    if startsWith recentPattern (u "character-dialogue")
       && is_label lastType "dialogue"
       && negb (hasColon (stats ctx))
       && isLikelyAction line
    then u "action" else c1 in
  let c3 :=
    if jseq recentPattern (u "dialogue-dialogue-dialogue")
       && is_label lastType "dialogue"
       && negb (hasColon (stats ctx))
       && negb (isCompleteSceneHeader line)
    then u "dialogue" else c2 in
  let c4 :=
    if jseq recentPattern (u "action-action-action")
       && is_label lastType "action"
       && isLong (stats ctx)
    then u "action" else c3 in
  if jseq c4 (u "character") then
    let charName := trim (remove_all is_colon line) in
    let appearances :=
      get_member (characterDialogueMap (data memory)) charName in
    if at_least_three appearances then u "character" else c4
  else c4.

(** [memoryManager] is [None] for [null]; otherwise it answers
    [loadContext]. *)
Definition classifyWithContextAndMemory (line : jsstring) (ctx : LineContext)
    (memoryManager : option (jsstring -> LoadOutcome)) (sessionId : jsstring)
  : Completion jsstring :=
  let classification := classifyWithContext line ctx in
  match memoryManager with
  | None => Returned classification
  | Some manager =>
      (* try *)
      match manager sessionId with
      | NotFound => Returned classification
      | Loaded memory =>
          Returned (adjustWithMemory line ctx memory classification)
      | Rejected _ =>
          (* catch: the error is logged *)
          Returned classification
      end
  end.

(** ** The paste handler *)

Variable CSSProperties : Type.

(** [getFormatStylesFn(formatType, size, font)] *)
Variable getFormatStylesFn : jsstring -> jsstring -> jsstring -> CSSProperties.

(** One [div] built by [buildLineDivHTML]: [lineMarginTop] is the margin that
    overrides the one of [lineStyles], when there is one. *)
Record LineDiv := {
  lineClass : jsstring;
  lineStyles : CSSProperties;
  lineMarginTop : option jsstring;
  lineText : jsstring
}.

(** A block appended to [formattedHTML]. *)
Inductive Block : Type :=
| Line (d : LineDiv)
| TopLine (groupClass : jsstring) (groupStyles : CSSProperties)
          (groupMarginTop : option jsstring) (part1 part2 : LineDiv).

(** [if (marginTop) finalStyles.marginTop = marginTop] *)
Definition applied_margin (marginTop : option jsstring) : option jsstring :=
  match marginTop with
  | Some m => if truthy m then Some m else None
  | None => None
  end.

Definition buildLineDivHTML (className : jsstring) (styles : CSSProperties)
    (text : jsstring) (marginTop : option jsstring) : LineDiv :=
  {| lineClass := className; lineStyles := styles;
     lineMarginTop := applied_margin marginTop; lineText := text |}.

Record PasteState := {
  formattedHTML : list Block;
  previousFormatClass : jsstring;
  classifiedTypes : list jsstring
}.

(** *** Spacing rules *)

Definition getSpacingMarginTop (previousFormat currentFormat : jsstring)
  : jsstring :=
  if jseq previousFormat (u "basmala") then u "0"
  else if jseq previousFormat (u "character")
          && (jseq currentFormat (u "dialogue")
              || jseq currentFormat (u "parenthetical"))
  then u "0"
  else if jseq previousFormat (u "parenthetical")
          && jseq currentFormat (u "dialogue")
  then u "0"
  else if jseq previousFormat (u "scene-header-2")
          && jseq currentFormat (u "scene-header-3")
  then u "14pt"
  else if jseq previousFormat (u "scene-header-3")
          && jseq currentFormat (u "action")
  then u "14pt"
  else if jseq previousFormat (u "action")
          && (jseq currentFormat (u "action")
              || jseq currentFormat (u "character")
              || jseq currentFormat (u "transition"))
  then u "14pt"
  else if jseq previousFormat (u "dialogue")
          && (jseq currentFormat (u "character")
              || jseq currentFormat (u "action")
              || jseq currentFormat (u "transition"))
  then u "14pt"
  else if jseq previousFormat (u "parenthetical")
          && (jseq currentFormat (u "character")
              || jseq currentFormat (u "action")
              || jseq currentFormat (u "transition"))
  then u "14pt"
  else if jseq previousFormat (u "transition")
          && (jseq currentFormat (u "scene-header-1")
              || jseq currentFormat (u "scene-header-top-line"))
  then u "14pt"
  else [].

(** *** The loop of [handlePaste] *)

(** The class name [format-] followed by the label. *)
Definition format_class (formatClass : jsstring) : jsstring :=
  u "format-" ++ formatClass.

(** The body of the loop for the line of index [i]. *)
Definition processLine (lines : list jsstring)
    (memoryManager : option (jsstring -> LoadOutcome)) (sessionId : jsstring)
    (i : nat) (st : PasteState) : Completion PasteState :=
  let trimmedLine := trim (line_at lines i) in
  if negb (truthy trimmedLine) then Returned st
  else
    let strippedLine := stripLeadingBullets trimmedLine in
    let ctx := buildContext lines i (classifiedTypes st) in
    match parseInlineCharacterDialogue strippedLine with
    | Some inlineParsed =>
        let charStyles := getFormatStylesFn (u "character") [] [] in
        let dialogueStyles := getFormatStylesFn (u "dialogue") [] [] in
        let charMarginTop :=
          getSpacingMarginTop (previousFormatClass st) (u "character") in
        let charHTML :=
          buildLineDivHTML (u "format-character") charStyles
            (characterName inlineParsed) (Some charMarginTop) in
        let dialogueHTML :=
          buildLineDivHTML (u "format-dialogue") dialogueStyles
            (dialogueText inlineParsed) (Some (u "0")) in
        Returned
          {| formattedHTML :=
               formattedHTML st ++ [Line charHTML; Line dialogueHTML];
             previousFormatClass := u "dialogue";
             classifiedTypes :=
               classifiedTypes st ++ [u "character"; u "dialogue"] |}
    | None =>
        and_then
          (classifyWithContextAndMemory strippedLine ctx memoryManager
             sessionId)
          (fun classification =>
             match (if jseq classification (u "scene-header-top-line")
                    then splitSceneHeader strippedLine else None) with
             | Some parts =>
                 let topLevelStyles :=
                   getFormatStylesFn (u "scene-header-top-line") [] [] in
                 let part1Styles :=
                   getFormatStylesFn (u "scene-header-1") [] [] in
                 let part2Styles :=
                   getFormatStylesFn (u "scene-header-2") [] [] in
                 let part1HTML :=
                   buildLineDivHTML (u "format-scene-header-1") part1Styles
                     (sh_number parts) None in
                 let part2HTML :=
                   buildLineDivHTML (u "format-scene-header-2") part2Styles
                     (sh_description parts) None in
                 let topLevelMarginTop :=
                   getSpacingMarginTop (previousFormatClass st)
                     (u "scene-header-top-line") in
                 Returned
                   {| formattedHTML :=
                        formattedHTML st
                        ++ [TopLine (u "format-scene-header-top-line")
                              topLevelStyles
                              (applied_margin (Some topLevelMarginTop))
                              part1HTML part2HTML];
                      previousFormatClass := u "scene-header-top-line";
                      classifiedTypes :=
                        classifiedTypes st ++ [u "scene-header-top-line"] |}
             | None =>
                 let formatClass := classification in
                 let marginTop :=
                   getSpacingMarginTop (previousFormatClass st) formatClass in
                 let styles := getFormatStylesFn formatClass [] [] in
                 let lineHTML :=
                   buildLineDivHTML (format_class formatClass) styles
                     strippedLine (Some marginTop) in
                 Returned
                   {| formattedHTML := formattedHTML st ++ [Line lineHTML];
                      previousFormatClass := formatClass;
                      classifiedTypes := classifiedTypes st ++ [formatClass] |}
             end)
    end.

(** [for (let i = 0; i < lines.length; i++)], an exception leaving the loop *)
Fixpoint run_loop (body : nat -> PasteState -> Completion PasteState)
    (indices : list nat) (st : PasteState) : Completion PasteState :=
  match indices with
  | [] => Returned st
  | i :: rest => and_then (body i st) (run_loop body rest)
  end.

Definition initialState : PasteState :=
  {| formattedHTML := []; previousFormatClass := u "action";
     classifiedTypes := [] |}.

(** [textData.split(newline).filter((line) => line.trim())] *)
Definition paste_lines (textData : jsstring) : list jsstring :=
  List.filter (fun line => truthy (trim line)) (split_on 10%N textData).

(** [handlePaste] up to the insertion of [formattedHTML] into the document:
    [textData] is the clipboard text, [hasSelection] says whether the window
    has an active selection.  Nothing is formatted when either is missing. *)
Definition handlePaste (textData : jsstring) (hasSelection : bool)
    (memoryManager : option (jsstring -> LoadOutcome)) (sessionId : jsstring)
  : Completion PasteState :=
  if negb (truthy textData) then Returned initialState
  else if negb hasSelection then Returned initialState
  else
    let lines := paste_lines textData in
    run_loop (processLine lines memoryManager sessionId)
      (seq 0 (length lines)) initialState.

End WithHost.

Arguments lineClass {CSSProperties} _.
Arguments lineStyles {CSSProperties} _.
Arguments lineMarginTop {CSSProperties} _.
Arguments lineText {CSSProperties} _.
Arguments Line {CSSProperties} d.
Arguments TopLine {CSSProperties} _ _ _ _ _.
Arguments formattedHTML {CSSProperties} _.
Arguments previousFormatClass {CSSProperties} _.
Arguments classifiedTypes {CSSProperties} _.

(** ** The spacing table of the specification *)

Inductive Gap : Type :=
| NoGap             (* no added gap *)
| ParagraphGap      (* the fixed paragraph gap *)
| NoExplicitGap.    (* the base line spacing stands *)

Definition gap_value (g : Gap) : jsstring :=
  match g with
  | NoGap => u "0"
  | ParagraphGap => u "14pt"
  | NoExplicitGap => []
  end.

(** One row: the previous label, the current labels it lists ([None] for
    anything), and the gap. *)
Record SpacingRow := {
  row_previous : string;
  row_current : option (list string);
  row_gap : Gap
}.

Definition spacing_table : list SpacingRow :=
  [ {| row_previous := "basmala"; row_current := None; row_gap := NoGap |};
    {| row_previous := "character";
       row_current := Some ["dialogue"; "parenthetical"];
       row_gap := NoGap |};
    {| row_previous := "parenthetical"; row_current := Some ["dialogue"];
       row_gap := NoGap |};
    {| row_previous := "scene-header-2";
       row_current := Some ["scene-header-3"]; row_gap := ParagraphGap |};
    {| row_previous := "scene-header-3"; row_current := Some ["action"];
       row_gap := ParagraphGap |};
    {| row_previous := "action";
       row_current := Some ["action"; "character"; "transition"];
       row_gap := ParagraphGap |};
    {| row_previous := "dialogue";
       row_current := Some ["character"; "action"; "transition"];
       row_gap := ParagraphGap |};
    {| row_previous := "parenthetical";
       row_current := Some ["character"; "action"; "transition"];
       row_gap := ParagraphGap |};
    {| row_previous := "transition";
       row_current := Some ["scene-header-1"; "scene-header-top-line"];
       row_gap := ParagraphGap |} ]%string.

Definition row_lists (row : SpacingRow) (previous current : jsstring) : bool :=
  jseq previous (u (row_previous row))
  && match row_current row with
     | None => true
     | Some labels => existsb (fun l => jseq current (u l)) labels
     end.

(** ** Observations on the output of [handlePaste] *)

Definition block_class {CSS : Type} (b : Block CSS) : jsstring :=
  match b with
  | Line d => lineClass d
  | TopLine c _ _ _ _ => c
  end.

Definition block_margin {CSS : Type} (b : Block CSS) : option jsstring :=
  match b with
  | Line d => lineMarginTop d
  | TopLine _ _ m _ _ => m
  end.

(** Wherever a character block is immediately followed by a dialogue or a
    parenthetical block, the margin of the latter is zero. *)
Definition zero_after_character {CSS : Type} (blocks : list (Block CSS))
  : Prop :=
  ∀ before b1 b2 after,
    blocks = before ++ b1 :: b2 :: after →
    block_class b1 = format_class (u "character") →
    block_class b2 = format_class (u "dialogue")
    ∨ block_class b2 = format_class (u "parenthetical") →
    block_margin b2 = Some (u "0").

(** ** Rule 8 as the specification words it *)

(** Every condition at once: a scene header family label just before, at
    most twelve words, no sentence punctuation, no action opener, and a
    known place or the place and dash pattern. *)
Definition spec_rule8 (line : jsstring) (ctx : LineContext) : bool :=
  let normalizedWithoutColon := withoutColon (normalizeLine line) in
  includes_label sceneHeaderFamily (last_of (previousTypes ctx))
  && (length (words normalizedWithoutColon) <=? 12)%nat
  && negb (hasSentencePunctuation line)
  && negb (isActionVerbStart normalizedWithoutColon)
  && negb (matchesActionStartPattern normalizedWithoutColon)
  && (test_start KNOWN_PLACES normalizedWithoutColon
      || test_start PLACE_DASH_RE normalizedWithoutColon).

(** ** A host for concrete runs *)

(** [toLowerCase] on the ASCII letters; Arabic letters have no case. *)
Definition lower_ascii (s : jsstring) : jsstring :=
  map (fun c => if between 65 90 c then (c + 32)%N else c) s.

(** The styles of a format stand for themselves. *)
Definition styles_by_name (formatType size font : jsstring) : jsstring :=
  formatType.

(** The members of [Object.prototype], each with the string V8 converts it
    to. *)
Definition prototype_texts : list (jsstring * jsstring) :=
  map (fun e => (u (fst e), u (snd e)))
    [("constructor", "function Object() { [native code] }");
     ("__defineGetter__", "function __defineGetter__() { [native code] }");
     ("__defineSetter__", "function __defineSetter__() { [native code] }");
     ("hasOwnProperty", "function hasOwnProperty() { [native code] }");
     ("__lookupGetter__", "function __lookupGetter__() { [native code] }");
     ("__lookupSetter__", "function __lookupSetter__() { [native code] }");
     ("isPrototypeOf", "function isPrototypeOf() { [native code] }");
     ("propertyIsEnumerable",
      "function propertyIsEnumerable() { [native code] }");
     ("toString", "function toString() { [native code] }");
     ("valueOf", "function valueOf() { [native code] }");
     ("__proto__", "[object Object]");
     ("toLocaleString", "function toLocaleString() { [native code] }")]%string.

(** [Number(s) >= 3] on the strings of decimal digits; any other string
    counts as no number. *)
Definition digits_at_least3 (s : jsstring) : bool :=
  truthy s && forallb is_digit s
  && (3 <=? fold_left (fun n c => 10 * n + (c - 48)) s 0)%N.

#[global] Instance standard_host : Host := {|
  inheritedText key :=
    snd <$> List.find (fun e => jseq key (fst e)) prototype_texts;
  numberAtLeast3 := digits_at_least3
|}.

(** ** Concrete inputs *)

(** The context [classifyWithContext] passes on just after a dialogue
    label. *)
Definition after_dialogue : CharacterContext :=
  {| lastFormat := Some (u "dialogue"); cc_isInDialogueBlock := true |}.

(** The second line of a batch, just after a scene number line. *)
Definition after_scene_number (line : jsstring) : LineContext :=
  buildContext [u "مشهد 1"; line] 1 [u "scene-header-1"].

(** The classes of the blocks a paste produced. *)
Definition pasted_classes {CSS : Type} (c : Completion (PasteState CSS))
  : option (list jsstring) :=
  match c with
  | Returned st => Some (map block_class (formattedHTML st))
  | Thrown _ => None
  end.

(** The texts of the top level line blocks a paste produced. *)
Definition pasted_lines {CSS : Type} (c : Completion (PasteState CSS))
  : option (list (jsstring * jsstring * option jsstring)) :=
  match c with
  | Returned st =>
      Some (flat_map
              (fun b => match b with
                        | Line d => [(lineClass d, lineText d, lineMarginTop d)]
                        | TopLine _ _ _ _ _ => []
                        end)
              (formattedHTML st))
  | Thrown _ => None
  end.

(** A complete scene header behind two bullets: the first is stripped by
    [stripLeadingBullets], the second only by [normalizeLine]. *)
Definition doubly_bulleted_header : jsstring := u "• • مشهد 1 داخلي ليل".

(** ** Notions used in the proofs *)

(** Every unit a match of [r] consumes is of the class [C]. *)
Fixpoint eats (C : N -> bool) (r : regex) : Prop :=
  match r with
  | Chr p => ∀ c, p c = true → C c = true
  | Str l => forallb C l = true
  | StrI l =>
      ∀ c, existsb (fun a => (fold_case a =? fold_case c)%N) l = true →
           C c = true
  | Cat a b | Alt a b => eats C a ∧ eats C b
  | Opt a | Grp a => eats C a
  | Rep p _ _ | RepLazy p _ _ => ∀ c, p c = true → C c = true
  | Eos => True
  end.

(** The units a character name is made of: the classes of [CHARACTER_RE]
    before its colon. *)
Definition is_name_unit (c : N) : bool :=
  is_arabic c || is_ws c || is_any_digit c.

(** The tail of [INLINE_RE] after the colon: white space, then the rest of
    the line as the second group. *)
Definition inline_text : regex :=
  Cat (Rep is_ws 0 None) (Cat (Grp (Rep is_dot 1 None)) Eos).

(** The tail of [INLINE_RE] after the first group. *)
Definition inline_colon : regex :=
  Cat (Rep is_ws 0 None) (Cat (Chr is_colon) inline_text).

(** A name of 64 units that [CHARACTER_RE] accepts: the voice prefix, 58
    spaces, a name. *)
Definition long_name : jsstring := u "صوت" ++ repeat 32%N 58 ++ u "علي".

(** A text with a carriage return inside. *)
Definition text_with_return : jsstring := u "أين" ++ [13%N] ++ u "أنت؟".

(** The unit [c] matches no unit of the literal [t] under /i. *)
Definition avoids (t : jsstring) (c : N) : bool :=
  forallb (fun a => negb (fold_case a =? fold_case c)%N) t.

(** [y] is [x] without a prefix and a suffix that avoid the literal [t]. *)
Definition same_core (t x y : jsstring) : Prop :=
  ∃ a b, x = a ++ y ++ b ∧ forallb (avoids t) a = true
         ∧ forallb (avoids t) b = true.

(** The units of a line that the token tests of [isBasmala] see, were
    nothing trimmed or stripped on the way: the five removals alone. *)
Definition basmala_units (line : jsstring) : jsstring :=
  remove_all (fun c => negb (is_arabic c || is_ws c))
    (remove_all is_mark_or_tab
       (remove_all is_tashkeel
          (remove_all (one_of [0x200F; 0x200E; 0xFEFF]%N)
             (remove_all (one_of (u "{}()[]")) line)))).

(** The tokens of [isBasmala]. *)
Definition basmala_tokens : list jsstring :=
  [u "بسم"; u "الله"; u "الرحمن"; u "الرحي"].

(** A literal above the ASCII letters that has no unit of the classes the
    strips and trims remove. *)
Definition stays_inside (t : jsstring) : bool :=
  truthy t
  && forallb (fun a => (122 <? a)%N && negb (is_lead a) && negb (is_ws a)
                       && negb (is_bullet a)) t.

(** A session memory that knows one character name. *)
Definition memory_knowing (name : jsstring) : ContextMemory :=
  {| sessionId := u "s"; lastModified := 0%Z;
     data := {| commonCharacters := [name]; commonLocations := [];
                lastClassifications := []; characterDialogueMap := ∅ |} |}.

(** ** The heap in the proofs *)

(** The six objects of a [ContextMemory] graph. *)
Record Graph := {
  g_root : loc;
  g_data : loc;
  g_characters : loc;
  g_locations : loc;
  g_classifications : loc;
  g_map : loc
}.

Definition graph_locs (g : Graph) : list loc :=
  [g_root g; g_data g; g_characters g; g_locations g; g_classifications g;
   g_map g].

(** The heap holds the value [v] in the objects of [g]. *)
Definition holds (h : gmap loc object) (g : Graph) (v : ContextMemory)
  : Prop :=
  h !! g_root g = Some (OMemory (sessionId v) (lastModified v) (g_data g))
  ∧ h !! g_data g
    = Some (OData (g_characters g) (g_locations g) (g_classifications g)
              (g_map g))
  ∧ h !! g_characters g = Some (OArray (commonCharacters (data v)))
  ∧ h !! g_locations g = Some (OArray (commonLocations (data v)))
  ∧ h !! g_classifications g = Some (OArray (lastClassifications (data v)))
  ∧ h !! g_map g = Some (ODict (characterDialogueMap (data v))).

(** The three arrays of a graph are three objects. *)
Definition separate (g : Graph) : Prop :=
  g_characters g ≠ g_locations g
  ∧ g_characters g ≠ g_classifications g
  ∧ g_locations g ≠ g_classifications g.

(** The objects the store holds: those reachable from [storage]. *)
Definition owned (st : State) (x : loc) : Prop :=
  ∃ sid l, storage st !! sid = Some l ∧ In x (footprint (heap st) l).

(** Every reference of [storage] leads to a [ContextMemory] graph. *)
Definition well_formed (st : State) : bool :=
  bool_decide
    (map_Forall (fun _ l => is_Some (stringify (heap st) l)) (storage st)).

(** Two records of one batch, in the order the lines were classified. *)
Definition first_record : ClassificationRecord :=
  {| rec_line := u "يدخل علي"; rec_classification := u "action";
     rec_timestamp := 1 |}.

Definition second_record : ClassificationRecord :=
  {| rec_line := u "علي:"; rec_classification := u "character";
     rec_timestamp := 2 |}.

(** A record whose line is the name of a member of [Object.prototype]. *)
Definition third_record : ClassificationRecord :=
  {| rec_line := u "constructor"; rec_classification := u "character";
     rec_timestamp := 3 |}.

(** [h'] still has every object of [h], unchanged. *)
Definition agrees (h h' : gmap loc object) : Prop :=
  ∀ x, is_Some (h !! x) → h' !! x = h !! x.

(** Updates of a value. *)
Definition set_data (v : ContextMemory) (d : MemoryData) : ContextMemory :=
  {| sessionId := sessionId v; lastModified := lastModified v; data := d |}.

Definition touched (v : ContextMemory) (t : Z) : ContextMemory :=
  {| sessionId := sessionId v; lastModified := t; data := data v |}.

Definition with_classifications (d : MemoryData) (xs : list jsstring)
  : MemoryData :=
  {| commonCharacters := commonCharacters d;
     commonLocations := commonLocations d;
     lastClassifications := xs;
     characterDialogueMap := characterDialogueMap d |}.

(** ** Calls of [updateMemory] in time *)

(** One call [updateMemory(sessionId, classifications)]; [call_now] is the
    value of [Date.now()] when the call goes on after its first [await]. *)
Record UpdateCall := {
  call_now : Z;
  call_session : jsstring;
  call_records : list ClassificationRecord
}.

(** A call that waits at its first [await], with what [loadContext] gave
    it. *)
Record Waiting := {
  waiting_call : UpdateCall;
  waiting_loaded : option loc
}.

(** What happens at the manager, one step after the other: a caller calls
    [updateMemory], which runs up to its first [await]; or the call that has
    waited longest is resumed and runs to its end. *)
Inductive Turn : Type :=
| Called (call : UpdateCall)
| Resumed.

(** The manager and the calls that wait, the one that has waited longest
    first. *)
Definition turn {host : Host} (s : State * list Waiting) (t : Turn)
  : option (State * list Waiting) :=
  match t with
  | Called call =>
      '(st1, loaded) ← loadContext (fst s) (call_session call);
      Some (st1, snd s ++ [{| waiting_call := call;
                              waiting_loaded := loaded |}])
  | Resumed =>
      match snd s with
      | w :: rest =>
          st1 ← updateMemory_resumed (fst s) (call_now (waiting_call w))
                  (call_session (waiting_call w))
                  (call_records (waiting_call w)) (waiting_loaded w);
          Some (st1, rest)
      | [] => Some s
      end
  end.

Definition run_turns {host : Host} (s : State * list Waiting)
    (turns : list Turn) : option (State * list Waiting) :=
  for_each turn s turns.

(** Every call awaited: it is resumed before the next one is made. *)
Definition awaited (calls : list UpdateCall) : list Turn :=
  flat_map (fun call => [Called call; Resumed]) calls.

(** [await updateMemory(...)] for each call in turn. *)
Definition run_updates {host : Host} (st : State) (calls : list UpdateCall)
  : option State :=
  fst <$> run_turns (st, []) (awaited calls).






(** One batch of two records for one session. *)
Definition one_batch : list UpdateCall :=
  [{| call_now := 5; call_session := u "s";
      call_records := [first_record; second_record] |}].

(** The manager after that batch. *)
Definition after_one_batch : State :=
  default (new_manager ∅) (run_updates (new_manager ∅) one_batch).

(** The invariant of the paste loop: the blocks so far are well spaced and
    the last of them carries the class of [previousFormatClass]. *)
Definition last_class_agrees {CSS : Type} (st : PasteState CSS) : Prop :=
  ∀ before b, formattedHTML st = before ++ [b] →
              block_class b = format_class (previousFormatClass st).

Definition well_spaced {CSS : Type} (st : PasteState CSS) : Prop :=
  zero_after_character (formattedHTML st) ∧ last_class_agrees st.

(** The expression [b] cannot start unless the next unit is of the class
    [q]. *)
Definition starts_with (q : N -> bool) (b : regex) : Prop :=
  ∀ s : jsstring,
    match s with c :: _ => q c = false | [] => True end → run b s = [].

(** ** The formats of the editor ([screenplay-config.ts]) *)

(** A JavaScript object with string values: its own properties in the order
    of their insertion.  No key of this program is an array index. *)
Definition StringObject : Type := list (jsstring * jsstring).

(** [o[key]], [None] for [undefined] (own properties only) *)
Fixpoint get_property (o : StringObject) (key : jsstring) : option jsstring :=
  match o with
  | [] => None
  | (k, v) :: rest => if jseq k key then Some v else get_property rest key
  end.

(** [o[key] = value]: a known key keeps its place, a new one comes last. *)
Fixpoint set_property (o : StringObject) (key value : jsstring)
  : StringObject :=
  match o with
  | [] => [(key, value)]
  | (k, v) :: rest =>
      if jseq k key then (k, value) :: rest
      else (k, v) :: set_property rest key value
  end.

(** The object spread of [a] followed by that of [b] *)
Definition spread (a b : StringObject) : StringObject :=
  fold_left (fun o kv => set_property o (fst kv) (snd kv)) b a.

(** The [icon] component of a format is left out. *)
Record ScreenplayFormat := {
  format_id : jsstring;
  format_label : jsstring;
  format_shortcut : jsstring;
  format_color : jsstring
}.

Definition screenplayFormats : list ScreenplayFormat :=
  [
    {| format_id := u "basmala"; format_label := u "بسملة";
       format_shortcut := u "";
       format_color := u "bg-purple-200/50 dark:bg-purple-800/50" |};
    {| format_id := u "scene-header-top-line"; format_label := u "عنوان المشهد (سطر علوي)";
       format_shortcut := u "";
       format_color := u "bg-blue-200/50 dark:bg-blue-800/50" |};
    {| format_id := u "scene-header-1"; format_label := u "عنوان المشهد (1)";
       format_shortcut := u "Ctrl+1";
       format_color := u "bg-blue-200/50 dark:bg-blue-800/50" |};
    {| format_id := u "scene-header-2"; format_label := u "عنوان المشهد (2)";
       format_shortcut := u "Tab";
       format_color := u "bg-sky-200/50 dark:bg-sky-800/50" |};
    {| format_id := u "scene-header-3"; format_label := u "عنوان المشهد (3)";
       format_shortcut := u "Tab";
       format_color := u "bg-cyan-200/50 dark:bg-cyan-800/50" |};
    {| format_id := u "action"; format_label := u "الفعل/الحدث";
       format_shortcut := u "Ctrl+4";
       format_color := u "bg-gray-200/50 dark:bg-gray-700/50" |};
    {| format_id := u "character"; format_label := u "شخصية";
       format_shortcut := u "Ctrl+2";
       format_color := u "bg-green-200/50 dark:bg-green-800/50" |};
    {| format_id := u "parenthetical"; format_label := u "بين قوسين";
       format_shortcut := u "Tab";
       format_color := u "bg-yellow-200/50 dark:bg-yellow-800/50" |};
    {| format_id := u "dialogue"; format_label := u "حوار";
       format_shortcut := u "Ctrl+3";
       format_color := u "bg-orange-200/50 dark:bg-orange-800/50" |};
    {| format_id := u "transition"; format_label := u "انتقال";
       format_shortcut := u "Ctrl+6";
       format_color := u "bg-red-200/50 dark:bg-red-800/50" |} ].

(** [screenplayFormats.reduce] from the empty object *)
Definition formatClassMap : StringObject :=
  fold_left
    (fun acc format =>
       set_property acc (format_id format) (u "format-" ++ format_id format))
    screenplayFormats [].

(** ** The styles of a format ([editor-styles.ts]) *)

Definition baseStyles (selectedSize selectedFont : jsstring) : StringObject :=
  [ (u "fontFamily", selectedFont);
    (u "fontSize", selectedSize);
    (u "direction", u "rtl");
    (u "lineHeight", u "14pt");
    (u "marginBottom", u "2pt");
    (u "minHeight", u "14pt") ].

Definition formatStyles : list (jsstring * StringObject) :=
  [ (u "basmala",
     [ (u "textAlign", u "left"); (u "direction", u "ltr");
       (u "width", u "100%"); (u "fontWeight", u "normal");
       (u "fontSize", u "16pt"); (u "margin", u "12px 0 24px 0") ]);
    (u "scene-header-top-line",
     [ (u "display", u "flex"); (u "justifyContent", u "space-between");
       (u "alignItems", u "baseline"); (u "width", u "100%") ]);
    (u "scene-header-1",
     [ (u "fontWeight", u "bold"); (u "textTransform", u "uppercase") ]);
    (u "scene-header-2", [ (u "flex", u "0 0 auto") ]);
    (u "scene-header-3", [ (u "textAlign", u "center") ]);
    (u "action",
     [ (u "textAlign", u "right"); (u "width", u "100%");
       (u "margin", u "0") ]);
    (u "character",
     [ (u "textAlign", u "center"); (u "margin", u "0 auto") ]);
    (u "parenthetical",
     [ (u "textAlign", u "center"); (u "margin", u "0 auto") ]);
    (u "dialogue",
     [ (u "width", u "2.5in"); (u "textAlign", u "center");
       (u "margin", u "0 auto") ]);
    (u "transition",
     [ (u "textAlign", u "center"); (u "margin", u "0 auto") ]) ].

(** [formatStyles[formatType]]; the spread of [undefined] adds nothing.  A
    [formatType] that names a member of [Object.prototype] also adds
    nothing, those members having no own enumerable property. *)
Fixpoint styles_of (table : list (jsstring * StringObject))
    (formatType : jsstring) : StringObject :=
  match table with
  | [] => []
  | (k, styles) :: rest =>
      if jseq k formatType then styles else styles_of rest formatType
  end.

(** [None] for an argument left out, which takes the default. *)
Definition getFormatStyles (formatType : jsstring)
    (selectedSize selectedFont : option jsstring) : StringObject :=
  let selectedSize := default (u "12pt") selectedSize in
  let selectedFont := default (u "AzarMehrMonospaced-San") selectedFont in
  spread (baseStyles selectedSize selectedFont)
    (styles_of formatStyles formatType).

(** ** The style attribute of a block ([paste-classifier.ts]) *)

(** [key.replace(/[A-Z]/g, (match) => "-" + match.toLowerCase())] *)
Definition cssKey (key : jsstring) : jsstring :=
  flat_map (fun c => if between 65 90 c then [45; c + 32]%N else [c]) key.

(** The values of the style objects of this program are strings, which
    [String(value)] leaves as they are. *)
Definition cssObjectToString (styles : StringObject) : jsstring :=
  join (u "; ")
    (map (fun entry => cssKey (fst entry) ++ u ": " ++ snd entry) styles).

(** [finalStyles] of [buildLineDivHTML], and [topLevelStylesWithSpacing] of
    [handlePaste] *)
Definition finalStyles (styles : StringObject) (marginTop : option jsstring)
  : StringObject :=
  match applied_margin marginTop with
  | Some m => set_property styles (u "marginTop") m
  | None => styles
  end.

(** The [style] attribute [buildLineDivHTML] sets. *)
Definition styleAttribute (styles : StringObject)
    (marginTop : option jsstring) : jsstring :=
  cssObjectToString (finalStyles styles marginTop).

(** ** The editor area ([EditorArea]) *)

(** The [getFormatStylesFn] that [EditorArea] passes to [handlePaste]: it
    ignores the size and the font of the call and uses those of the editor. *)
Definition editorFormatStyles (size font : jsstring)
    (formatType _size _font : jsstring) : StringObject :=
  getFormatStyles formatType (Some size) (Some font).

Definition mainSequence : list jsstring :=
  [u "scene-header-1"; u "action"; u "character"; u "transition"].

(** [xs.indexOf(x)] *)
Definition indexOf (xs : list jsstring) (x : jsstring) : Z :=
  match first_index (jseq x) xs with
  | Some k => Z.of_nat k
  | None => (-1)%Z
  end.

(** [xs[i]] for an index that is in range, as those of [getNextFormatOnTab]
    are; the empty string stands for [undefined]. *)
Definition item (xs : list jsstring) (i : Z) : jsstring :=
  nth (Z.to_nat i) xs [].

Definition getNextFormatOnTab (currentFormat : jsstring)
    (isEmpty shiftPressed : bool) : jsstring :=
  if jseq currentFormat (u "character") && isEmpty then
    if shiftPressed then u "action" else u "transition"
  else if jseq currentFormat (u "dialogue") then
    if shiftPressed then u "character" else u "parenthetical"
  else if jseq currentFormat (u "parenthetical") then
    if shiftPressed then u "dialogue" else u "dialogue"
  else
    let currentIndex := indexOf mainSequence currentFormat in
    let n := Z.of_nat (length mainSequence) in
    if negb (currentIndex =? -1)%Z then
      if shiftPressed then item mainSequence (Z.rem (currentIndex - 1 + n) n)
      else item mainSequence (Z.rem (currentIndex + 1) n)
    else currentFormat.

Definition transitions : StringObject :=
  [ (u "basmala", u "scene-header-1");
    (u "scene-header-top-line", u "action");
    (u "scene-header-1", u "action");
    (u "scene-header-2", u "action");
    (u "scene-header-3", u "action");
    (u "action", u "action");
    (u "character", u "dialogue");
    (u "parenthetical", u "dialogue");
    (u "dialogue", u "character");
    (u "transition", u "scene-header-1") ].

(** [transitions[currentFormat] || "action"], for a [currentFormat] that
    names no member of [Object.prototype] *)
Definition getNextFormatOnEnter (currentFormat : jsstring) : jsstring :=
  match get_property transitions currentFormat with
  | Some next => if truthy next then next else u "action"
  | None => u "action"
  end.

(** The [id]s of the formats. *)
Definition formatIds : list jsstring := map format_id screenplayFormats.
(** The class and the margin of every [div] of a block, the parts of a top
    line group after the group. *)
Definition block_divs {CSS : Type} (b : Block CSS)
  : list (jsstring * option jsstring) :=
  match b with
  | Line d => [(lineClass d, lineMarginTop d)]
  | TopLine c _ m part1 part2 =>
      [(c, m); (lineClass part1, lineMarginTop part1);
       (lineClass part2, lineMarginTop part2)]
  end.

(** A class of [formatClassMap] with no margin of its own, or one of the two
    margins of the spacing rules. *)
Definition known_div (d : jsstring * option jsstring) : Prop :=
  (∃ id, get_property formatClassMap id = Some (fst d))
  ∧ (snd d = None ∨ snd d = Some (u "0") ∨ snd d = Some (u "14pt")).

(** The labels that need a label before them. *)
Definition opens_nothing (label : jsstring) : bool :=
  jseq label (u "dialogue") || jseq label (u "parenthetical")
  || jseq label (u "scene-header-3").

(** How many of the lines of the indices are not blank. *)
Definition written (lines : list jsstring) (indices : list nat) : nat :=
  length (List.filter (fun i => truthy (trim (line_at lines i))) indices).
(** The labels of a dialogue block. *)
Definition in_dialogue (t : jsstring) : bool :=
  jseq t (u "character") || jseq t (u "dialogue")
  || jseq t (u "parenthetical").

(** A session memory with the same names as [memory_knowing] and everything
    else different. *)
Definition memory_counting (name : jsstring) : ContextMemory :=
  {| sessionId := u "t"; lastModified := 9%Z;
     data := {| commonCharacters := [name]; commonLocations := [u "بيت"];
                lastClassifications := [];
                characterDialogueMap := {[ name := Num 7 ]} |} |}.

(** ** The session memory in the proofs *)

(** The record counts for the name: it is a character record whose line,
    without the separators and trimmed, is the name. *)
Definition names_character (name : jsstring) (record : ClassificationRecord)
  : bool :=
  jseq (rec_classification record) (u "character")
  && truthy (record_name record)
  && jseq (record_name record) name.

(** The number of records that count for the name. *)
Definition times_named (name : jsstring)
    (records : list ClassificationRecord) : nat :=
  length (List.filter (names_character name) records).

(** The property of [characterDialogueMap] of its own for the name, in what
    is stored; [None] when there is none. *)
Definition count_of (v : option ContextMemory) (name : jsstring)
  : option Count :=
  v ≫= fun v => characterDialogueMap (data v) !! name.

(** [k] times the digit 1 *)
Definition ones (k : nat) : jsstring := repeat 49%N k.

(** What [k] records leave for a name that had no property: nothing when
    [k] is 0 or the name is [__proto__]; the number [k] for a name of no
    member of [Object.prototype]; for the name of a member, the string of
    that member followed by [k] digits 1. *)
Definition counted {host : Host} (name : jsstring) (k : nat)
  : option Count :=
  match k with
  | 0 => None
  | S _ =>
      if jseq name (u "__proto__") then None
      else
        match inheritedText name with
        | None => Some (Num k)
        | Some text => Some (Text (text ++ ones k))
        end
  end.

(** What [k] records make of the property [old] of a name: a number grows
    by [k], a string gets [k] digits 1 (the empty string counts as 0). *)
Definition added {host : Host} (name : jsstring) (k : nat)
    (old : option Count) : option Count :=
  match k, old with
  | 0, _ => old
  | _, None => counted name k
  | _, Some (Num n) => Some (Num (n + k))
  | _, Some (Text s) =>
      if truthy s then Some (Text (s ++ ones k)) else Some (Num k)
  end.

(** One [obj[name] = (obj[name] || 0) + 1], seen from the property of the
    name. *)
Definition bumped {host : Host} (name : jsstring) (old : option Count)
  : option Count :=
  match old with
  | Some c => Some (plus_one (Own c))
  | None =>
      if jseq name (u "__proto__") then None
      else Some (plus_one (get_member ∅ name))
  end.

(** What every record of the store satisfies. *)
Definition kept_well {host : Host} (sid : jsstring) (v : ContextMemory)
  : Prop :=
  sessionId v = sid
  ∧ NoDup (commonCharacters (data v))
  ∧ commonLocations (data v) = []
  ∧ length (lastClassifications (data v)) ≤ 20
  ∧ (∀ name, is_Some (characterDialogueMap (data v) !! name)
             ↔ In name (commonCharacters (data v))
               ∧ name ≠ u "__proto__")
  ∧ (∀ name c, characterDialogueMap (data v) !! name = Some c →
               ∃ k, 1 ≤ k ∧ counted name k = Some c)
  ∧ (∀ name, In name (commonCharacters (data v)) → name ≠ []).

(** ** Waiting calls in the proofs *)

(** The record a waiting call holds: a graph of objects, none of them the
    store's, that holds the value [v]. *)
Definition own_record (st : State) (l : loc) (v : ContextMemory) : Prop :=
  ∃ g, g_root g = l ∧ holds (heap st) g v ∧ separate g
       ∧ ∀ x, In x (graph_locs g) → ¬ owned st x.

(** The objects of the record of a waiting call. *)
Definition cells (h : gmap loc object) (w : Waiting) : list loc :=
  match waiting_loaded w with
  | Some l => footprint h l
  | None => []
  end.

(** No two waiting calls share an object. *)
Fixpoint apart (h : gmap loc object) (ws : list Waiting) : Prop :=
  match ws with
  | [] => True
  | w :: rest =>
      (∀ x, In x (cells h w) → Forall (fun w' => ¬ In x (cells h w')) rest)
      ∧ apart h rest
  end.

(** The invariant of a run: the store is well formed, every record stored
    or held by a waiting call satisfies [Q], and the waiting calls hold
    records of their own. *)
Definition settled (Q : jsstring -> ContextMemory -> Prop)
    (s : State * list Waiting) : Prop :=
  well_formed (fst s) = true
  ∧ (∀ sid v, stored (fst s) sid = Some v → Q sid v)
  ∧ Forall (fun w => ∀ l, waiting_loaded w = Some l →
                          ∃ v, own_record (fst s) l v
                               ∧ Q (call_session (waiting_call w)) v)
      (snd s)
  ∧ apart (heap (fst s)) (snd s).


(** A heap with one record, and the reference to it. *)
Definition a_record : gmap loc object * loc :=
  parse ∅ (memory_knowing (u "علي")).

(** ** Matches in the proofs *)

(** The expression [r] has a match on [s] that leaves [rest]. *)
Definition accepts (r : regex) (s rest : jsstring) : Prop :=
  ∃ captures, In (rest, captures) (run r s).

(** No capturing group inside. *)
Fixpoint plain (r : regex) : bool :=
  match r with
  | Cat a b | Alt a b => plain a && plain b
  | Opt a => plain a
  | Grp _ => false
  | _ => true
  end.

(** What follows the scene number cue in [SPLIT_SCENE_HEADER_RE]. *)
Definition header_description : regex :=
  cat [star is_ws; Opt (Chr (one_of (u "-–—:،"))); star is_ws;
       Grp (star is_dot)].

(** [[A-Z]] *)
Definition upper (c : N) : bool := between 65 90 c.

(** A context with other values in the fields that the classifier does not
    read. *)
Definition with_unread_fields_changed (ctx : LineContext) : LineContext :=
  {| previousLines := u "يدخل علي" :: previousLines ctx;
     currentLine := u "علي:" ++ currentLine ctx;
     nextLines := nextLines ctx;
     previousTypes := previousTypes ctx;
     stats :=
       {| wordCount := wordCount (stats ctx);
          charCount := S (charCount (stats ctx));
          hasColon := hasColon (stats ctx);
          hasPunctuation := hasPunctuation (stats ctx);
          startsWithBullet := negb (startsWithBullet (stats ctx));
          isShort := isShort (stats ctx);
          isLong := isLong (stats ctx) |};
     pattern :=
       {| isInDialogueBlock := isInDialogueBlock (pattern ctx);
          isInSceneHeader := isInSceneHeader (pattern ctx);
          lastSceneDistance := (lastSceneDistance (pattern ctx) + 1)%Z;
          lastCharacterDistance := lastCharacterDistance (pattern ctx) |} |}.
(** The pieces of a string between the units of the class [A], each unit
    of the class cutting. *)
Fixpoint pieces (A : N -> bool) (s : jsstring) : list jsstring :=
  match s with
  | [] => [[]]
  | x :: t =>
      if A x then [] :: pieces A t
      else match pieces A t with
           | f :: fs => (x :: f) :: fs
           | [] => [[x]]
           end
  end.

(** The units that [isSceneHeader2] turns into spaces or drops. *)
Definition is_gap (c : N) : bool := is_ws c || one_of (u "-–—") c.

(** A literal above the ASCII letters with no white space and no dash. *)
Definition clear_of_gaps (t : jsstring) : bool :=
  truthy t && forallb (fun a => (122 <? a)%N && negb (is_gap a)) t.
(** [text] is a contiguous part of [line]. *)
Definition part_of (text line : jsstring) : Prop :=
  ∃ before after, line = before ++ text ++ after.

(** The texts written into the [div]s of a block. *)
Definition block_texts {CSS : Type} (b : Block CSS) : list jsstring :=
  match b with
  | Line d => [lineText d]
  | TopLine _ _ _ part1 part2 => [lineText part1; lineText part2]
  end.

(** The words of the pattern of [isTransition]. *)
Definition transitionWords : list jsstring :=
  split_on bar (u "قطع|اختفاء|تحول|انتقال|fade|cut|dissolve|wipe").

(** The records of all the calls for a session, in the order of the calls. *)
Definition session_records (calls : list UpdateCall) (sid : jsstring)
  : list ClassificationRecord :=
  concat (map call_records
            (List.filter (fun call => jseq (call_session call) sid) calls)).

(* ================================================================== *)
(** * Part II. Properties                                              *)
(* ================================================================== *)

(** Literals are decoded by the virtual machine only: proofs compare them
    with [vm_compute]. *)
Opaque u.

(** ** Labels and string equality *)

Lemma jseq_true (a b : jsstring) : jseq a b = true ↔ a = b.
Proof.
  revert b. induction a as [|x a IH]; intros [|y b]; simpl; try done.
  rewrite andb_true_iff, N.eqb_eq, IH. split.
  - by intros [-> ->].
  - by intros [= -> ->].
Qed.

Lemma jseq_false (a b : jsstring) : jseq a b = false ↔ a ≠ b.
Proof.
  rewrite <- jseq_true. by destruct (jseq a b).
Qed.

Lemma jseq_refl (a : jsstring) : jseq a a = true.
Proof. by apply jseq_true. Qed.

(** Decide [x = u label] and rewrite every test against that label. *)
Ltac case_label x l :=
  let E := fresh "E" in
  destruct (jseq x (u l)) eqn:E;
  [ apply jseq_true in E; subst x | idtac ].

Ltac case_labels x :=
  case_label x "basmala"%string;
  [ | case_label x "character"%string;
  [ | case_label x "parenthetical"%string;
  [ | case_label x "dialogue"%string;
  [ | case_label x "action"%string;
  [ | case_label x "transition"%string;
  [ | case_label x "scene-header-1"%string;
  [ | case_label x "scene-header-2"%string;
  [ | case_label x "scene-header-3"%string;
  [ | case_label x "scene-header-top-line"%string ]]]]]]]]].

(** ** Spacing rules *)

Section Spacing.

(** C6. For every pair of labels, [getSpacingMarginTop] returns what the
    spacing table of the specification prescribes: the gap of every row that
    lists the pair (no gap after basmala, after character before dialogue or
    parenthetical, after parenthetical before dialogue; the paragraph gap for
    the six other rows), and no explicit gap for a pair that no row lists. *)
Theorem getSpacingMarginTop_follows_table (previous current : jsstring) :
  (∀ row, In row spacing_table → row_lists row previous current = true →
          getSpacingMarginTop previous current = gap_value (row_gap row))
  ∧ ((∀ row, In row spacing_table → row_lists row previous current = false) →
     getSpacingMarginTop previous current = gap_value NoExplicitGap).
Proof.
  split.
  - intros row Hin Hrow.
    unfold spacing_table in Hin. 
    unfold row_lists in Hrow.
    repeat (destruct Hin as [<- | Hin]; [ cbn [row_previous row_current row_gap existsb] in Hrow | ]);
      try (destruct Hin);
      apply andb_true_iff in Hrow as [Hp Hc]; apply jseq_true in Hp;
      subst previous;
      repeat (apply orb_true_iff in Hc as [Hc | Hc];
              [ apply jseq_true in Hc; subst current; vm_compute; reflexivity
              | ]);
      try discriminate Hc.
    unfold getSpacingMarginTop. rewrite jseq_refl. reflexivity.
  - intros Hnone.
    assert (Hrows : forallb (fun row => negb (row_lists row previous current))
                      spacing_table = true).
    { apply forallb_forall. intros row Hin. by rewrite Hnone. }
    clear Hnone.
    unfold getSpacingMarginTop, spacing_table, row_lists in *.
    cbn [forallb row_previous row_current row_gap existsb gap_value] in *.
    repeat match goal with
           | |- context [jseq ?x (u ?l)] =>
               destruct (jseq x (u l)); cbn [andb orb negb] in Hrows |- *;
               try discriminate Hrows; try reflexivity
           end.
Qed.

End Spacing.

(** ** The paste handler: spacing after a character block *)

Section PasteSpacing.

Context {host : Host}.
Variable toLowerCase : jsstring -> jsstring.
Variable CSS : Type.
Variable getFormatStylesFn : jsstring -> jsstring -> jsstring -> CSS.

Let process := processLine toLowerCase CSS getFormatStylesFn.

Lemma snoc_two {A : Type} (l : list A) (a b : A) :
  l ++ [a; b] = (l ++ [a]) ++ [b].
Proof. by rewrite <- app_assoc. Qed.

Lemma format_class_inj (a b : jsstring) :
  format_class a = format_class b → a = b.
Proof. unfold format_class. apply app_inv_head. Qed.

(** The classes of a character block and of a top line group are not the
    class of a dialogue or of a parenthetical block. *)
Lemma not_following (class : jsstring) :
  negb (jseq class (format_class (u "dialogue")))
  && negb (jseq class (format_class (u "parenthetical"))) = true →
  ¬ (class = format_class (u "dialogue")
     ∨ class = format_class (u "parenthetical")).
Proof.
  intros H [E | E]; apply jseq_true in E; rewrite E in H.
  - discriminate H.
  - rewrite andb_false_r in H. discriminate H.
Qed.

Lemma zero_after_character_snoc (blocks : list (Block CSS)) (b : Block CSS) :
  zero_after_character blocks →
  (∀ before b1, blocks = before ++ [b1] →
     block_class b1 = format_class (u "character") →
     block_class b = format_class (u "dialogue")
     ∨ block_class b = format_class (u "parenthetical") →
     block_margin b = Some (u "0")) →
  zero_after_character (blocks ++ [b]).
Proof.
  intros Hok Hlast before b1 b2 after Heq Hc1 Hc2.
  destruct after as [|x after] using rev_ind.
  - replace (before ++ [b1; b2]) with ((before ++ [b1]) ++ [b2]) in Heq
      by (rewrite <- app_assoc; reflexivity).
    apply app_inj_tail in Heq as [Hb ->].
    by eapply Hlast.
  - clear IHafter.
    replace (before ++ b1 :: b2 :: after ++ [x])
      with ((before ++ b1 :: b2 :: after) ++ [x]) in Heq
      by (rewrite <- app_assoc; reflexivity).
    apply app_inj_tail in Heq as [Hb _].
    by eapply Hok.
Qed.

Lemma well_spaced_initial : well_spaced (initialState CSS).
Proof.
  split.
  - intros before b1 b2 after Heq. by destruct before.
  - intros before b Heq. by destruct before.
Qed.

Lemma spacing_character_zero (current : jsstring) :
  current = u "dialogue" ∨ current = u "parenthetical" →
  applied_margin (Some (getSpacingMarginTop (u "character") current))
  = Some (u "0").
Proof. intros [-> | ->]; vm_compute; reflexivity. Qed.

Lemma processLine_well_spaced lines mm sid i (st st' : PasteState CSS) :
  well_spaced st →
  process lines mm sid i st = Returned st' →
  well_spaced st'.
Proof.
  intros [Hok Hlast]. unfold process, processLine.
  destruct (negb (truthy (trim (line_at lines i)))).
  { intros [= <-]. split; assumption. }
  destruct (parseInlineCharacterDialogue _) as [parts|].
  - intros [= <-]. split; cbn [formattedHTML previousFormatClass].
    + rewrite snoc_two. apply zero_after_character_snoc.
      * apply zero_after_character_snoc; [ exact Hok | ].
        intros before b1 _ _ Hc. exfalso. revert Hc.
        apply (not_following (u "format-character")). reflexivity.
      * intros before b1 _ _ _. reflexivity.
    + intros before b Heq. cbn [formattedHTML previousFormatClass] in *.
      rewrite snoc_two in Heq. apply app_inj_tail in Heq as [_ <-].
      cbn [block_class lineClass buildLineDivHTML].
      vm_compute. reflexivity.
  - destruct (classifyWithContextAndMemory _ _ _ _ _) as [c|e];
      cbn [and_then]; [ | discriminate ].
    destruct (if jseq c (u "scene-header-top-line") then _ else None)
      as [parts|].
    + intros [= <-]. split; cbn [formattedHTML previousFormatClass].
      * apply zero_after_character_snoc; [ exact Hok | ].
        intros before b1 _ _ Hc. exfalso. revert Hc.
        apply (not_following (u "format-scene-header-top-line")).
        reflexivity.
      * intros before b Heq. cbn [formattedHTML previousFormatClass] in *.
        apply app_inj_tail in Heq as [_ <-]. cbn [block_class].
        vm_compute. reflexivity.
    + intros [= <-]. split; cbn [formattedHTML previousFormatClass].
      * apply zero_after_character_snoc; [ exact Hok | ].
        intros before b1 Heq Hc1 Hc2.
        cbn [block_class block_margin lineClass lineMarginTop
               buildLineDivHTML] in *.
        rewrite (Hlast _ _ Heq) in Hc1. apply format_class_inj in Hc1.
        rewrite Hc1. apply spacing_character_zero.
        destruct Hc2 as [Hc2 | Hc2]; apply format_class_inj in Hc2; auto.
      * intros before b Heq. cbn [formattedHTML previousFormatClass] in *.
        apply app_inj_tail in Heq as [_ <-]. reflexivity.
Qed.

Lemma processLine_returns lines mm sid i (st : PasteState CSS) :
  ∃ st', process lines mm sid i st = Returned st'.
Proof.
  unfold process, processLine.
  destruct (negb _); [ by eexists | ].
  destruct (parseInlineCharacterDialogue _); [ by eexists | ].
  unfold classifyWithContextAndMemory.
  destruct mm as [manager|]; [ destruct (manager sid) | ]; cbn [and_then];
    destruct (if jseq _ _ then _ else None); by eexists.
Qed.

Lemma run_loop_well_spaced lines mm sid indices (st : PasteState CSS) :
  well_spaced st →
  ∃ st', run_loop CSS (process lines mm sid) indices st = Returned st'
         ∧ well_spaced st'.
Proof.
  revert st. induction indices as [|i rest IH]; intros st Hst;
    cbn [run_loop].
  - by exists st.
  - destruct (processLine_returns lines mm sid i st) as [st1 H1].
    rewrite H1. cbn [and_then]. apply IH.
    by eapply processLine_well_spaced.
Qed.

(** C1. [handlePaste] always returns, and in the sequence of blocks it
    produces, a dialogue or parenthetical block that immediately follows a
    character block has the margin zero, on the generic path and on the
    inline split path alike. *)
Theorem handlePaste_zero_margin_after_character
    (textData : jsstring) (hasSelection : bool)
    (memoryManager : option (jsstring -> LoadOutcome)) (sessionId : jsstring) :
  ∃ st,
    handlePaste toLowerCase CSS getFormatStylesFn textData hasSelection
      memoryManager sessionId = Returned st
    ∧ zero_after_character (formattedHTML st)
    ∧ (∀ current,
         current = u "dialogue" ∨ current = u "parenthetical" →
         getSpacingMarginTop (u "character") current = u "0").
Proof.
  assert (Hgeneric : ∀ current,
             current = u "dialogue" ∨ current = u "parenthetical" →
             getSpacingMarginTop (u "character") current = u "0")
    by (intros current [-> | ->]; vm_compute; reflexivity).
  unfold handlePaste.
  destruct (negb (truthy textData));
    [ exists (initialState CSS); split; [done | split; [ | done ]];
      apply well_spaced_initial | ].
  destruct (negb hasSelection);
    [ exists (initialState CSS); split; [done | split; [ | done ]];
      apply well_spaced_initial | ].
  destruct (run_loop_well_spaced (paste_lines textData) memoryManager
              sessionId (seq 0 (length (paste_lines textData)))
              (initialState CSS) well_spaced_initial) as (st & Hrun & Hok & _).
  exists st. split; [ exact Hrun | split; [ exact Hok | exact Hgeneric ] ].
Qed.

End PasteSpacing.

(** ** Classification when the memory is not available *)

Section MemoryUnavailable.

Context {host : Host}.
Variable toLowerCase : jsstring -> jsstring.

(** C9. When the memory manager is absent, or [loadContext] answers [null],
    or [loadContext] throws, [classifyWithContextAndMemory] returns the label
    of [classifyWithContext] unchanged and throws nothing. *)
Theorem classifyWithContextAndMemory_without_memory
    (line : jsstring) (ctx : LineContext)
    (memoryManager : option (jsstring -> LoadOutcome)) (sessionId : jsstring) :
  (memoryManager = None
   ∨ ∃ manager, memoryManager = Some manager
                ∧ (manager sessionId = NotFound
                   ∨ ∃ error, manager sessionId = Rejected error)) →
  classifyWithContextAndMemory toLowerCase line ctx memoryManager sessionId
  = Returned (classifyWithContext line ctx).
Proof.
  unfold classifyWithContextAndMemory.
  intros [Hnone | (manager & Hsome & [Hnull | [error Hthrow]])].
  - rewrite Hnone. reflexivity.
  - rewrite Hsome, Hnull. reflexivity.
  - rewrite Hsome, Hthrow. reflexivity.
Qed.

End MemoryUnavailable.

(** C9 at the line of a cue whose store throws on every read. *)
Lemma classifyWithContextAndMemory_without_memory_witness :
  let manager : jsstring -> LoadOutcome := fun _ => Rejected (u "offline") in
  let ctx := buildContext [u "علي:"] 0 [] in
  (Some manager = None
   ∨ ∃ m, Some manager = Some m
          ∧ (m (u "s") = NotFound ∨ ∃ error, m (u "s") = Rejected error))
  ∧ classifyWithContextAndMemory lower_ascii (u "علي:") ctx (Some manager)
      (u "s")
    = Returned (classifyWithContext (u "علي:") ctx).
Proof.
  intros manager ctx.
  assert (H : Some manager = None
              ∨ ∃ m, Some manager = Some m
                     ∧ (m (u "s") = NotFound
                        ∨ ∃ error, m (u "s") = Rejected error)).
  { right. exists manager. split; [ reflexivity | ].
    right. exists (u "offline"). reflexivity. }
  split; [ exact H | ].
  exact (classifyWithContextAndMemory_without_memory lower_ascii (u "علي:")
           ctx (Some manager) (u "s") H).
Defined.

(** ** Rule 8: the third scene header line *)

Section SceneHeader3.

(** Two labels that differ are told apart by computation. *)
Ltac clash H := apply jseq_true in H; vm_compute in H; discriminate H.

(** C5 as stated fails: after a scene number line, a bare name that is no
    known place and has no dash is labelled scene-header-3, and so is a known
    place followed by a full stop. *)
Lemma classifyWithContext_scene_header_3_counterexample :
  (classifyWithContext (u "علي") (after_scene_number (u "علي"))
   = u "scene-header-3"
   ∧ spec_rule8 (u "علي") (after_scene_number (u "علي")) = false)
  ∧ (classifyWithContext (u "بيت علي.") (after_scene_number (u "بيت علي."))
     = u "scene-header-3"
     ∧ spec_rule8 (u "بيت علي.") (after_scene_number (u "بيت علي.")) = false).
Proof. repeat split; vm_compute; reflexivity. Qed.

Lemma isInSceneHeader_buildContext lines i types :
  isInSceneHeader (pattern (buildContext lines i types))
  = includes_label sceneHeaderFamily (last_of types).
Proof.
  unfold buildContext. cbv zeta. cbn [pattern isInSceneHeader].
  destruct (last_of types) as [t|]; [ | reflexivity ].
  unfold is_label, includes_label, sceneHeaderFamily, has.
  cbn [existsb]. rewrite orb_false_r, orb_assoc. reflexivity.
Qed.

(** C5, amended. [classifyWithContext] returns scene-header-3 only when the
    label just before is of the scene header family and the line is no action
    opener, and then either the line is short (at most twelve words), without
    sentence punctuation and no action opener once its final colon is
    stripped, or it starts with a known place, or it has the place and dash
    shape. *)
Theorem classifyWithContext_scene_header_3
    (line : jsstring) (lines : list jsstring) (i : nat)
    (types : list jsstring) :
  let ctx := buildContext lines i types in
  let normalizedWithoutColon := withoutColon (normalizeLine line) in
  classifyWithContext line ctx = u "scene-header-3" →
  includes_label sceneHeaderFamily (last_of types) = true
  ∧ isLikelyAction line = false
  ∧ ((length (words normalizedWithoutColon) <=? 12)%nat
       && negb (hasSentencePunctuation line)
       && negb (isActionVerbStart normalizedWithoutColon)
       && negb (matchesActionStartPattern normalizedWithoutColon) = true
     ∨ test_start KNOWN_PLACES normalizedWithoutColon = true
     ∨ test_start PLACE_DASH_RE normalizedWithoutColon = true).
Proof.
  intros ctx nwc. unfold classifyWithContext. cbv zeta.
  repeat match goal with
         | |- (if ?c then u "scene-header-3" else _) = _ → _ => fail 1
         | |- (if ?c then _ else _) = _ → _ =>
             destruct c eqn:?; [ intros H; clash H | ]
         end.
  destruct (isInSceneHeader (pattern ctx) && isSceneHeader3 line ctx)
    eqn:Hrule.
  - intros _. apply andb_true_iff in Hrule as [Hfamily Hshape].
    unfold ctx in Hfamily. rewrite isInSceneHeader_buildContext in Hfamily.
    split; [ exact Hfamily | ]. split; [ reflexivity | ].
    unfold isSceneHeader3 in Hshape. cbv zeta in Hshape.
    fold nwc in Hshape.
    replace (previousTypes ctx) with types in Hshape by reflexivity.
    rewrite Hfamily in Hshape. cbn [andb] in Hshape.
    destruct ((length (words nwc) <=? 12)%nat
              && negb (hasSentencePunctuation line)
              && negb (isActionVerbStart nwc)
              && negb (matchesActionStartPattern nwc));
      [ left; reflexivity | ].
    destruct (test_start KNOWN_PLACES nwc); [ right; left; reflexivity | ].
    destruct (test_start PLACE_DASH_RE nwc); [ right; right; reflexivity | ].
    discriminate Hshape.
  - repeat match goal with
           | |- (if ?c then _ else _) = _ → _ =>
               destruct c eqn:?; [ intros H; clash H | ]
           | |- _ = _ → _ => intros H; clash H
           end.
Qed.

(** The amended C5 at the bare name after a scene number line. *)
Lemma classifyWithContext_scene_header_3_witness :
  classifyWithContext (u "علي") (after_scene_number (u "علي"))
  = u "scene-header-3"
  ∧ includes_label sceneHeaderFamily (last_of [u "scene-header-1"]) = true
  ∧ isLikelyAction (u "علي") = false.
Proof.
  assert (H : classifyWithContext (u "علي") (after_scene_number (u "علي"))
              = u "scene-header-3") by (vm_compute; reflexivity).
  split; [ exact H | ].
  destruct (classifyWithContext_scene_header_3 (u "علي")
              [u "مشهد 1"; u "علي"] 1 [u "scene-header-1"] H)
    as (Hfamily & Haction & _).
  split; [ exact Hfamily | exact Haction ].
Defined.

End SceneHeader3.

(** ** A complete scene header that does not split *)

Section UnsplitSceneHeader.

Context {host : Host}.
Variable toLowerCase : jsstring -> jsstring.
Variable CSS : Type.
Variable getFormatStylesFn : jsstring -> jsstring -> jsstring -> CSS.

(** C8, amended. When a line is classified as a complete scene header and
    [splitSceneHeader] finds no parts in it, the loop throws nothing and
    falls through to the generic path: it appends one block, of the class of
    scene-header-top-line, holding the stripped line, spaced after the
    previous label, and records scene-header-top-line in the history. *)
Theorem processLine_unsplit_scene_header
    (lines : list jsstring) (memoryManager : option (jsstring -> LoadOutcome))
    (sessionId : jsstring) (i : nat) (st : PasteState CSS) :
  let trimmedLine := trim (line_at lines i) in
  let strippedLine := stripLeadingBullets trimmedLine in
  let ctx := buildContext lines i (classifiedTypes st) in
  truthy trimmedLine = true →
  parseInlineCharacterDialogue strippedLine = None →
  classifyWithContextAndMemory toLowerCase strippedLine ctx memoryManager
    sessionId = Returned (u "scene-header-top-line") →
  splitSceneHeader strippedLine = None →
  processLine toLowerCase CSS getFormatStylesFn lines memoryManager sessionId
    i st
  = Returned
      {| formattedHTML :=
           formattedHTML st
           ++ [Line {| lineClass := format_class (u "scene-header-top-line");
                       lineStyles :=
                         getFormatStylesFn (u "scene-header-top-line") [] [];
                       lineMarginTop :=
                         applied_margin
                           (Some (getSpacingMarginTop (previousFormatClass st)
                                    (u "scene-header-top-line")));
                       lineText := strippedLine |}];
         previousFormatClass := u "scene-header-top-line";
         classifiedTypes :=
           classifiedTypes st ++ [u "scene-header-top-line"] |}.
Proof.
  intros trimmedLine strippedLine ctx Hline Hinline Hclass Hsplit.
  unfold processLine. cbv zeta.
  fold trimmedLine. fold strippedLine. fold ctx.
  rewrite Hline, Hinline, Hclass. cbn [negb and_then].
  rewrite jseq_refl, Hsplit. reflexivity.
Qed.

End UnsplitSceneHeader.

(** C8 as stated fails: the doubly bulleted header is classified as a
    complete scene header, does not split, and comes out as one block of the
    class of scene-header-top-line, not of scene-header-1. *)
Lemma handlePaste_unsplit_scene_header_counterexample :
  let strippedLine := stripLeadingBullets (trim doubly_bulleted_header) in
  classifyWithContextAndMemory lower_ascii strippedLine
    (buildContext [doubly_bulleted_header] 0 []) None (u "s")
  = Returned (u "scene-header-top-line")
  ∧ splitSceneHeader strippedLine = None
  ∧ pasted_classes
      (handlePaste lower_ascii jsstring styles_by_name doubly_bulleted_header
         true None (u "s"))
    = Some [u "format-scene-header-top-line"]
  ∧ jseq (u "format-scene-header-top-line") (u "format-scene-header-1")
    = false.
Proof. repeat split; vm_compute; reflexivity. Qed.

(** The amended C8 at the doubly bulleted header, first in its batch. *)
Lemma processLine_unsplit_scene_header_witness :
  let lines := [doubly_bulleted_header] in
  let strippedLine := stripLeadingBullets (trim doubly_bulleted_header) in
  let st := initialState jsstring in
  splitSceneHeader strippedLine = None
  ∧ pasted_lines
      (processLine lower_ascii jsstring styles_by_name lines None (u "s") 0 st)
    = Some [(u "format-scene-header-top-line", strippedLine, None)].
Proof.
  intros lines strippedLine st.
  assert (Hsplit : splitSceneHeader strippedLine = None)
    by (vm_compute; reflexivity).
  split; [ exact Hsplit | ].
  rewrite (processLine_unsplit_scene_header lower_ascii jsstring
             styles_by_name lines None (u "s") 0 st).
  - vm_compute. reflexivity.
  - vm_compute. reflexivity.
  - vm_compute. reflexivity.
  - vm_compute. reflexivity.
  - exact Hsplit.
Defined.

(** ** Facts about strings *)

Section StringFacts.

Implicit Types (p q : N -> bool) (s t : jsstring).

Lemma skip_is_drop p s : skip p s = drop (span p s) s.
Proof.
  induction s as [|c s IH]; [ reflexivity | ].
  cbn [skip span]. destruct (p c); [ exact IH | reflexivity ].
Qed.

Lemma span_prefix p s : forallb p (take (span p s) s) = true.
Proof.
  induction s as [|c s IH]; [ reflexivity | ].
  cbn [span]. destruct (p c) eqn:E; [ | reflexivity ].
  cbn [take forallb]. rewrite E. exact IH.
Qed.

Lemma span_le_length p s : span p s ≤ length s.
Proof.
  induction s as [|c s IH]; cbn [span length]; [ lia | ].
  destruct (p c); lia.
Qed.

(** The unit just after the run of a class is not of the class. *)
Lemma skip_head p s c t : skip p s = c :: t → p c = false.
Proof.
  induction s as [|d s IH]; cbn [skip]; [ discriminate | ].
  destruct (p d) eqn:E; [ exact IH | ].
  intros [= -> ->]. exact E.
Qed.

(** Inside the run of a class, the next unit is of the class. *)
Lemma drop_in_span p s k :
  k < span p s → ∃ c t, drop k s = c :: t ∧ p c = true.
Proof.
  revert k. induction s as [|d s IH]; intros k; cbn [span]; [ lia | ].
  destruct (p d) eqn:E; [ | lia ].
  destruct k as [|k]; [ intros _; exists d, s; split; [reflexivity | exact E] | ].
  intros Hk. apply IH. lia.
Qed.

Lemma span_app_all p s t :
  forallb p s = true → span p (s ++ t) = length s + span p t.
Proof.
  induction s as [|c s IH]; [ reflexivity | ].
  cbn [forallb app span length]. intros H.
  apply andb_true_iff in H as [-> H]. rewrite (IH H). reflexivity.
Qed.

Lemma span_stop p c t : p c = false → span p (c :: t) = 0.
Proof. intros H. cbn [span]. rewrite H. reflexivity. Qed.

Lemma skip_app_all p s t : forallb p s = true → skip p (s ++ t) = skip p t.
Proof.
  induction s as [|c s IH]; [ reflexivity | ].
  cbn [forallb app skip]. intros H.
  apply andb_true_iff in H as [-> H]. exact (IH H).
Qed.

Lemma skip_stop p c t : p c = false → skip p (c :: t) = c :: t.
Proof. intros H. cbn [skip]. rewrite H. reflexivity. Qed.

(** *** [trim] *)

Lemma trimEnd_stop s c : is_ws c = false → trimEnd (s ++ [c]) = s ++ [c].
Proof.
  intros H. unfold trimEnd. rewrite rev_app_distr. cbn [rev app].
  rewrite (skip_stop _ _ _ H).
  change (c :: rev s) with ([c] ++ rev s).
  rewrite rev_app_distr, rev_involutive. reflexivity.
Qed.

(** A string that starts and ends outside white space is its own trim. *)
Lemma trim_fixed c s d :
  is_ws c = false → is_ws d = false → trim (c :: s ++ [d]) = c :: s ++ [d].
Proof.
  intros Hc Hd. unfold trim, trimStart. rewrite (skip_stop _ _ _ Hc).
  exact (trimEnd_stop (c :: s) d Hd).
Qed.

Lemma trim_fixed_one c : is_ws c = false → trim [c] = [c].
Proof.
  intros Hc. unfold trim, trimStart. rewrite (skip_stop _ _ _ Hc).
  exact (trimEnd_stop [] c Hc).
Qed.

(** What [trim] cuts off is white space. *)
Lemma skip_split p s : ∃ a, s = a ++ skip p s ∧ forallb p a = true.
Proof.
  exists (take (span p s) s). split; [ | apply span_prefix ].
  rewrite skip_is_drop. symmetry. apply take_drop.
Qed.

Lemma trim_split s :
  ∃ a b, s = a ++ trim s ++ b ∧ forallb is_ws a = true
         ∧ forallb is_ws b = true.
Proof.
  unfold trim, trimStart, trimEnd.
  destruct (skip_split is_ws s) as (a & Ha & Hwa).
  destruct (skip_split is_ws (rev (skip is_ws s))) as (b & Hb & Hwb).
  exists a, (rev b). split; [ | split; [ exact Hwa | ] ].
  - rewrite Ha at 1. f_equal.
    rewrite <- (rev_involutive (skip is_ws s)) at 1.
    rewrite Hb at 1. rewrite rev_app_distr. reflexivity.
  - rewrite forallb_forall in Hwb |- *. intros x Hx. apply Hwb.
    apply in_rev. exact Hx.
Qed.

(** A trimmed string that is not empty starts and ends outside white
    space. *)
Lemma trim_first s c t : trim s = c :: t → is_ws c = false.
Proof.
  unfold trim, trimEnd, trimStart. intros H.
  destruct (skip is_ws s) as [|d r] eqn:E; [ discriminate H | ].
  pose proof (skip_head _ _ _ _ E) as Hd.
  destruct (skip_split is_ws (rev (d :: r))) as (b & Hb & Hwb).
  assert (Hrev : d :: r = rev (skip is_ws (rev (d :: r))) ++ rev b).
  { rewrite <- (rev_involutive (d :: r)) at 1. rewrite Hb at 1.
    apply rev_app_distr. }
  rewrite H in Hrev. injection Hrev as -> _. exact Hd.
Qed.

Lemma trim_last s t c : trim s = t ++ [c] → is_ws c = false.
Proof.
  unfold trim, trimEnd. intros H.
  apply (f_equal (@rev N)) in H. rewrite rev_involutive, rev_app_distr in H.
  cbn [rev app] in H. exact (skip_head _ _ _ _ H).
Qed.

End StringFacts.

(** ** Facts about the matcher *)

Section RegexFacts.

Implicit Types (p q : N -> bool) (s t : jsstring) (r a b : regex).

Lemma flat_map_nothing {A B : Type} (f : A → list B) (l : list A) :
  (∀ x, In x l → f x = []) → flat_map f l = [].
Proof.
  induction l as [|x l IH]; intros H; [ reflexivity | ].
  cbn [flat_map]. rewrite (H x (or_introl eq_refl)).
  apply IH. intros y Hy. apply H. right. exact Hy.
Qed.

(** A repetition captures nothing, so going on after it is going on after
    each of its counts. *)
Lemma then_run_counts (ks : list nat) s (k : jsstring → list outcome) :
  then_run (map (fun n => (drop n s, [])) ks) k
  = flat_map (fun n => k (drop n s)) ks.
Proof.
  unfold then_run. induction ks as [|n ks IH]; [ reflexivity | ].
  cbn [map flat_map fst snd]. rewrite IH. f_equal.
  rewrite <- (map_id (k (drop n s))) at 2.
  apply map_ext. intros [rest caps]. reflexivity.
Qed.

Lemma starts_with_chr q b : starts_with q (Cat (Chr q) b).
Proof.
  intros [|c s] H; cbn [run]; [ reflexivity | ].
  rewrite H. reflexivity.
Qed.

Lemma starts_with_plus q n hi b : starts_with q (Cat (Rep q (S n) hi) b).
Proof.
  intros s H. cbn [run]. unfold rep_counts.
  assert (Hspan : span q s = 0).
  { destruct s as [|c s]; [ reflexivity | ]. apply span_stop. exact H. }
  rewrite Hspan. destruct hi as [h|]; reflexivity.
Qed.

Lemma starts_with_chr_only q : starts_with q (Chr q).
Proof.
  intros [|c s] H; cbn [run]; [ reflexivity | ].
  rewrite H. reflexivity.
Qed.

(** The counts of an unbounded repetition, longest first. *)
Lemma rev_counts p lo s :
  lo ≤ span p s →
  rev (rep_counts p lo None s)
  = span p s :: rev (seq lo (span p s - lo)).
Proof.
  intros H. unfold rep_counts.
  replace (S (span p s) - lo) with (span p s - lo + 1) by lia.
  rewrite seq_app, rev_app_distr. cbn [seq rev app].
  f_equal. lia.
Qed.

(** A greedy repetition of a class, followed by something that cannot start
    inside the class, takes the whole run of the class. *)
Lemma run_rep_then p q lo b s :
  (∀ c, p c = true → q c = false) →
  starts_with q b →
  run (Cat (Rep p lo None) b) s
  = if (lo <=? span p s)%nat then run b (skip p s) else [].
Proof.
  intros Hdisjoint Hstart. cbn [run]. rewrite then_run_counts.
  destruct (lo <=? span p s)%nat eqn:Hlo.
  - apply Nat.leb_le in Hlo. rewrite (rev_counts _ _ _ Hlo).
    cbn [flat_map]. rewrite <- skip_is_drop.
    rewrite flat_map_nothing; [ apply app_nil_r | ].
    intros k Hk. apply in_rev, in_seq in Hk.
    destruct (drop_in_span p s k) as (c & t & -> & Hc); [ lia | ].
    apply Hstart. apply Hdisjoint. exact Hc.
  - apply Nat.leb_gt in Hlo. unfold rep_counts.
    replace (S (span p s) - lo) with 0 by lia. reflexivity.
Qed.

(** The first outcome of a greedy repetition followed by something that
    succeeds after the whole run. *)
Lemma head_rep_then p lo b s o :
  lo ≤ span p s →
  head (run b (skip p s)) = Some o →
  head (run (Cat (Rep p lo None) b) s) = Some o.
Proof.
  intros Hlo Ho. cbn [run]. rewrite then_run_counts.
  rewrite (rev_counts _ _ _ Hlo). cbn [flat_map].
  rewrite <- skip_is_drop.
  destruct (run b (skip p s)) as [|o' os]; [ discriminate Ho | ].
  exact Ho.
Qed.

Lemma run_star_end p s : head (run (Rep p 0 None) s) = Some (skip p s, []).
Proof.
  cbn [run]. rewrite (rev_counts p 0 s (Nat.le_0_l _)). cbn [map head].
  rewrite skip_is_drop. reflexivity.
Qed.

(** *** The bullet strips in closed form *)

Lemma lead_not_bullet c : is_lead c = true → is_bullet c = false.
Proof.
  intros Hlead. destruct (is_bullet c) eqn:Hb; [ | reflexivity ].
  unfold is_bullet, one_of in Hb. apply existsb_exists in Hb as (x & Hx & E).
  apply N.eqb_eq in E. subst x.
  assert (Hall : forallb (fun x => negb (is_lead x))
                   bullet_glyphs = true)
    by (vm_compute; reflexivity).
  rewrite forallb_forall in Hall. specialize (Hall c Hx).
  rewrite Hlead in Hall. discriminate Hall.
Qed.

Lemma replace_start_head r s :
  replace_start r s
  = match head (run r s) with Some o => fst o | None => s end.
Proof. unfold replace_start. destruct (run r s); reflexivity. Qed.

Lemma exec_start_head r s : exec_start r s = snd <$> head (run r s).
Proof. unfold exec_start. destruct (run r s); reflexivity. Qed.

Lemma test_start_head r s :
  test_start r s = match head (run r s) with Some _ => true | None => false end.
Proof. unfold test_start. destruct (run r s); reflexivity. Qed.

(** Leading marks, then at least one bullet, are cut off together with the
    white space that follows; a line without such a bullet is left alone. *)
Lemma stripLeadingBullets_closed s :
  stripLeadingBullets s
  = if (1 <=? span is_bullet (skip is_lead s))%nat
    then skip is_ws (skip is_bullet (skip is_lead s))
    else s.
Proof.
  unfold stripLeadingBullets, star, plus. cbn [cat].
  rewrite replace_start_head.
  rewrite (run_rep_then is_lead is_bullet 0
             (Cat (Rep is_bullet 1 None) (Rep is_ws 0 None)) s
             lead_not_bullet (starts_with_plus _ _ _ _)).
  replace (0 <=? span is_lead s)%nat with true by reflexivity.
  destruct (1 <=? span is_bullet (skip is_lead s))%nat eqn:Hb.
  - apply Nat.leb_le in Hb.
    rewrite (head_rep_then is_bullet 1 (Rep is_ws 0 None) (skip is_lead s)
               (skip is_ws (skip is_bullet (skip is_lead s)), []) Hb
               (run_star_end _ _)).
    reflexivity.
  - apply Nat.leb_gt in Hb. cbn [run]. unfold rep_counts.
    replace (S (span is_bullet (skip is_lead s)) - 1) with 0 by lia.
    reflexivity.
Qed.

(** The strip inside [normalizeLine] keeps the white space after the
    bullets. *)
Lemma strip_in_normalizeLine_closed s :
  replace_start (cat [star is_lead; plus is_bullet]) s
  = if (1 <=? span is_bullet (skip is_lead s))%nat
    then skip is_bullet (skip is_lead s)
    else s.
Proof.
  unfold star, plus. cbn [cat]. rewrite replace_start_head.
  assert (Hstart : starts_with is_bullet (Rep is_bullet 1 None)).
  { intros t H. cbn [run]. unfold rep_counts.
    assert (Hspan : span is_bullet t = 0).
    { destruct t as [|c t]; [ reflexivity | ]. apply span_stop. exact H. }
    rewrite Hspan. reflexivity. }
  rewrite (run_rep_then is_lead is_bullet 0 (Rep is_bullet 1 None) s
             lead_not_bullet Hstart).
  replace (0 <=? span is_lead s)%nat with true by reflexivity.
  cbn [run].
  destruct (1 <=? span is_bullet (skip is_lead s))%nat eqn:Hb.
  - apply Nat.leb_le in Hb. rewrite (rev_counts _ _ _ Hb).
    cbn [map head fst]. symmetry. apply skip_is_drop.
  - apply Nat.leb_gt in Hb. unfold rep_counts.
    replace (S (span is_bullet (skip is_lead s)) - 1) with 0 by lia.
    reflexivity.
Qed.

End RegexFacts.

(** ** What a match consumes *)

Section Consumption.

Implicit Types (p q C : N -> bool) (s t : jsstring) (r a b : regex).

Lemma in_then_run (os : list outcome) (k : jsstring → list outcome) o :
  In o (then_run os k) →
  ∃ o1 o2, In o1 os ∧ In o2 (k (fst o1)) ∧ o = (fst o2, snd o1 ++ snd o2).
Proof.
  unfold then_run. intros H. apply in_flat_map in H as (o1 & H1 & H).
  apply in_map_iff in H as (o2 & <- & H2). exists o1, o2. auto.
Qed.

Lemma strip_prefix_split eqc (l s t : jsstring) :
  strip_prefix eqc l s = Some t →
  ∃ w, s = w ++ t ∧ length w = length l
       ∧ ∀ c, In c w → existsb (fun x => eqc x c) l = true.
Proof.
  revert s. induction l as [|x l IH]; intros s; cbn [strip_prefix].
  - intros [= ->]. exists []. split; [ reflexivity | ].
    split; [ reflexivity | ]. intros c [].
  - destruct s as [|y s]; [ discriminate | ].
    destruct (eqc x y) eqn:E; [ | discriminate ].
    intros H. destruct (IH s H) as (w & -> & Hlen & Hw).
    exists (y :: w). split; [ reflexivity | ].
    split; [ cbn [length]; lia | ].
    intros c [<- | Hc]; cbn [existsb].
    + rewrite E. reflexivity.
    + rewrite (Hw c Hc). apply orb_true_r.
Qed.

Lemma take_in_span p s k : k ≤ span p s → forallb p (take k s) = true.
Proof.
  revert k. induction s as [|c s IH]; intros k; cbn [span].
  - intros Hk. replace k with 0 by lia. reflexivity.
  - destruct k as [|k]; [ reflexivity | ].
    destruct (p c) eqn:E; [ | lia ].
    intros Hk. cbn [take forallb]. rewrite E. apply IH. lia.
Qed.

Lemma in_rep_counts p lo hi s k :
  In k (rep_counts p lo hi s) →
  lo ≤ k ∧ k ≤ span p s ∧ match hi with Some h => k ≤ h | None => True end.
Proof.
  unfold rep_counts. intros H. apply in_seq in H.
  destruct hi as [h|]; lia.
Qed.

Lemma forallb_weaken p C (l : jsstring) :
  (∀ c, p c = true → C c = true) → forallb p l = true → forallb C l = true.
Proof.
  intros H. rewrite !forallb_forall. intros Hl x Hx. apply H, Hl, Hx.
Qed.

(** A match of a pattern that eats the class [C] cuts a prefix of units of
    [C] off the string. *)
Lemma run_eats C r :
  eats C r →
  ∀ s o, In o (run r s) → ∃ w, s = w ++ fst o ∧ forallb C w = true.
Proof.
  induction r as [p|l|l|a IHa b IHb|a IHa b IHb|a IHa|p lo hi|p lo hi|a IHa|];
    cbn [eats run]; intros He s o Ho.
  - destruct s as [|c s]; [ destruct Ho | ].
    destruct (p c) eqn:E; [ | destruct Ho ].
    destruct Ho as [<- | []]. exists [c]. split; [ reflexivity | ].
    cbn [forallb]. rewrite (He c E). reflexivity.
  - destruct (strip_prefix N.eqb l s) as [t|] eqn:E; [ | destruct Ho ].
    destruct Ho as [<- | []].
    destruct (strip_prefix_split _ _ _ _ E) as (w & -> & _ & Hw).
    exists w. split; [ reflexivity | ].
    apply forallb_forall. intros c Hc. specialize (Hw c Hc).
    apply existsb_exists in Hw as (x & Hx & Hxc). apply N.eqb_eq in Hxc.
    subst x. rewrite forallb_forall in He. apply He, Hx.
  - destruct (strip_prefix _ l s) as [t|] eqn:E; [ | destruct Ho ].
    destruct Ho as [<- | []].
    destruct (strip_prefix_split _ _ _ _ E) as (w & -> & _ & Hw).
    exists w. split; [ reflexivity | ].
    apply forallb_forall. intros c Hc. apply He, Hw, Hc.
  - destruct He as [Ha Hb].
    apply in_then_run in Ho as (o1 & o2 & H1 & H2 & ->).
    destruct (IHa Ha s o1 H1) as (w1 & -> & Hw1).
    destruct (IHb Hb _ o2 H2) as (w2 & E2 & Hw2).
    exists (w1 ++ w2). cbn [fst]. rewrite E2 at 1.
    split; [ apply app_assoc | ].
    rewrite forallb_app, Hw1, Hw2. reflexivity.
  - destruct He as [Ha Hb]. apply in_app_or in Ho as [Ho | Ho].
    + exact (IHa Ha s o Ho).
    + exact (IHb Hb s o Ho).
  - apply in_app_or in Ho as [Ho | [<- | []]].
    + exact (IHa He s o Ho).
    + exists []. split; reflexivity.
  - apply in_map_iff in Ho as (k & <- & Hk). apply in_rev in Hk.
    apply in_rep_counts in Hk as (_ & Hk & _).
    exists (take k s). split; [ symmetry; apply take_drop | ].
    exact (forallb_weaken _ _ _ He (take_in_span p s k Hk)).
  - apply in_map_iff in Ho as (k & <- & Hk).
    apply in_rep_counts in Hk as (_ & Hk & _).
    exists (take k s). split; [ symmetry; apply take_drop | ].
    exact (forallb_weaken _ _ _ He (take_in_span p s k Hk)).
  - apply in_map_iff in Ho as (o1 & <- & H1). exact (IHa He s o1 H1).
  - destruct s; [ | destruct Ho ]. destruct Ho as [<- | []].
    exists []. split; reflexivity.
Qed.

(** *** The name in front of the colon of [CHARACTER_RE] *)

Lemma forallb_last (C : N → bool) (w : jsstring) (c : N) :
  forallb C (w ++ [c]) = true → C c = true.
Proof.
  rewrite forallb_app. cbn [forallb]. intros H.
  apply andb_true_iff in H as [_ H]. apply andb_true_iff in H as [H _].
  exact H.
Qed.

Lemma run_cat a b s : run (Cat a b) s = then_run (run a s) (run b).
Proof. reflexivity. Qed.

Lemma ws_is_name_unit c : is_ws c = true → is_name_unit c = true.
Proof.
  intros H. unfold is_name_unit. rewrite H, orb_true_r. reflexivity.
Qed.

Lemma arabic_is_name_unit c : is_arabic c = true → is_name_unit c = true.
Proof. intros H. unfold is_name_unit. rewrite H. reflexivity. Qed.

(** A string that matches [CHARACTER_RE] and ends with the colon consists,
    before that colon, of name units only: Arabic letters, white space and
    digits. *)
Lemma name_units_of_CHARACTER_RE (name : jsstring) :
  test_start CHARACTER_RE (name ++ u ":") = true →
  forallb is_name_unit name = true.
Proof.
  replace (u ":") with [58%N] by (vm_compute; reflexivity).
  rewrite test_start_head.
  destruct (run CHARACTER_RE (name ++ [58%N])) as [|o os] eqn:Hrun;
    [ discriminate | ]. intros _.
  assert (Ho : In o (run CHARACTER_RE (name ++ [58%N])))
    by (rewrite Hrun; left; reflexivity).
  clear Hrun os. revert Ho.
  unfold CHARACTER_RE, star, plus. cbn [cat].
  remember (name ++ [58%N]) as s eqn:E. symmetry in E.
  intros Ho. revert E.
  (* the four parts in front of the colon *)
  rewrite run_cat in Ho.
  apply in_then_run in Ho as (o1 & oa & H1 & Ho & _).
  apply (run_eats is_name_unit (Rep is_ws 0 None)) in H1 as (w1 & -> & Hw1);
    [ | exact ws_is_name_unit ].
  rewrite run_cat in Ho.
  apply in_then_run in Ho as (o2 & ob & H2 & Ho & _).
  apply (run_eats is_name_unit
           (Opt (Cat (Str (u "صوت")) (Rep is_ws 1 None))))
    in H2 as (w2 & -> & Hw2);
    [ | split; [ vm_compute; reflexivity | exact ws_is_name_unit ] ].
  rewrite run_cat in Ho.
  apply in_then_run in Ho as (o3 & oc & H3 & Ho & _).
  apply (run_eats is_name_unit (Chr is_arabic)) in H3 as (w3 & -> & Hw3);
    [ | exact arabic_is_name_unit ].
  rewrite run_cat in Ho.
  apply in_then_run in Ho as (o4 & od & H4 & Ho & _).
  apply (run_eats is_name_unit
           (Rep (fun c => is_arabic c || is_ws c || is_any_digit c) 0
              (Some 30)))
    in H4 as (w4 & -> & Hw4); [ | intros c Hc; exact Hc ].
  (* the colon, the white space, the end *)
  rewrite run_cat in Ho.
  apply in_then_run in Ho as (o5 & o6 & H5 & Ho & _).
  rewrite run_cat in Ho.
  apply in_then_run in Ho as (o7 & o8 & H7 & H8 & _).
  apply (run_eats is_ws (Rep is_ws 0 None)) in H7 as (w6 & E6 & Hw6);
    [ | intros c Hc; exact Hc ].
  assert (E8 : fst o7 = []).
  { cbn [run] in H8. destruct (fst o7); [ reflexivity | destruct H8 ]. }
  rewrite E8, app_nil_r in E6. clear H8 E8 o7 o8.
  assert (Hfront : forallb is_name_unit (w1 ++ w2 ++ w3 ++ w4) = true)
    by (rewrite !forallb_app, Hw1, Hw2, Hw3, Hw4; reflexivity).
  rewrite !app_assoc. rewrite !app_assoc in Hfront.
  generalize dependent (((w1 ++ w2) ++ w3) ++ w4). intros front Hfront.
  clear w1 w2 w3 w4 Hw1 Hw2 Hw3 Hw4 o1 o2 o3 oa ob oc od.
  destruct w6 as [|d w6 _] using rev_ind.
  - (* no white space after the colon *)
    cbn [run] in H5. apply in_app_or in H5 as [H5 | [<- | []]].
    + destruct (fst o4) as [|c t] eqn:E4; [ destruct H5 | ].
      destruct (one_of (u ":") c) eqn:Hc; [ | destruct H5 ].
      destruct H5 as [<- | []]. cbn [fst] in E6. subst t.
      assert (c = 58%N) as ->.
      { unfold one_of in Hc.
        replace (u ":") with [58%N] in Hc by (vm_compute; reflexivity).
        cbn [existsb] in Hc. rewrite orb_false_r in Hc.
        apply N.eqb_eq in Hc. exact Hc. }
      intros E. apply app_inj_tail in E as [-> _]. exact Hfront.
    + cbn [fst] in E6. rewrite E6, app_nil_r. intros <-.
      apply forallb_last in Hfront. discriminate Hfront.
  - (* white space at the end: the string cannot end with the colon *)
    intros E. exfalso.
    assert (Hd : is_ws d = true) by (exact (forallb_last _ _ _ Hw6)).
    assert (E' : ∃ pre, pre ++ [d] = name ++ [58%N]).
    { cbn [run] in H5. apply in_app_or in H5 as [H5 | [<- | []]].
      - destruct (fst o4) as [|c t] eqn:E4;
          [ destruct H5 | ].
        destruct (one_of (u ":") c); [ | destruct H5 ].
        destruct H5 as [<- | []]. cbn [fst] in E6. subst t.
        exists (front ++ c :: w6). rewrite E, <- app_assoc. reflexivity.
      - cbn [fst] in E6. rewrite E6 in E. exists (front ++ w6).
        rewrite E, <- app_assoc. reflexivity. }
    destruct E' as (pre & E'). apply app_inj_tail in E' as [_ ->].
    discriminate Hd.
Qed.

End Consumption.

(** ** Matches *)

Section Matches.

Implicit Types (r a b : regex) (s rest : jsstring) (p : N → bool).

Lemma test_start_accepts r s :
  test_start r s = true ↔ ∃ rest, accepts r s rest.
Proof.
  unfold test_start, accepts. destruct (run r s) as [|[rest caps] os].
  - split; [ discriminate | intros (rest & caps & []) ].
  - split; [ | reflexivity ].
    intros _. exists rest, caps. left. reflexivity.
Qed.

Lemma then_run_in (os : list outcome) (k : jsstring → list outcome)
    (o1 o2 : outcome) :
  In o1 os → In o2 (k (fst o1)) →
  In (fst o2, snd o1 ++ snd o2) (then_run os k).
Proof.
  intros H1 H2. unfold then_run. apply in_flat_map. exists o1.
  split; [ exact H1 | ]. apply in_map_iff. exists o2. split; [ reflexivity | ].
  exact H2.
Qed.

Lemma accepts_cat a b s rest :
  accepts (Cat a b) s rest ↔ ∃ mid, accepts a s mid ∧ accepts b mid rest.
Proof.
  unfold accepts. cbn [run]. split.
  - intros (caps & Hin). apply in_then_run in Hin as (o1 & o2 & H1 & H2 & E).
    injection E as -> ->. exists (fst o1). split.
    + exists (snd o1). destruct o1. exact H1.
    + exists (snd o2). destruct o2. exact H2.
  - intros (mid & (c1 & H1) & (c2 & H2)). exists (c1 ++ c2).
    apply (then_run_in _ _ (mid, c1) (rest, c2)); assumption.
Qed.

Lemma accepts_grp a s rest : accepts (Grp a) s rest ↔ accepts a s rest.
Proof.
  unfold accepts. cbn [run]. split.
  - intros (caps & Hin). apply in_map_iff in Hin as ([rest' c] & E & Hin).
    injection E as -> _. exists c. exact Hin.
  - intros (c & Hin). exists (consumed s rest :: c).
    apply in_map_iff. exists (rest, c). split; [ reflexivity | exact Hin ].
Qed.

Lemma accepts_chr p s rest :
  accepts (Chr p) s rest ↔ ∃ c, s = c :: rest ∧ p c = true.
Proof.
  unfold accepts. cbn [run]. destruct s as [|c t].
  - split; [ intros (caps & []) | intros (c & E & _); discriminate E ].
  - destruct (p c) eqn:Hc.
    + split.
      * intros (caps & [E | []]). injection E as <- _. exists c. auto.
      * intros (c' & E & _). injection E as <- <-. exists []. left.
        reflexivity.
    + split; [ intros (caps & []) | ].
      intros (c' & E & Hc'). injection E as <- _. congruence.
Qed.

Lemma accepts_eos s rest : accepts Eos s rest ↔ s = [] ∧ rest = [].
Proof.
  unfold accepts. cbn [run]. destruct s as [|c t].
  - split.
    + intros (caps & [E | []]). injection E as <- _. auto.
    + intros [_ ->]. exists []. left. reflexivity.
  - split; [ intros (caps & []) | intros [E _]; discriminate E ].
Qed.

Lemma accepts_opt a s rest :
  accepts (Opt a) s rest ↔ accepts a s rest ∨ rest = s.
Proof.
  unfold accepts. cbn [run]. split.
  - intros (caps & Hin). apply in_app_iff in Hin as [Hin | [E | []]].
    + left. exists caps. exact Hin.
    + right. injection E as <- _. reflexivity.
  - intros [(caps & Hin) | ->].
    + exists caps. apply in_app_iff. left. exact Hin.
    + exists []. apply in_app_iff. right. left. reflexivity.
Qed.

Lemma rep_counts_in p lo hi s k :
  In k (rep_counts p lo hi s)
  ↔ lo ≤ k ∧ k ≤ span p s
    ∧ match hi with Some h => k ≤ h | None => True end.
Proof.
  unfold rep_counts. rewrite in_seq. destruct hi as [h|]; lia.
Qed.

Lemma accepts_rep p lo hi s rest :
  accepts (Rep p lo hi) s rest
  ↔ ∃ k, rest = drop k s ∧ lo ≤ k ∧ k ≤ span p s
         ∧ match hi with Some h => k ≤ h | None => True end.
Proof.
  unfold accepts. cbn [run]. split.
  - intros (caps & Hin). apply in_map_iff in Hin as (k & E & Hk).
    injection E as <- _. exists k. split; [ reflexivity | ].
    apply rep_counts_in. apply in_rev. exact Hk.
  - intros (k & -> & Hk). exists []. apply in_map_iff. exists k.
    split; [ reflexivity | ]. apply in_rev. rewrite rev_involutive.
    apply rep_counts_in. exact Hk.
Qed.

Lemma accepts_rep_lazy p lo hi s rest :
  accepts (RepLazy p lo hi) s rest
  ↔ ∃ k, rest = drop k s ∧ lo ≤ k ∧ k ≤ span p s
         ∧ match hi with Some h => k ≤ h | None => True end.
Proof.
  unfold accepts. cbn [run]. split.
  - intros (caps & Hin). apply in_map_iff in Hin as (k & E & Hk).
    injection E as <- _. exists k. split; [ reflexivity | ].
    apply rep_counts_in. exact Hk.
  - intros (k & -> & Hk). exists []. apply in_map_iff. exists k.
    split; [ reflexivity | ]. apply rep_counts_in. exact Hk.
Qed.

(** A star, and an option, match whatever comes. *)
Lemma accepts_star p s : ∃ rest, accepts (Rep p 0 None) s rest.
Proof.
  exists (drop 0 s). apply accepts_rep. exists 0.
  split; [ reflexivity | ]. split; [ lia | ]. split; [ lia | exact I ].
Qed.

Lemma test_drop r s k : test r (drop k s) = true → test r s = true.
Proof.
  revert s. induction k as [|k IH]; intros s; [ rewrite drop_0; auto | ].
  destruct s as [|c t]; [ auto | ].
  cbn [drop]. intros H. cbn [test]. rewrite (IH t H). apply orb_true_r.
Qed.

Lemma test_at_start r s : test_start r s = true → test r s = true.
Proof. intros H. destruct s; cbn [test]; rewrite H; reflexivity. Qed.

Lemma plain_captures r :
  plain r = true → ∀ s o, In o (run r s) → snd o = [].
Proof.
  induction r as [p | l | l | a IHa b IHb | a IHa b IHb | a IHa | p lo hi
                 | p lo hi | a IHa | ];
    cbn [plain]; intros Hplain s o Hin; cbn [run] in Hin.
  - destruct s as [|c t]; [ destruct Hin | ].
    destruct (p c); [ | destruct Hin ].
    destruct Hin as [<- | []]. reflexivity.
  - destruct (strip_prefix _ l s); [ | destruct Hin ].
    destruct Hin as [<- | []]. reflexivity.
  - destruct (strip_prefix _ l s); [ | destruct Hin ].
    destruct Hin as [<- | []]. reflexivity.
  - apply andb_true_iff in Hplain as [Ha Hb].
    apply in_then_run in Hin as (o1 & o2 & H1 & H2 & ->). cbn [snd].
    rewrite (IHa Ha _ _ H1), (IHb Hb _ _ H2). reflexivity.
  - apply andb_true_iff in Hplain as [Ha Hb].
    apply in_app_iff in Hin as [Hin | Hin]; eauto.
  - apply in_app_iff in Hin as [Hin | [<- | []]]; eauto.
  - apply in_map_iff in Hin as (k & <- & _). reflexivity.
  - apply in_map_iff in Hin as (k & <- & _). reflexivity.
  - discriminate Hplain.
  - destruct s; [ | destruct Hin ]. destruct Hin as [<- | []]. reflexivity.
Qed.

End Matches.

(** ** Character cues after a dialogue label *)

Section AfterDialogue.

Lemma accepts_eats (C : N → bool) (r : regex) (s rest : jsstring) :
  eats C r → accepts r s rest → ∃ w, s = w ++ rest ∧ forallb C w = true.
Proof.
  intros He (caps & Hin).
  exact (run_eats C r He s (rest, caps) Hin).
Qed.

Lemma includes_none (p : N → bool) (s : jsstring) (c : N) :
  forallb p s = true → p c = false → includes s [c] = false.
Proof.
  intros Hs Hc. induction s as [|a t IH]; [ reflexivity | ].
  cbn [forallb] in Hs. apply andb_true_iff in Hs as [Ha Ht].
  cbn [includes startsWith]. rewrite (IH Ht), orb_false_r.
  apply andb_false_iff. left. apply N.eqb_neq. intros <-. congruence.
Qed.

Lemma includes_last (s : jsstring) (c : N) : includes (s ++ [c]) [c] = true.
Proof.
  induction s as [|a t IH].
  - cbn [app includes startsWith]. rewrite N.eqb_refl. reflexivity.
  - cbn [app includes]. rewrite IH. apply orb_true_r.
Qed.

Lemma endsWith_last (s : jsstring) (c : N) :
  endsWith s [c] = true → ∃ t, s = t ++ [c].
Proof.
  unfold endsWith. cbn [rev app]. destruct (rev s) as [|d r] eqn:E;
    [ discriminate | ].
  cbn [startsWith]. intros H. apply andb_true_iff in H as [H _].
  apply N.eqb_eq in H. subst d. exists (rev r).
  rewrite <- (rev_involutive s), E. reflexivity.
Qed.

Lemma endsWith_of_last (s : jsstring) (c : N) : endsWith (s ++ [c]) [c] = true.
Proof.
  unfold endsWith. rewrite rev_app_distr. cbn [rev app startsWith].
  rewrite N.eqb_refl. destruct (rev s); reflexivity.
Qed.

(** A line that ends with a colon contains one. *)
Lemma endsWithColon_hasColonIn (s : jsstring) :
  endsWithColon s = true → hasColonIn s = true.
Proof.
  unfold endsWithColon, hasColonIn.
  replace (u ":") with [58%N] by (vm_compute; reflexivity).
  replace (u "：") with [65306%N] by (vm_compute; reflexivity).
  intros H. apply orb_true_iff in H as [H | H];
    apply endsWith_last in H as (t & ->); rewrite includes_last;
    [ reflexivity | apply orb_true_r ].
Qed.

(** On a trimmed line [CHARACTER_RE] allows a colon in the last place
    only. *)
Lemma CHARACTER_RE_colon_last (line : jsstring) :
  test_start CHARACTER_RE (trim line) = true →
  hasColonIn (trim line) = true →
  endsWithColon (trim line) = true.
Proof.
  intros Htest Hcolon.
  apply (proj1 (test_start_accepts _ _)) in Htest as (rest & H).
  unfold CHARACTER_RE, star, plus in H. cbn [cat] in H.
  apply (proj1 (accepts_cat _ _ _ _)) in H as (m1 & H1 & H).
  apply (accepts_eats is_name_unit) in H1 as (w1 & E1 & Hw1);
    [ | exact ws_is_name_unit ].
  apply (proj1 (accepts_cat _ _ _ _)) in H as (m2 & H2 & H).
  apply (accepts_eats is_name_unit) in H2 as (w2 & E2 & Hw2);
    [ | split; [ vm_compute; reflexivity | exact ws_is_name_unit ] ].
  apply (proj1 (accepts_cat _ _ _ _)) in H as (m3 & H3 & H).
  apply (accepts_eats is_name_unit) in H3 as (w3 & E3 & Hw3);
    [ | exact arabic_is_name_unit ].
  apply (proj1 (accepts_cat _ _ _ _)) in H as (m4 & H4 & H).
  apply (accepts_eats is_name_unit) in H4 as (w4 & E4 & Hw4);
    [ | intros c Hc; exact Hc ].
  apply (proj1 (accepts_cat _ _ _ _)) in H as (m5 & H5 & H).
  apply (proj1 (accepts_cat _ _ _ _)) in H as (m6 & H6 & H7).
  apply (accepts_eats is_ws) in H6 as (w6 & E6 & Hw6);
    [ | intros c Hc; exact Hc ].
  apply (proj1 (accepts_eos _ _)) in H7 as [-> _].
  rewrite app_nil_r in E6. subst m5.
  assert (Hfront : ∃ front, trim line = front ++ m4
                            ∧ forallb is_name_unit front = true).
  { exists (w1 ++ w2 ++ w3 ++ w4). split.
    - rewrite E1, E2, E3, E4, <- !app_assoc. reflexivity.
    - rewrite !forallb_app, Hw1, Hw2, Hw3, Hw4. reflexivity. }
  destruct Hfront as (front & E & Hfront).
  clear E1 E2 E3 E4 Hw1 Hw2 Hw3 Hw4 w1 w2 w3 w4 m1 m2 m3.
  (* no white space at the end of a trimmed line *)
  assert (Hend : ∀ pre, trim line = pre ++ w6 → w6 = []).
  { intros pre Epre. destruct w6 as [|d w _] using rev_ind;
      [ reflexivity | ].
    rewrite app_assoc in Epre. apply trim_last in Epre.
    apply forallb_last in Hw6. congruence. }
  assert (Hno : ∀ c, is_name_unit c = false →
                     includes front [c] = false)
    by (intros c Hc; exact (includes_none _ _ _ Hfront Hc)).
  apply (proj1 (accepts_opt _ _ _)) in H5 as [H5 | ->].
  - apply (proj1 (accepts_chr _ _ _)) in H5 as (c & -> & Hc).
    assert (c = 58%N) as ->.
    { unfold one_of in Hc.
      replace (u ":") with [58%N] in Hc by (vm_compute; reflexivity).
      cbn [existsb] in Hc. rewrite orb_false_r in Hc.
      apply N.eqb_eq in Hc. exact Hc. }
    assert (w6 = []) as ->.
    { apply (Hend (front ++ [58%N])). rewrite E, <- app_assoc. reflexivity. }
    rewrite E. unfold endsWithColon.
    replace (u ":") with [58%N] by (vm_compute; reflexivity).
    rewrite endsWith_of_last. reflexivity.
  - assert (m4 = []) as -> by (apply (Hend front); exact E).
    rewrite app_nil_r in E. exfalso. rewrite E in Hcolon.
    unfold hasColonIn in Hcolon.
    replace (u ":") with [58%N] in Hcolon by (vm_compute; reflexivity).
    replace (u "：") with [65306%N] in Hcolon by (vm_compute; reflexivity).
    rewrite !Hno in Hcolon by (vm_compute; reflexivity).
    discriminate Hcolon.
Qed.

(** C4 as stated fails: inside a dialogue block, just after a dialogue
    label, the line of a name that ends with a colon is accepted as a
    character cue, and so is a bare Arabic name. *)
Lemma isCharacterLine_after_dialogue_counterexample :
  cc_isInDialogueBlock after_dialogue = true
  ∧ lastFormat after_dialogue = Some (u "dialogue")
  ∧ isCharacterLine (u "علي:") (Some after_dialogue) = true
  ∧ isCharacterLine (u "علي") (Some after_dialogue) = true.
Proof. repeat split; vm_compute; reflexivity. Qed.

(** C4, amended. With any context, the one of a dialogue block just after
    a dialogue label included, [isCharacterLine] answers as it does with no
    context.  It accepts a line exactly when the trimmed line is not empty,
    is no complete scene header, transition or parenthetical, its normalised
    form has at most five words and starts like no action, and the trimmed
    line either ends with a colon, or has no colon and its normalised form is
    in Arabic script only, of one to three words, none of them a stop word.
    So it rejects every line that does not end with a colon and that
    contains a colon or is not in Arabic script only. *)
Theorem isCharacterLine_after_dialogue
    (line : jsstring) (context : CharacterContext) :
  isCharacterLine line (Some context) = isCharacterLine line None
  ∧ (isCharacterLine line (Some context) = true
     ↔ truthy (trim line) = true
       ∧ isCompleteSceneHeader (trim line) = false
       ∧ isTransition (trim line) = false
       ∧ isParenthetical (trim line) = false
       ∧ length (words (normalizeLine (trim line))) ≤ 5
       ∧ isActionVerbStart (normalizeLine (trim line)) = false
       ∧ matchesActionStartPattern (normalizeLine (trim line)) = false
       ∧ (endsWithColon (trim line) = true
          ∨ (hasColonIn (trim line) = false
             ∧ test_start (cat [plus is_arabic_script; Eos])
                 (normalizeLine (trim line)) = true
             ∧ 1 ≤ length (words (normalizeLine (trim line))) ≤ 3
             ∧ existsb (has stopWords)
                 (words (normalizeLine (trim line))) = false)))
  ∧ (endsWithColon (trim line) = false →
     hasColonIn (trim line) = true
     ∨ test_start (cat [plus is_arabic_script; Eos])
         (normalizeLine (trim line)) = false →
     isCharacterLine line (Some context) = false).
Proof.
  pose proof (endsWithColon_hasColonIn (trim line)) as Hin.
  pose proof (CHARACTER_RE_colon_last line) as Hre.
  unfold isCharacterLine. cbv zeta.
  destruct (truthy (trim line)); cbn [negb];
    [ | split; [ reflexivity | split; [ | reflexivity ] ];
        split; [ discriminate | intros (H & _); discriminate H ] ].
  destruct (isCompleteSceneHeader (trim line)); cbn [orb];
    [ split; [ reflexivity | split; [ | reflexivity ] ];
      split; [ discriminate | intros (_ & H & _); discriminate H ] | ].
  destruct (isTransition (trim line)); cbn [orb];
    [ split; [ reflexivity | split; [ | reflexivity ] ];
      split; [ discriminate | intros (_ & _ & H & _); discriminate H ] | ].
  destruct (isParenthetical (trim line)); cbn [orb];
    [ split; [ reflexivity | split; [ | reflexivity ] ];
      split; [ discriminate
             | intros (_ & _ & _ & H & _); discriminate H ] | ].
  destruct (5 <? length (words (normalizeLine (trim line))))%nat eqn:Hfive;
    [ apply Nat.ltb_lt in Hfive;
      split; [ reflexivity | split; [ | reflexivity ] ];
      split; [ discriminate | intros (_ & _ & _ & _ & H & _); lia ] | ].
  apply Nat.ltb_ge in Hfive.
  destruct (isActionVerbStart (normalizeLine (trim line)));
    [ split; [ reflexivity | split; [ | reflexivity ] ];
      split; [ discriminate
             | intros (_ & _ & _ & _ & _ & H & _); discriminate H ] | ].
  destruct (matchesActionStartPattern (normalizeLine (trim line)));
    [ split; [ reflexivity | split; [ | reflexivity ] ];
      split; [ discriminate
             | intros (_ & _ & _ & _ & _ & _ & H & _); discriminate H ] | ].
  destruct (endsWithColon (trim line)) eqn:Hends.
  { rewrite (Hin eq_refl). cbn [andb].
    split; [ reflexivity | split; [ | discriminate ] ].
    split; [ intros _; repeat split; auto | reflexivity ]. }
  rewrite andb_false_r.
  destruct (hasColonIn (trim line)) eqn:Hcolon; cbn [negb andb].
  - (* a colon that is not the last unit: the test of [CHARACTER_RE] fails *)
    assert (Hfail : test_start CHARACTER_RE (trim line) = false).
    { destruct (test_start CHARACTER_RE (trim line)); [ | reflexivity ].
      specialize (Hre eq_refl eq_refl). discriminate Hre. }
    rewrite Hfail.
    assert (Hcontext :
      (if cc_isInDialogueBlock context
          && is_label (lastFormat context) "character"
       then false
       else if cc_isInDialogueBlock context
               && is_label (lastFormat context) "dialogue"
       then false
       else if is_label (lastFormat context) "action" && true
       then false else false) = false)
      by (repeat match goal with
                 | |- (if ?c then _ else _) = _ => destruct c
                 end; reflexivity).
    rewrite Hcontext.
    split; [ reflexivity | split; [ | reflexivity ] ].
    split; [ discriminate | ].
    intros (_ & _ & _ & _ & _ & _ & _ & [H | (H & _)]); discriminate H.
  - destruct (test_start (cat [plus is_arabic_script; Eos])
                (normalizeLine (trim line))) eqn:Hscript.
    + destruct (length (words (normalizeLine (trim line))) =? 0)%nat
        eqn:Hzero; cbn [orb].
      { apply Nat.eqb_eq in Hzero.
        split; [ reflexivity | split; [ | reflexivity ] ].
        split; [ discriminate | ].
        intros (_ & _ & _ & _ & _ & _ & _ & [H | (_ & _ & H & _)]);
          [ discriminate H | lia ]. }
      apply Nat.eqb_neq in Hzero.
      destruct (3 <? length (words (normalizeLine (trim line))))%nat
        eqn:Hthree.
      { apply Nat.ltb_lt in Hthree.
        split; [ reflexivity | split; [ | reflexivity ] ].
        split; [ discriminate | ].
        intros (_ & _ & _ & _ & _ & _ & _ & [H | (_ & _ & H & _)]);
          [ discriminate H | lia ]. }
      apply Nat.ltb_ge in Hthree.
      destruct (existsb (has stopWords)
                  (words (normalizeLine (trim line)))) eqn:Hstop.
      { split; [ reflexivity | split; [ | reflexivity ] ].
        split; [ discriminate | ].
        intros (_ & _ & _ & _ & _ & _ & _ & [H | (_ & _ & _ & H)]);
          discriminate H. }
      split; [ reflexivity | split ].
      * split; [ intros _ | reflexivity ].
        repeat split; auto. right. repeat split; auto; lia.
      * intros _ [H | H]; discriminate H.
    + split; [ reflexivity | split; [ | reflexivity ] ].
      split; [ discriminate | ].
      intros (_ & _ & _ & _ & _ & _ & _ & [H | (_ & H & _)]);
        discriminate H.
Qed.

End AfterDialogue.

(** ** The inline split *)

Section InlineSplit.

Implicit Types (p q : N -> bool) (s t : jsstring).

Lemma then_run_app (os1 os2 : list outcome) (k : jsstring → list outcome) :
  then_run (os1 ++ os2) k = then_run os1 k ++ then_run os2 k.
Proof. unfold then_run. apply flat_map_app. Qed.

(** The first outcome of a sequence, when the earlier outcomes of its first
    part lead nowhere. *)
Lemma head_then_run (os1 os2 : list outcome) (o o2 : outcome)
    (k : jsstring → list outcome) :
  (∀ x, In x os1 → k (fst x) = []) →
  head (k (fst o)) = Some o2 →
  head (then_run (os1 ++ o :: os2) k) = Some (fst o2, snd o ++ snd o2).
Proof.
  intros Hdead Hlive. rewrite then_run_app.
  replace (then_run os1 k) with (@nil outcome).
  - unfold then_run. cbn [app flat_map].
    destruct (k (fst o)) as [|o' os]; [ discriminate Hlive | ].
    injection Hlive as ->. reflexivity.
  - symmetry. unfold then_run. apply flat_map_nothing.
    intros x Hx. rewrite (Hdead x Hx). reflexivity.
Qed.

Lemma skip_keeps p s c : In c (skip p s) → In c s.
Proof.
  induction s as [|d s IH]; cbn [skip]; [ intros [] | ].
  destruct (p d); [ | intros H; exact H ].
  intros H. right. exact (IH H).
Qed.

Lemma skip_app_stop p s t c :
  p c = false → skip p ((s ++ [c]) ++ t) = skip p (s ++ [c]) ++ t.
Proof.
  intros Hc. induction s as [|d s IH]; cbn [app skip].
  - rewrite Hc. reflexivity.
  - destruct (p d); [ exact IH | reflexivity ].
Qed.

Lemma skip_stop_nonempty p s c : p c = false → skip p (s ++ [c]) ≠ [].
Proof.
  intros Hc. induction s as [|d s IH]; cbn [app skip].
  - rewrite Hc. discriminate.
  - destruct (p d); [ exact IH | discriminate ].
Qed.

Lemma ws_not_colon c : is_ws c = true → is_colon c = false.
Proof.
  intros Hws. destruct (is_colon c) eqn:Hc; [ | reflexivity ].
  unfold is_colon, one_of in Hc. apply existsb_exists in Hc as (x & Hx & E).
  apply N.eqb_eq in E. subst x.
  assert (Hall : forallb (fun x => negb (is_ws x)) (u ":：") = true)
    by (vm_compute; reflexivity).
  rewrite forallb_forall in Hall. specialize (Hall c Hx).
  rewrite Hws in Hall. discriminate Hall.
Qed.

Lemma span_all p s : forallb p s = true → span p s = length s.
Proof.
  intros H. rewrite <- (app_nil_r s) at 1.
  rewrite (span_app_all p s [] H). cbn [span]. lia.
Qed.

Lemma run_inline_text gap text c rest :
  forallb is_ws gap = true →
  text = c :: rest → is_ws c = false →
  forallb is_dot text = true →
  head (run inline_text (gap ++ text)) = Some ([], [text]).
Proof.
  intros Hgap Htext Hc Hdot. unfold inline_text.
  apply head_rep_then; [ lia | ].
  rewrite (skip_app_all _ _ _ Hgap), Htext, (skip_stop _ _ _ Hc), <- Htext.
  rewrite run_cat. cbn [run].
  assert (Hlen : 1 ≤ span is_dot text)
    by (rewrite (span_all _ _ Hdot), Htext; cbn [length]; lia).
  rewrite (rev_counts _ _ _ Hlen). cbn [map].
  rewrite (span_all _ _ Hdot), drop_all.
  unfold then_run. cbn [flat_map fst snd map app head].
  unfold consumed. cbn [length]. rewrite Nat.sub_0_r, firstn_all.
  reflexivity.
Qed.

Lemma run_inline_colon s :
  run inline_colon s = run (Cat (Chr is_colon) inline_text) (skip is_ws s).
Proof.
  unfold inline_colon.
  rewrite (run_rep_then is_ws is_colon 0 _ s ws_not_colon
             (starts_with_chr _ _)).
  reflexivity.
Qed.

(** Inside the name nothing matches: the next unit outside white space is
    no colon. *)
Lemma run_inline_colon_in_name s d t :
  forallb (fun c => negb (is_colon c)) (s ++ [d]) = true →
  is_ws d = false →
  run inline_colon ((s ++ [d]) ++ t) = [].
Proof.
  intros Hname Hd. rewrite run_inline_colon.
  rewrite (skip_app_stop _ _ _ _ Hd).
  destruct (skip is_ws (s ++ [d])) as [|c r] eqn:E;
    [ exfalso; exact (skip_stop_nonempty _ _ _ Hd E) | ].
  assert (Hc : In c (s ++ [d]))
    by (apply (skip_keeps is_ws); rewrite E; left; reflexivity).
  rewrite forallb_forall in Hname. specialize (Hname c Hc).
  apply negb_true_iff in Hname.
  cbn [app]. apply starts_with_chr. exact Hname.
Qed.

Lemma run_inline_colon_at gap1 colon gap2 text c rest :
  forallb is_ws gap1 = true → is_colon colon = true →
  forallb is_ws gap2 = true →
  text = c :: rest → is_ws c = false → forallb is_dot text = true →
  head (run inline_colon (gap1 ++ colon :: gap2 ++ text))
  = Some ([], [text]).
Proof.
  intros Hg1 Hcolon Hg2 Htext Hc Hdot. rewrite run_inline_colon.
  rewrite (skip_app_all _ _ _ Hg1).
  assert (Hcw : is_ws colon = false).
  { destruct (is_ws colon) eqn:E; [ | reflexivity ].
    rewrite (ws_not_colon _ E) in Hcolon. discriminate Hcolon. }
  rewrite (skip_stop _ _ _ Hcw). rewrite run_cat. cbn [run].
  rewrite Hcolon. unfold then_run. cbn [flat_map fst snd].
  rewrite app_nil_r.
  pose proof (run_inline_text gap2 text c rest Hg2 Htext Hc Hdot) as H.
  destruct (run inline_text (gap2 ++ text)) as [|o os]; [ discriminate H | ].
  injection H as ->. reflexivity.
Qed.

Lemma consumed_drop s k : k ≤ length s → consumed s (drop k s) = take k s.
Proof.
  intros Hk. unfold consumed. rewrite length_drop.
  f_equal. lia.
Qed.

Lemma seq_split_at (n m : nat) :
  1 ≤ n → n ≤ m → seq 1 m = seq 1 (n - 1) ++ n :: seq (S n) (m - n).
Proof.
  intros H1 Hn. replace m with ((n - 1) + S (m - n)) at 1 by lia.
  rewrite seq_app. replace (1 + (n - 1)) with n by lia. reflexivity.
Qed.

(** The shape of a line that splits: a name without colon that ends outside
    white space, white space, a colon, white space, and a text that starts
    outside white space and has no line terminator. *)
Lemma exec_INLINE_RE (name gap1 gap2 text name' text' : jsstring)
    (colon c d : N) :
  name = name' ++ [d] → is_ws d = false →
  length name ≤ 60 →
  forallb (fun x => negb (is_colon x)) name = true →
  forallb is_ws gap1 = true → is_colon colon = true →
  forallb is_ws gap2 = true →
  text = c :: text' → is_ws c = false → forallb is_dot text = true →
  exec_start INLINE_RE (name ++ gap1 ++ colon :: gap2 ++ text)
  = Some [name; text].
Proof.
  intros Hname Hd Hlen Hnocolon Hg1 Hcolon Hg2 Htext Hc Hdot.
  set (line := name ++ gap1 ++ colon :: gap2 ++ text).
  rewrite exec_start_head.
  change INLINE_RE
    with (Cat (Grp (RepLazy (fun x => negb (is_colon x)) 1 (Some 60)))
            inline_colon).
  rewrite run_cat.
  change (run (Grp (RepLazy (fun x => negb (is_colon x)) 1 (Some 60))) line)
    with (map (fun o : outcome => (fst o, consumed line (fst o) :: snd o))
            (map (fun k => (drop k line, @nil jsstring))
               (rep_counts (fun x => negb (is_colon x)) 1 (Some 60) line))).
  rewrite map_map. cbn [fst snd].
  (* the counts the lazy group tries, up to the length of the name *)
  assert (Hn : 1 ≤ length name)
    by (rewrite Hname, length_app; cbn [length]; lia).
  assert (Hspan : length name ≤ span (fun x => negb (is_colon x)) line).
  { unfold line. rewrite (span_app_all _ _ _ Hnocolon). lia. }
  unfold rep_counts.
  set (m := Nat.min (span (fun x => negb (is_colon x)) line) 60).
  replace (S m - 1) with m by lia.
  rewrite (seq_split_at (length name) m Hn) by (unfold m; lia).
  rewrite map_app. cbn [map].
  rewrite (head_then_run _ _ _ ([], [text])); [ | | cbn [fst] ].
  - cbn [fst snd fmap option_fmap option_map app].
    rewrite consumed_drop
      by (unfold line; rewrite length_app; lia).
    unfold line. rewrite take_app_length. reflexivity.
  - (* a shorter group stops inside the name *)
    intros x Hx. apply in_map_iff in Hx as (k & <- & Hk). cbn [fst].
    apply in_seq in Hk. unfold line.
    rewrite drop_app_le by lia.
    assert (Hk' : k ≤ length name') by
      (rewrite Hname, length_app in Hk; cbn [length] in Hk; lia).
    rewrite Hname, (drop_app_le _ _ _ Hk').
    apply run_inline_colon_in_name; [ | exact Hd ].
    rewrite Hname in Hnocolon.
    rewrite <- (take_drop k name'), <- app_assoc, forallb_app in Hnocolon.
    apply andb_true_iff in Hnocolon as [_ H]. exact H.
  - unfold line. rewrite drop_app_length.
    exact (run_inline_colon_at gap1 colon gap2 text c text'
             Hg1 Hcolon Hg2 Htext Hc Hdot).
Qed.

(** A class and a finite list of units that avoid each other. *)
Lemma one_of_avoids (l : jsstring) (C : N → bool) :
  forallb (fun x => negb (C x)) l = true →
  ∀ c, one_of l c = true → C c = false.
Proof.
  intros Hall c Hc. unfold one_of in Hc.
  apply existsb_exists in Hc as (x & Hx & E). apply N.eqb_eq in E. subst x.
  rewrite forallb_forall in Hall. specialize (Hall c Hx).
  apply negb_true_iff in Hall. exact Hall.
Qed.

Lemma name_unit_not_colon c : is_name_unit c = true → is_colon c = false.
Proof.
  intros H. destruct (is_colon c) eqn:E; [ | reflexivity ].
  rewrite (one_of_avoids (u ":：") is_name_unit) in H;
    [ discriminate H | vm_compute; reflexivity | exact E ].
Qed.

Lemma name_unit_not_bullet c : is_name_unit c = true → is_bullet c = false.
Proof.
  intros H. destruct (is_bullet c) eqn:E; [ | reflexivity ].
  rewrite (one_of_avoids bullet_glyphs is_name_unit) in H;
    [ discriminate H | vm_compute; reflexivity | exact E ].
Qed.

Lemma colon_not_lead c : is_colon c = true → is_lead c = false.
Proof.
  apply (one_of_avoids (u ":：") is_lead). vm_compute. reflexivity.
Qed.

Lemma colon_not_bullet c : is_colon c = true → is_bullet c = false.
Proof.
  apply (one_of_avoids (u ":：") is_bullet). vm_compute. reflexivity.
Qed.

(** No bullet is stripped from a line whose first unit out of the leading
    marks is no bullet. *)
Lemma no_bullet_to_strip (front back : jsstring) (c : N) :
  forallb (fun x => negb (is_bullet x)) front = true →
  is_lead c = false → is_bullet c = false →
  stripLeadingBullets (front ++ c :: back) = front ++ c :: back.
Proof.
  intros Hfront Hlead Hbullet. rewrite stripLeadingBullets_closed.
  replace (span is_bullet (skip is_lead (front ++ c :: back))) with 0;
    [ reflexivity | ].
  induction front as [|a front IH]; cbn [app skip].
  - rewrite Hlead. cbn [span]. rewrite Hbullet. reflexivity.
  - cbn [forallb] in Hfront. apply andb_true_iff in Hfront as [Ha Hfront].
    apply negb_true_iff in Ha.
    destruct (is_lead a); [ exact (IH Hfront) | ].
    cbn [span]. rewrite Ha. reflexivity.
Qed.

Lemma nonempty_first (s : jsstring) : s ≠ [] → ∃ c s', s = c :: s'.
Proof. destruct s as [|c s]; [ congruence | ]. intros _. by exists c, s. Qed.

Lemma nonempty_last (s : jsstring) : s ≠ [] → ∃ s' d, s = s' ++ [d].
Proof.
  destruct s as [|c s] using rev_ind; [ congruence | ].
  intros _. exists s, c. reflexivity.
Qed.

(** The line of a name that matches [CHARACTER_RE], a colon and a text on
    one line parses as that name and that text. *)
Lemma parseInline_of_shape (name gap1 gap2 text : jsstring) (colon : N) :
  name ≠ [] → trim name = name → length name ≤ 60 →
  test_start CHARACTER_RE (name ++ u ":") = true →
  forallb is_ws gap1 = true → is_colon colon = true →
  forallb is_ws gap2 = true →
  text ≠ [] → trim text = text → forallb is_dot text = true →
  let line := name ++ gap1 ++ colon :: gap2 ++ text in
  trim line = line
  ∧ stripLeadingBullets line = line
  ∧ parseInlineCharacterDialogue line
    = Some {| characterName := name; dialogueText := text |}.
Proof.
  intros Hne Htrim Hlen Hre Hg1 Hcolon Hg2 Hte Httrim Hdot line.
  pose proof (name_units_of_CHARACTER_RE name Hre) as Hunits.
  destruct (nonempty_first name Hne) as (c0 & name0 & En).
  destruct (nonempty_last name Hne) as (name' & d & Hname).
  destruct (nonempty_first text Hte) as (c & text' & Et).
  destruct (nonempty_last text Hte) as (text0 & e & Htext).
  assert (Hc0 : is_ws c0 = false)
    by (apply (trim_first name c0 name0); rewrite Htrim; exact En).
  assert (Hd : is_ws d = false)
    by (apply (trim_last name name' d); rewrite Htrim; exact Hname).
  assert (Hc : is_ws c = false)
    by (apply (trim_first text c text'); rewrite Httrim; exact Et).
  assert (He : is_ws e = false)
    by (apply (trim_last text text0 e); rewrite Httrim; exact Htext).
  assert (Hnocolon : forallb (fun x => negb (is_colon x)) name = true).
  { rewrite forallb_forall in Hunits |- *. intros x Hx.
    rewrite (name_unit_not_colon x (Hunits x Hx)). reflexivity. }
  assert (Hline : trim line = line).
  { unfold line. rewrite En, Htext.
    replace ((c0 :: name0) ++ gap1 ++ colon :: gap2 ++ text0 ++ [e])
      with (c0 :: (name0 ++ gap1 ++ colon :: gap2 ++ text0) ++ [e])
      by (cbn [app]; rewrite <- !app_assoc; cbn [app];
          rewrite <- !app_assoc; reflexivity).
    apply trim_fixed; assumption. }
  split; [ exact Hline | ].
  split.
  - unfold line. rewrite app_assoc.
    apply no_bullet_to_strip.
    + rewrite forallb_app. apply andb_true_iff. split.
      * rewrite forallb_forall in Hunits |- *. intros x Hx.
        rewrite (name_unit_not_bullet x (Hunits x Hx)). reflexivity.
      * rewrite forallb_forall in Hg1 |- *. intros x Hx.
        rewrite (name_unit_not_bullet x (ws_is_name_unit x (Hg1 x Hx))).
        reflexivity.
    + exact (colon_not_lead _ Hcolon).
    + exact (colon_not_bullet _ Hcolon).
  - unfold parseInlineCharacterDialogue. cbv zeta. rewrite Hline.
    unfold line.
    rewrite (exec_INLINE_RE name gap1 gap2 text name' text' colon c d
               Hname Hd Hlen Hnocolon Hg1 Hcolon Hg2 Et Hc Hdot).
    rewrite Htrim, Httrim, Hre. rewrite En at 1. rewrite Et at 1.
    reflexivity.
Qed.

End InlineSplit.

Section InlineSplitInThePipeline.

Context {host : Host}.
Variable toLowerCase : jsstring -> jsstring.
Variable CSS : Type.
Variable getFormatStylesFn : jsstring -> jsstring -> jsstring -> CSS.

(** C3, amended. A line NAME, colon, TEXT (the colon ASCII or full width,
    white space allowed on either side of it), where NAME has at most 60
    units and matches [CHARACTER_RE] once the colon is appended and TEXT has
    no line terminator inside, is split into a character block holding NAME
    and a dialogue block holding TEXT with margin zero, whatever the position
    in the batch, the history and the memory; in particular the line of the
    specification gives the character block of its name and the dialogue
    block of its text. *)
Theorem processLine_inline_split
    (memoryManager : option (jsstring -> LoadOutcome)) (sessionId : jsstring) :
  (∀ (lines : list jsstring) (i : nat) (st : PasteState CSS)
     (name gap1 gap2 text : jsstring) (colon : N),
     name ≠ [] → trim name = name → length name ≤ 60 →
     test_start CHARACTER_RE (name ++ u ":") = true →
     forallb is_ws gap1 = true → is_colon colon = true →
     forallb is_ws gap2 = true →
     text ≠ [] → trim text = text → forallb is_dot text = true →
     line_at lines i = name ++ gap1 ++ colon :: gap2 ++ text →
     processLine toLowerCase CSS getFormatStylesFn lines memoryManager
       sessionId i st
     = Returned
         {| formattedHTML :=
              formattedHTML st
              ++ [Line {| lineClass := u "format-character";
                          lineStyles :=
                            getFormatStylesFn (u "character") [] [];
                          lineMarginTop :=
                            applied_margin
                              (Some (getSpacingMarginTop
                                       (previousFormatClass st)
                                       (u "character")));
                          lineText := name |};
                  Line {| lineClass := u "format-dialogue";
                          lineStyles :=
                            getFormatStylesFn (u "dialogue") [] [];
                          lineMarginTop := Some (u "0");
                          lineText := text |}];
            previousFormatClass := u "dialogue";
            classifiedTypes :=
              classifiedTypes st ++ [u "character"; u "dialogue"] |})
  ∧ pasted_lines
      (handlePaste toLowerCase CSS getFormatStylesFn (u "علي: أين أنت؟") true
         memoryManager sessionId)
    = Some [(u "format-character", u "علي", Some (u "14pt"));
            (u "format-dialogue", u "أين أنت؟", Some (u "0"))].
Proof.
  split; [ | vm_compute; reflexivity ].
  intros lines i st name gap1 gap2 text colon
    Hne Htrim Hlen Hre Hg1 Hcolon Hg2 Hte Httrim Hdot Hline.
  destruct (parseInline_of_shape name gap1 gap2 text colon
              Hne Htrim Hlen Hre Hg1 Hcolon Hg2 Hte Httrim Hdot)
    as (Htrimmed & Hstripped & Hparse).
  unfold processLine. cbv zeta.
  rewrite Hline, Htrimmed, Hstripped, Hparse.
  destruct name as [|c0 name0]; [ congruence | ].
  cbn [app truthy negb characterName dialogueText].
  unfold buildLineDivHTML.
  replace (applied_margin (Some (u "0"))) with (Some (u "0"))
    by (vm_compute; reflexivity).
  reflexivity.
Qed.

End InlineSplitInThePipeline.

(** C3 as stated fails: a name of 64 units that [CHARACTER_RE] accepts is
    past the 60 units the inline pattern allows before the colon, and a text
    with a carriage return inside is no match of its second group; both
    lines come out as one action block. *)
Lemma handlePaste_inline_split_counterexample :
  (trim long_name = long_name
   ∧ test_start CHARACTER_RE (long_name ++ u ":") = true
   ∧ pasted_classes
       (handlePaste lower_ascii jsstring styles_by_name
          (long_name ++ u ": " ++ u "أين أنت؟") true None (u "s"))
     = Some [u "format-action"])
  ∧ (test_start CHARACTER_RE (u "علي" ++ u ":") = true
     ∧ pasted_classes
         (handlePaste lower_ascii jsstring styles_by_name
            (u "علي" ++ u ": " ++ text_with_return) true None (u "s"))
       = Some [u "format-action"]).
Proof. repeat split; vm_compute; reflexivity. Qed.

(** The amended C3 at the line of the specification, first in its batch. *)
Lemma processLine_inline_split_witness :
  test_start CHARACTER_RE (u "علي" ++ u ":") = true
  ∧ pasted_lines
      (processLine lower_ascii jsstring styles_by_name
         [u "علي" ++ [] ++ 58%N :: [32%N] ++ u "أين أنت؟"] None (u "s") 0
         (initialState jsstring))
    = Some [(u "format-character", u "علي", Some (u "14pt"));
            (u "format-dialogue", u "أين أنت؟", Some (u "0"))].
Proof.
  assert (Hre : test_start CHARACTER_RE (u "علي" ++ u ":") = true)
    by (vm_compute; reflexivity).
  split; [ exact Hre | ].
  rewrite (proj1 (processLine_inline_split lower_ascii jsstring
                    styles_by_name None (u "s"))
             [u "علي" ++ [] ++ 58%N :: [32%N] ++ u "أين أنت؟"] 0
             (initialState jsstring) (u "علي") [] [32%N] (u "أين أنت؟")
             58%N).
  - vm_compute. reflexivity.
  - vm_compute. discriminate.
  - vm_compute. reflexivity.
  - vm_compute. lia.
  - exact Hre.
  - reflexivity.
  - vm_compute. reflexivity.
  - reflexivity.
  - vm_compute. discriminate.
  - vm_compute. reflexivity.
  - vm_compute. reflexivity.
  - reflexivity.
Defined.

(** ** Basmala *)

Section Basmala.

Implicit Types (p C : N -> bool) (s t x y z : jsstring).

(** *** Searching a literal around units that avoid it *)

Lemma avoids_tail a t c : avoids (a :: t) c = true → avoids t c = true.
Proof.
  unfold avoids. cbn [forallb]. intros H.
  apply andb_true_iff in H as [_ H]. exact H.
Qed.

Lemma test_start_StrI t s :
  test_start (StrI t) s
  = match strip_prefix (fun a b => (fold_case a =? fold_case b)%N) t s with
    | Some _ => true
    | None => false
    end.
Proof.
  unfold test_start. cbn [run].
  destruct (strip_prefix _ t s); reflexivity.
Qed.

Lemma test_start_avoided a t c s :
  avoids (a :: t) c = true → test_start (StrI (a :: t)) (c :: s) = false.
Proof.
  intros H. rewrite test_start_StrI. cbn [strip_prefix].
  unfold avoids in H. cbn [forallb] in H.
  apply andb_true_iff in H as [H _]. apply negb_true_iff in H.
  rewrite H. reflexivity.
Qed.

Lemma test_after_avoided a t front s :
  forallb (avoids (a :: t)) front = true →
  test (StrI (a :: t)) (front ++ s) = test (StrI (a :: t)) s.
Proof.
  induction front as [|c front IH]; [ reflexivity | ].
  cbn [forallb app]. intros H. apply andb_true_iff in H as [Hc H].
  cbn [test]. rewrite (test_start_avoided a t c _ Hc). exact (IH H).
Qed.

Lemma test_start_before_avoided t s back :
  forallb (avoids t) back = true →
  test_start (StrI t) (s ++ back) = test_start (StrI t) s.
Proof.
  intros Hback. rewrite !test_start_StrI. revert s.
  induction t as [|a t IH]; intros s; [ reflexivity | ].
  assert (Ht : forallb (avoids t) back = true).
  { rewrite forallb_forall in Hback |- *. intros c Hc.
    exact (avoids_tail a t c (Hback c Hc)). }
  destruct s as [|c s]; cbn [app strip_prefix].
  - destruct back as [|b back]; [ reflexivity | ].
    cbn [forallb] in Hback. apply andb_true_iff in Hback as [Hb _].
    unfold avoids in Hb. cbn [forallb] in Hb.
    apply andb_true_iff in Hb as [Hb _]. apply negb_true_iff in Hb.
    rewrite Hb. reflexivity.
  - destruct (fold_case a =? fold_case c)%N; [ | reflexivity ].
    exact (IH Ht s).
Qed.

Lemma test_before_avoided a t s back :
  forallb (avoids (a :: t)) back = true →
  test (StrI (a :: t)) (s ++ back) = test (StrI (a :: t)) s.
Proof.
  intros Hback. induction s as [|c s IH].
  - cbn [app]. rewrite <- (app_nil_r back).
    exact (test_after_avoided a t back [] Hback).
  - cbn [app test].
    rewrite <- IH.
    change (c :: s ++ back) with ((c :: s) ++ back).
    rewrite (test_start_before_avoided _ _ _ Hback). reflexivity.
Qed.

Lemma test_same_core t x y :
  truthy t = true → same_core t x y →
  test (StrI t) x = test (StrI t) y.
Proof.
  intros Ht (a & b & -> & Ha & Hb).
  destruct t as [|c t]; [ discriminate Ht | ].
  rewrite (test_after_avoided c t a _ Ha).
  exact (test_before_avoided c t y b Hb).
Qed.

(** *** The relation through the steps of the normaliser *)

Lemma same_core_refl t x : same_core t x x.
Proof. exists [], []. rewrite app_nil_r. repeat split. Qed.

Lemma same_core_trans t x y z :
  same_core t x y → same_core t y z → same_core t x z.
Proof.
  intros (a & b & -> & Ha & Hb) (a' & b' & -> & Ha' & Hb').
  exists (a ++ a'), (b' ++ b). split.
  - rewrite <- !app_assoc. reflexivity.
  - rewrite !forallb_app, Ha, Ha', Hb, Hb'. split; reflexivity.
Qed.

Lemma forallb_filter C p (l : jsstring) :
  forallb C l = true → forallb C (List.filter p l) = true.
Proof.
  rewrite !forallb_forall. intros H c Hc. apply filter_In in Hc as [Hc _].
  exact (H c Hc).
Qed.

Lemma same_core_remove t p x y :
  same_core t x y → same_core t (remove_all p x) (remove_all p y).
Proof.
  intros (a & b & -> & Ha & Hb). unfold remove_all.
  exists (List.filter (fun c => negb (p c)) a),
         (List.filter (fun c => negb (p c)) b).
  rewrite !List.filter_app. split; [ reflexivity | ].
  split; apply forallb_filter; assumption.
Qed.

Lemma same_core_skip t p x :
  (∀ c, p c = true → avoids t c = true) → same_core t x (skip p x).
Proof.
  intros Hp. destruct (skip_split p x) as (a & Ha & Hpa).
  exists a, []. rewrite app_nil_r. split; [ exact Ha | ].
  split; [ | reflexivity ].
  exact (forallb_weaken _ _ _ Hp Hpa).
Qed.

Lemma same_core_trim t x :
  (∀ c, is_ws c = true → avoids t c = true) → same_core t x (trim x).
Proof.
  intros Hws. destruct (trim_split x) as (a & b & E & Ha & Hb).
  exists a, b. split; [ exact E | ].
  split; [ exact (forallb_weaken _ _ _ Hws Ha)
         | exact (forallb_weaken _ _ _ Hws Hb) ].
Qed.

(** A class that holds no unit of a literal above the ASCII letters is
    avoided by it. *)
Lemma avoids_class C t :
  forallb (fun a => (122 <? a)%N && negb (C a)) t = true →
  ∀ c, C c = true → avoids t c = true.
Proof.
  intros Ht c Hc. unfold avoids. apply forallb_forall. intros a Ha.
  rewrite forallb_forall in Ht. specialize (Ht a Ha).
  apply andb_true_iff in Ht as [Hhigh Hout].
  apply N.ltb_lt in Hhigh. apply negb_true_iff in Hout.
  apply negb_true_iff, N.eqb_neq. unfold fold_case, between.
  destruct ((97 <=? a)%N && (a <=? 122)%N) eqn:Ea.
  { apply andb_true_iff in Ea as [_ Ea]. apply N.leb_le in Ea. lia. }
  destruct ((97 <=? c)%N && (c <=? 122)%N) eqn:Ec.
  - apply andb_true_iff in Ec as [_ Ec]. apply N.leb_le in Ec. lia.
  - intros ->. congruence.
Qed.

Lemma stays_inside_classes t :
  stays_inside t = true →
  truthy t = true
  ∧ (∀ c, is_lead c = true → avoids t c = true)
  ∧ (∀ c, is_ws c = true → avoids t c = true)
  ∧ (∀ c, is_bullet c = true → avoids t c = true).
Proof.
  unfold stays_inside. intros H. apply andb_true_iff in H as [Ht H].
  split; [ exact Ht | ].
  rewrite forallb_forall in H.
  repeat split; apply avoids_class; apply forallb_forall; intros a Ha;
    specialize (H a Ha);
    apply andb_true_iff in H as [H Hb]; apply andb_true_iff in H as [H Hw];
    apply andb_true_iff in H as [Hh Hl]; rewrite Hh; cbn [andb]; assumption.
Qed.

Lemma same_core_stripLeadingBullets t x :
  stays_inside t = true → same_core t x (stripLeadingBullets x).
Proof.
  intros Ht. destruct (stays_inside_classes t Ht) as (_ & Hl & Hw & Hb).
  rewrite stripLeadingBullets_closed.
  destruct (1 <=? _)%nat; [ | apply same_core_refl ].
  eapply same_core_trans; [ exact (same_core_skip t is_lead x Hl) | ].
  eapply same_core_trans; [ exact (same_core_skip t is_bullet _ Hb) | ].
  exact (same_core_skip t is_ws _ Hw).
Qed.

Lemma same_core_normalizeLine t x :
  stays_inside t = true →
  same_core t (remove_all is_mark_or_tab (remove_all is_tashkeel x))
    (normalizeLine x).
Proof.
  intros Ht. destruct (stays_inside_classes t Ht) as (_ & Hl & Hw & Hb).
  unfold normalizeLine. rewrite strip_in_normalizeLine_closed.
  destruct (1 <=? _)%nat.
  - eapply same_core_trans; [ exact (same_core_skip t is_lead _ Hl) | ].
    eapply same_core_trans; [ exact (same_core_skip t is_bullet _ Hb) | ].
    exact (same_core_trim t _ Hw).
  - exact (same_core_trim t _ Hw).
Qed.

(** The token tests of [isBasmala] see the line as the five removals leave
    it. *)
Lemma basmala_compact_core t line :
  stays_inside t = true →
  same_core t (basmala_units line)
    (remove_all (fun c => negb (is_arabic c || is_ws c))
       (normalizeLine
          (trim (remove_all (one_of [0x200F; 0x200E; 0xFEFF]%N)
                   (remove_all (one_of (u "{}()[]")) line))))).
Proof.
  intros Ht. destruct (stays_inside_classes t Ht) as (_ & Hl & Hw & Hb).
  unfold basmala_units. apply same_core_remove.
  eapply same_core_trans; [ | exact (same_core_normalizeLine t _ Ht) ].
  do 2 apply same_core_remove. exact (same_core_trim t _ Hw).
Qed.

Lemma basmala_units_stripped t line :
  stays_inside t = true →
  same_core t (basmala_units line)
    (basmala_units (stripLeadingBullets (trim line))).
Proof.
  intros Ht. destruct (stays_inside_classes t Ht) as (_ & Hl & Hw & Hb).
  unfold basmala_units. do 5 apply same_core_remove.
  eapply same_core_trans; [ exact (same_core_trim t _ Hw) | ].
  exact (same_core_stripLeadingBullets t _ Ht).
Qed.

Lemma basmala_token_test t line :
  stays_inside t = true →
  test (StrI t)
    (remove_all (fun c => negb (is_arabic c || is_ws c))
       (normalizeLine
          (trim (remove_all (one_of [0x200F; 0x200E; 0xFEFF]%N)
                   (remove_all (one_of (u "{}()[]")) line)))))
  = test (StrI t) (basmala_units line).
Proof.
  intros Ht. destruct (stays_inside_classes t Ht) as (Htruthy & _).
  symmetry. exact (test_same_core t _ _ Htruthy (basmala_compact_core t line Ht)).
Qed.

(** The test sees the same on a line and on the line trimmed and stripped of
    its leading bullets, which is what the paste handler classifies. *)
Lemma isBasmala_stripped line :
  isBasmala (stripLeadingBullets (trim line)) = isBasmala line.
Proof.
  assert (Htokens : forallb stays_inside basmala_tokens = true)
    by (vm_compute; reflexivity).
  unfold basmala_tokens in Htokens. cbn [forallb] in Htokens.
  apply andb_true_iff in Htokens as [H1 Htokens].
  apply andb_true_iff in Htokens as [H2 Htokens].
  apply andb_true_iff in Htokens as [H3 Htokens].
  apply andb_true_iff in Htokens as [H4 _].
  unfold isBasmala. cbv zeta.
  rewrite !basmala_token_test by assumption.
  rewrite <- (test_same_core _ _ _ (proj1 (stays_inside_classes _ H1))
                (basmala_units_stripped _ line H1)).
  rewrite <- (test_same_core _ _ _ (proj1 (stays_inside_classes _ H2))
                (basmala_units_stripped _ line H2)).
  rewrite <- (test_same_core _ _ _ (proj1 (stays_inside_classes _ H3))
                (basmala_units_stripped _ line H3)).
  rewrite <- (test_same_core _ _ _ (proj1 (stays_inside_classes _ H4))
                (basmala_units_stripped _ line H4)).
  reflexivity.
Qed.

Lemma isBasmala_not_blank line :
  isBasmala line = true → truthy (trim line) = true.
Proof.
  intros H. rewrite <- isBasmala_stripped in H.
  destruct (trim line); [ | reflexivity ].
  vm_compute in H. discriminate H.
Qed.

End Basmala.

Section BasmalaInThePipeline.

Context {host : Host}.
Variable toLowerCase : jsstring -> jsstring.
Variable CSS : Type.
Variable getFormatStylesFn : jsstring -> jsstring -> jsstring -> CSS.

(** C2, amended. A line that passes the basmala test is labelled basmala by
    [classifyWithContext] in every context, and the paste handler emits it as
    one basmala block whatever its position in the batch and the label
    history, provided the stripped line is no inline NAME: TEXT split and the
    session memory is not consulted (no manager, no record, or a failing
    store). *)
Theorem processLine_basmala :
  (∀ (line : jsstring) (ctx : LineContext),
     isBasmala line = true → classifyWithContext line ctx = u "basmala")
  ∧ (∀ (lines : list jsstring)
       (memoryManager : option (jsstring -> LoadOutcome))
       (sessionId : jsstring) (i : nat) (st : PasteState CSS),
       let strippedLine := stripLeadingBullets (trim (line_at lines i)) in
       isBasmala (line_at lines i) = true →
       parseInlineCharacterDialogue strippedLine = None →
       (memoryManager = None
        ∨ ∃ manager, memoryManager = Some manager
                     ∧ (manager sessionId = NotFound
                        ∨ ∃ error, manager sessionId = Rejected error)) →
       processLine toLowerCase CSS getFormatStylesFn lines memoryManager
         sessionId i st
       = Returned
           {| formattedHTML :=
                formattedHTML st
                ++ [Line {| lineClass := format_class (u "basmala");
                            lineStyles :=
                              getFormatStylesFn (u "basmala") [] [];
                            lineMarginTop :=
                              applied_margin
                                (Some (getSpacingMarginTop
                                         (previousFormatClass st)
                                         (u "basmala")));
                            lineText := strippedLine |}];
              previousFormatClass := u "basmala";
              classifiedTypes := classifiedTypes st ++ [u "basmala"] |}).
Proof.
  assert (Hrule : ∀ line ctx, isBasmala line = true →
                              classifyWithContext line ctx = u "basmala").
  { intros line ctx H. unfold classifyWithContext. cbv zeta.
    rewrite H. reflexivity. }
  split; [ exact Hrule | ].
  intros lines memoryManager sessionId i st strippedLine Hline Hinline Hmem.
  unfold processLine. cbv zeta. fold strippedLine.
  rewrite (isBasmala_not_blank _ Hline), Hinline. cbn [negb].
  rewrite (classifyWithContextAndMemory_without_memory toLowerCase
             strippedLine _ memoryManager sessionId Hmem).
  assert (Hstripped : isBasmala strippedLine = true)
    by (unfold strippedLine; rewrite isBasmala_stripped; exact Hline).
  rewrite (Hrule strippedLine _ Hstripped). cbn [and_then].
  replace (jseq (u "basmala") (u "scene-header-top-line")) with false
    by (vm_compute; reflexivity).
  reflexivity.
Qed.

End BasmalaInThePipeline.

(** C2 as stated fails: a line that passes the basmala test and has a colon
    after a name-like prefix is split into a character and a dialogue block
    before any classification, and with a session memory that knows a name
    the line contains, a basmala of three words is relabelled character. *)
Lemma handlePaste_basmala_counterexample :
  (isBasmala (u "بسم الله: الرحمن الرحيم") = true
   ∧ pasted_classes
       (handlePaste lower_ascii jsstring styles_by_name
          (u "بسم الله: الرحمن الرحيم") true None (u "s"))
     = Some [u "format-character"; u "format-dialogue"])
  ∧ (isBasmala (u "بسم الله الرحمن") = true
     ∧ pasted_classes
         (handlePaste lower_ascii jsstring styles_by_name
            (u "بسم الله الرحمن") true
            (Some (fun _ => Loaded (memory_knowing (u "الله")))) (u "s"))
       = Some [u "format-character"]).
Proof. repeat split; vm_compute; reflexivity. Qed.

(** The amended C2 at a bulleted basmala, first in its batch. *)
Lemma processLine_basmala_witness :
  isBasmala (u "• بسم الله الرحمن الرحيم") = true
  ∧ pasted_lines
      (processLine lower_ascii jsstring styles_by_name
         [u "• بسم الله الرحمن الرحيم"] None (u "s") 0
         (initialState jsstring))
    = Some [(u "format-basmala", u "بسم الله الرحمن الرحيم", None)].
Proof.
  assert (H : isBasmala (u "• بسم الله الرحمن الرحيم") = true)
    by (vm_compute; reflexivity).
  split; [ exact H | ].
  rewrite (proj2 (processLine_basmala lower_ascii jsstring styles_by_name)
             [u "• بسم الله الرحمن الرحيم"] None (u "s") 0
             (initialState jsstring)).
  - vm_compute. reflexivity.
  - exact H.
  - vm_compute. reflexivity.
  - left. reflexivity.
Defined.

(** ** The object heap *)

Section Heap.

Implicit Types (h : gmap loc object) (g : Graph) (v : ContextMemory).

Lemma alloc_fresh h o h' l :
  alloc h o = (h', l) → h !! l = None ∧ h' = <[l := o]> h.
Proof.
  unfold alloc. intros [= <- <-]. split; [ | reflexivity ].
  apply not_elem_of_dom. apply is_fresh.
Qed.

Lemma holds_stringify h g v : holds h g v → stringify h (g_root g) = Some v.
Proof.
  intros (Hr & Hd & Ha & Hb & Hc & Hm).
  unfold stringify, get_memory, get_data, get_array, get_dict.
  rewrite Hr. cbn. rewrite Hd. cbn. rewrite Ha, Hb, Hc, Hm. cbn.
  destruct v as [s t [cc cl lc cdm]]. reflexivity.
Qed.

Lemma holds_footprint h g v :
  holds h g v → footprint h (g_root g) = graph_locs g.
Proof.
  intros (Hr & Hd & _). unfold footprint, get_memory, get_data.
  rewrite Hr, Hd. reflexivity.
Qed.

(** A reference that reads as a value is the root of a graph holding it. *)
Lemma stringify_holds h l v :
  stringify h l = Some v → ∃ g, g_root g = l ∧ holds h g v.
Proof.
  unfold stringify, get_memory, get_data, get_array, get_dict.
  destruct (h !! l) as [[| | |s t d]|] eqn:Hr; try discriminate. cbn.
  destruct (h !! d) as [[| |a b c m|]|] eqn:Hd; try discriminate. cbn.
  destruct (h !! a) as [[cc| | |]|] eqn:Ha; try discriminate. cbn.
  destruct (h !! b) as [[cl| | |]|] eqn:Hb; try discriminate. cbn.
  destruct (h !! c) as [[lc| | |]|] eqn:Hc; try discriminate. cbn.
  destruct (h !! m) as [[|cdm| |]|] eqn:Hm; try discriminate. cbn.
  intros [= <-].
  exists {| g_root := l; g_data := d; g_characters := a; g_locations := b;
            g_classifications := c; g_map := m |}.
  split; [ reflexivity | ]. repeat split; assumption.
Qed.

(** [stringify] reads the footprint only. *)
Lemma stringify_frame h h2 l :
  (∀ x, In x (footprint h l) → h2 !! x = h !! x) →
  stringify h2 l = stringify h l.
Proof.
  unfold footprint, stringify, get_memory, get_data, get_array, get_dict.
  intros H.
  destruct (h !! l) as [[| | |s t d]|] eqn:Hr;
    try (rewrite (H l (or_introl eq_refl)), Hr; reflexivity).
  destruct (h !! d) as [[| |a b c m|]|] eqn:Hd;
    try (rewrite (H l (or_introl eq_refl)), Hr; cbn;
         rewrite (H d (or_intror (or_introl eq_refl))), Hd; reflexivity).
  cbn [In] in H.
  rewrite (H l), Hr by tauto. cbn.
  rewrite (H d), Hd by tauto. cbn.
  rewrite (H a), (H b), (H c), (H m) by tauto. reflexivity.
Qed.

(** [JSON.parse] builds its graph out of objects that did not exist, and
    leaves every other object alone. *)
Lemma parse_graph h v h' l :
  parse h v = (h', l) →
  ∃ g, g_root g = l ∧ holds h' g v ∧ separate g
       ∧ (∀ x, In x (graph_locs g) → h !! x = None)
       ∧ (∀ x, ¬ In x (graph_locs g) → h' !! x = h !! x).
Proof.
  unfold parse.
  destruct (alloc h _) as [h1 a] eqn:E1.
  destruct (alloc h1 _) as [h2 b] eqn:E2.
  destruct (alloc h2 _) as [h3 c] eqn:E3.
  destruct (alloc h3 _) as [h4 m] eqn:E4.
  destruct (alloc h4 _) as [h5 d] eqn:E5.
  intros E6.
  apply alloc_fresh in E1 as [F1 ->]. apply alloc_fresh in E2 as [F2 ->].
  apply alloc_fresh in E3 as [F3 ->]. apply alloc_fresh in E4 as [F4 ->].
  apply alloc_fresh in E5 as [F5 ->]. apply alloc_fresh in E6 as [F6 ->].
  repeat match goal with
         | H : <[_ := _]> _ !! _ = None |- _ =>
             apply lookup_insert_None in H as [H ?]
         end.
  exists {| g_root := l; g_data := d; g_characters := a; g_locations := b;
            g_classifications := c; g_map := m |}.
  split; [ reflexivity | ].
  split; [ | split; [ | split ] ].
  - unfold holds. cbn [g_root g_data g_characters g_locations
                         g_classifications g_map].
    repeat split; simplify_map_eq; reflexivity.
  - unfold separate. cbn. repeat split; congruence.
  - unfold graph_locs. cbn [g_root g_data g_characters g_locations
                              g_classifications g_map In].
    intros x Hx. intuition congruence.
  - unfold graph_locs. cbn [g_root g_data g_characters g_locations
                              g_classifications g_map In].
    intros x Hx. rewrite !lookup_insert_ne by tauto. reflexivity.
Qed.

End Heap.

(** ** The methods of the manager on the heap *)

Section Manager.

Context {host : Host}.

Implicit Types (h : gmap loc object) (g : Graph) (v : ContextMemory)
  (st : State).

(** Two references that lead to objects of different kinds differ. *)
Ltac differ :=
  let E := fresh in
  intros E; rewrite E in *; congruence.

Lemma agrees_refl h : agrees h h.
Proof. intros x _. reflexivity. Qed.

Lemma agrees_trans h1 h2 h3 : agrees h1 h2 → agrees h2 h3 → agrees h1 h3.
Proof.
  intros H12 H23 x Hx. rewrite <- (H12 x Hx). apply H23.
  rewrite (H12 x Hx). exact Hx.
Qed.

Lemma agrees_insert_fresh h l o : h !! l = None → agrees h (<[l := o]> h).
Proof.
  intros Hl x [y Hx]. rewrite lookup_insert_ne; [ reflexivity | ].
  intros ->. congruence.
Qed.

(** Writing outside the objects of [h0] keeps agreement with [h0]. *)
Lemma agrees_write h0 h l o :
  agrees h0 h → h0 !! l = None → agrees h0 (<[l := o]> h).
Proof.
  intros H Hl x Hx. rewrite lookup_insert_ne; [ exact (H x Hx) | ].
  intros ->. destruct Hx as [y Hy]. congruence.
Qed.

Lemma agrees_none h0 h l : agrees h0 h → h !! l = None → h0 !! l = None.
Proof.
  intros H Hl. destruct (h0 !! l) as [o|] eqn:E; [ | reflexivity ].
  rewrite (H l) in Hl by (rewrite E; eauto). congruence.
Qed.

Lemma set_data_same v : set_data v (data v) = v.
Proof. destruct v. reflexivity. Qed.

(** [memory.lastModified = t] *)
Lemma set_lastModified_holds h g v t :
  holds h g v →
  set_lastModified h (g_root g) t
  = Some (<[g_root g := OMemory (sessionId v) t (g_data g)]> h)
  ∧ holds (<[g_root g := OMemory (sessionId v) t (g_data g)]> h) g
      (touched v t).
Proof.
  intros (Hr & Hd & Ha & Hb & Hc & Hm).
  unfold set_lastModified, get_memory. rewrite Hr. cbn.
  split; [ reflexivity | ].
  unfold holds. cbn [touched sessionId lastModified data].
  rewrite lookup_insert_eq.
  rewrite !lookup_insert_ne by differ.
  repeat split; assumption.
Qed.

(** [memory.data.lastClassifications = arr] for a new array. *)
Lemma set_lastClassifications_holds h g v xs h' arr :
  holds h g v → separate g →
  alloc h (OArray xs) = (h', arr) →
  let g' := {| g_root := g_root g; g_data := g_data g;
               g_characters := g_characters g;
               g_locations := g_locations g;
               g_classifications := arr; g_map := g_map g |} in
  let h'' := <[g_data g := OData (g_characters g) (g_locations g) arr
                             (g_map g)]> h' in
  set_lastClassifications h' (g_root g) arr = Some h''
  ∧ holds h'' g' (set_data v (with_classifications (data v) xs))
  ∧ separate g'
  ∧ h !! arr = None.
Proof.
  intros (Hr & Hd & Ha & Hb & Hc & Hm) (Sab & Sac & Sbc) Halloc g' h''.
  apply alloc_fresh in Halloc as [Hfresh ->].
  assert (arr ≠ g_root g) by (intros ->; congruence).
  assert (arr ≠ g_data g) by (intros ->; congruence).
  assert (arr ≠ g_characters g) by (intros ->; congruence).
  assert (arr ≠ g_locations g) by (intros ->; congruence).
  assert (arr ≠ g_map g) by (intros ->; congruence).
  unfold set_lastClassifications, get_memory, get_data.
  rewrite lookup_insert_ne, Hr by assumption. cbn.
  rewrite lookup_insert_ne, Hd by assumption. cbn.
  split; [ reflexivity | ].
  split; [ | split; [ | exact Hfresh ] ].
  - unfold holds, h'', g'.
    cbn [g_root g_data g_characters g_locations g_classifications g_map
           set_data with_classifications sessionId lastModified data
           commonCharacters commonLocations lastClassifications
           characterDialogueMap].
    rewrite lookup_insert_eq.
    rewrite !(lookup_insert_ne _ (g_data g)) by differ.
    rewrite lookup_insert_eq.
    rewrite !lookup_insert_ne by congruence.
    repeat split; assumption.
  - unfold separate, g'. cbn. repeat split; congruence.
Qed.

(** The body of the loop over the records, on the graph and on the
    value. *)
Lemma remember_character_holds h g v record :
  holds h g v → separate g →
  ∃ h', remember_character (g_root g) h record = Some h'
        ∧ holds h' g
            (set_data v (remember_character_value (data v) record))
        ∧ (∀ x, ¬ In x (graph_locs g) → h' !! x = h !! x).
Proof.
  intros Hholds Hsep. pose proof Hholds as (Hr & Hd & Ha & Hb & Hc & Hm).
  destruct Hsep as (Sab & Sac & Sbc).
  unfold remember_character, remember_character_value.
  destruct (jseq (rec_classification record) (u "character"));
    [ | exists h; rewrite set_data_same; auto ].
  destruct (truthy (record_name record));
    [ | exists h; rewrite set_data_same; auto ].
  unfold get_memory, get_data, get_array, get_dict.
  rewrite Hr. cbn. rewrite Hd. cbn. rewrite Ha. cbn.
  destruct (has (commonCharacters (data v)) (record_name record)).
  - rewrite Hm. cbn. eexists. split; [ reflexivity | ]. split.
    + unfold holds.
      cbn [set_data sessionId lastModified data commonCharacters
             commonLocations lastClassifications characterDialogueMap].
      rewrite lookup_insert_eq. rewrite !lookup_insert_ne by differ.
      repeat split; assumption.
    + intros x Hx. apply lookup_insert_ne. intros <-. apply Hx.
      unfold graph_locs. cbn [In]. tauto.
  - rewrite lookup_insert_ne, Hm by differ. cbn.
    eexists. split; [ reflexivity | ]. split.
    + unfold holds.
      cbn [set_data sessionId lastModified data commonCharacters
             commonLocations lastClassifications characterDialogueMap].
      rewrite lookup_insert_eq.
      rewrite !(lookup_insert_ne _ (g_map g)) by differ.
      rewrite lookup_insert_eq.
      rewrite !lookup_insert_ne by (first [ differ | congruence ]).
      repeat split; assumption.
    + intros x Hx. rewrite !lookup_insert_ne; [ reflexivity | | ];
        intros <-; apply Hx; unfold graph_locs; cbn [In]; tauto.
Qed.

Lemma for_each_remember_holds records h g v :
  holds h g v → separate g →
  ∃ h', for_each (remember_character (g_root g)) h records = Some h'
        ∧ holds h' g
            (set_data v
               (fold_left remember_character_value records (data v)))
        ∧ (∀ x, ¬ In x (graph_locs g) → h' !! x = h !! x).
Proof.
  revert h v. induction records as [|record records IH]; intros h v Hh Hs.
  - exists h. cbn [for_each fold_left]. rewrite set_data_same. auto.
  - destruct (remember_character_holds h g v record Hh Hs)
      as (h1 & E1 & Hh1 & F1).
    destruct (IH h1 _ Hh1 Hs) as (h2 & E2 & Hh2 & F2).
    exists h2. cbn [for_each fold_left]. rewrite E1. cbn.
    split; [ exact E2 | ]. split.
    + exact Hh2.
    + intros x Hx. rewrite (F2 x Hx). exact (F1 x Hx).
Qed.

End Manager.

(** ** The store as a map of values *)

Section Store.

Implicit Types (h : gmap loc object) (g : Graph) (v : ContextMemory)
  (st : State).

Lemma well_formed_spec st :
  well_formed st = true
  ↔ ∀ sid l, storage st !! sid = Some l → is_Some (stringify (heap st) l).
Proof.
  unfold well_formed. rewrite bool_decide_eq_true.
  apply map_Forall_lookup.
Qed.

Lemma well_formed_new h : well_formed (new_manager h) = true.
Proof.
  apply well_formed_spec. intros sid l. cbn [new_manager storage].
  rewrite lookup_empty. discriminate.
Qed.

Lemma holds_locs_some h g v x :
  holds h g v → In x (graph_locs g) → is_Some (h !! x).
Proof.
  intros (Hr & Hd & Ha & Hb & Hc & Hm). unfold graph_locs. cbn [In].
  intros [<- | [<- | [<- | [<- | [<- | [<- | []]]]]]]; eauto.
Qed.

Lemma holds_agrees h h' g v : holds h g v → agrees h h' → holds h' g v.
Proof.
  intros (Hr & Hd & Ha & Hb & Hc & Hm) H. unfold holds.
  rewrite !H by eauto. repeat split; assumption.
Qed.

Lemma stringify_agrees h h' l v :
  stringify h l = Some v → agrees h h' → stringify h' l = Some v.
Proof.
  intros Hv H. destruct (stringify_holds _ _ _ Hv) as (g & <- & Hg).
  exact (holds_stringify _ _ _ (holds_agrees _ _ _ _ Hg H)).
Qed.

(** The objects of the store exist. *)
Lemma owned_some st x :
  well_formed st = true → owned st x → is_Some (heap st !! x).
Proof.
  intros Hwf (sid & l & Hl & Hx).
  destruct (proj1 (well_formed_spec st) Hwf sid l Hl) as [v Hv].
  destruct (stringify_holds _ _ _ Hv) as (g & <- & Hg).
  rewrite (holds_footprint _ _ _ Hg) in Hx.
  exact (holds_locs_some _ _ _ _ Hg Hx).
Qed.

(** A heap that still has the objects of the store gives the same
    contents. *)
Lemma stored_agrees st h2 :
  well_formed st = true → agrees (heap st) h2 →
  ∀ s, stored {| heap := h2; storage := storage st |} s = stored st s.
Proof.
  intros Hwf H s. unfold stored. cbn [heap storage].
  destruct (storage st !! s) as [l|] eqn:Hl; [ | reflexivity ]. cbn.
  apply stringify_frame. intros x Hx. apply H.
  apply (owned_some st x Hwf). exists s, l. auto.
Qed.

Lemma well_formed_agrees st h2 :
  well_formed st = true → agrees (heap st) h2 →
  well_formed {| heap := h2; storage := storage st |} = true.
Proof.
  intros Hwf H. apply well_formed_spec. cbn [heap storage].
  intros sid l Hl.
  pose proof (stored_agrees st h2 Hwf H sid) as E.
  unfold stored in E. cbn [heap storage] in E. rewrite Hl in E. cbn in E.
  rewrite E. exact (proj1 (well_formed_spec st) Hwf sid l Hl).
Qed.

Lemma graph_agrees h h' g :
  (∀ x, In x (graph_locs g) → h !! x = None) →
  (∀ x, ¬ In x (graph_locs g) → h' !! x = h !! x) →
  agrees h h'.
Proof.
  intros Hfresh Hframe x [o Hx]. apply Hframe. intros Hin.
  rewrite (Hfresh x Hin) in Hx. discriminate Hx.
Qed.

(** *** [loadContext] *)

Lemma loadContext_spec st sid :
  well_formed st = true →
  ∃ st' r,
    loadContext st sid = Some (st', r)
    ∧ storage st' = storage st
    ∧ agrees (heap st) (heap st')
    ∧ match r with
      | Some l =>
          ∃ v g, stored st sid = Some v ∧ g_root g = l
                 ∧ holds (heap st') g v ∧ separate g
                 ∧ (∀ x, In x (graph_locs g) → heap st !! x = None)
      | None => stored st sid = None ∧ st' = st
      end.
Proof.
  intros Hwf. unfold loadContext, stored.
  destruct (storage st !! sid) as [l|] eqn:Hl.
  - destruct (proj1 (well_formed_spec st) Hwf sid l Hl) as [v Hv].
    rewrite Hv. cbn [mbind option_bind].
    destruct (parse (heap st) v) as [h' l'] eqn:Hp.
    destruct (parse_graph _ _ _ _ Hp) as (g & Hroot & Hg & Hs & Hf & Hfr).
    eexists _, (Some l'). split; [ reflexivity | ]. cbn [storage heap].
    split; [ reflexivity | ].
    split; [ exact (graph_agrees _ _ _ Hf Hfr) | ].
    exists v, g. auto.
  - exists st, None. cbn. auto using agrees_refl.
Qed.

(** *** [saveContext] *)

Lemma saveContext_spec st sid l v :
  well_formed st = true →
  stringify (heap st) l = Some v →
  ∃ st' g,
    saveContext st sid l = Some st'
    ∧ storage st' = <[sid := g_root g]> (storage st)
    ∧ holds (heap st') g v
    ∧ (∀ x, In x (graph_locs g) → heap st !! x = None)
    ∧ agrees (heap st) (heap st')
    ∧ well_formed st' = true
    ∧ stored st' sid = Some v
    ∧ (∀ s, s ≠ sid → stored st' s = stored st s).
Proof.
  intros Hwf Hv. unfold saveContext. rewrite Hv. cbn [mbind option_bind].
  destruct (parse (heap st) v) as [h' l'] eqn:Hp.
  destruct (parse_graph _ _ _ _ Hp) as (g & <- & Hg & Hs & Hf & Hfr).
  pose proof (graph_agrees _ _ _ Hf Hfr) as Hag.
  eexists _, g. split; [ reflexivity | ]. cbn [storage heap].
  split; [ reflexivity | ]. split; [ exact Hg | ].
  split; [ exact Hf | ]. split; [ exact Hag | ].
  assert (Hother : ∀ s, s ≠ sid →
            stored {| heap := h'; storage := <[sid := g_root g]> (storage st) |}
              s = stored st s).
  { intros s Hs'. unfold stored at 1. cbn [heap storage].
    rewrite lookup_insert_ne by congruence.
    exact (stored_agrees st h' Hwf Hag s). }
  assert (Hsid : stored {| heap := h';
                           storage := <[sid := g_root g]> (storage st) |} sid
                 = Some v).
  { unfold stored. cbn [heap storage]. rewrite lookup_insert_eq. cbn.
    exact (holds_stringify _ _ _ Hg). }
  split; [ | split; [ exact Hsid | exact Hother ] ].
  apply well_formed_spec. cbn [heap storage]. intros s l0 Hl0.
  destruct (decide (s = sid)) as [-> | Hne].
  - rewrite lookup_insert_eq in Hl0. injection Hl0 as <-.
    rewrite (holds_stringify _ _ _ Hg). eauto.
  - rewrite lookup_insert_ne in Hl0 by congruence.
    destruct (proj1 (well_formed_spec st) Hwf s l0 Hl0) as [v0 Hv0].
    rewrite (stringify_agrees _ _ _ _ Hv0 Hag). eauto.
Qed.

End Store.

(** ** [updateMemory] *)

Section UpdateMemory.

Context {host : Host}.

Implicit Types (h : gmap loc object) (g : Graph) (v : ContextMemory)
  (st : State).

(** An object that did not exist is none of the store's. *)
Lemma fresh_not_owned st x :
  well_formed st = true → heap st !! x = None → ¬ owned st x.
Proof.
  intros Hwf Hx Hown. destruct (owned_some st x Hwf Hown) as [o Ho].
  congruence.
Qed.

(** The objects of the store are the same in a larger heap. *)
Lemma owned_agrees st h2 x :
  well_formed st = true → agrees (heap st) h2 →
  owned {| heap := h2; storage := storage st |} x → owned st x.
Proof.
  intros Hwf Hag (sid & l & Hl & Hx). cbn [heap storage] in *.
  exists sid, l. split; [ exact Hl | ].
  destruct (proj1 (well_formed_spec st) Hwf sid l Hl) as [v Hv].
  destruct (stringify_holds _ _ _ Hv) as (g & <- & Hg).
  rewrite (holds_footprint _ _ _ Hg).
  rewrite (holds_footprint _ _ _ (holds_agrees _ _ _ _ Hg Hag)) in Hx.
  exact Hx.
Qed.

(** A heap that differs from that of the manager outside the store's objects
    only gives the same contents. *)
Lemma stored_outside st h2 :
  well_formed st = true →
  (∀ x, owned st x → h2 !! x = heap st !! x) →
  ∀ s, stored {| heap := h2; storage := storage st |} s = stored st s.
Proof.
  intros Hwf H s. unfold stored. cbn [heap storage].
  destruct (storage st !! s) as [l|] eqn:Hl; [ | reflexivity ]. cbn.
  apply stringify_frame. intros x Hx. apply H. exists s, l. auto.
Qed.

Lemma well_formed_outside st h2 :
  well_formed st = true →
  (∀ x, owned st x → h2 !! x = heap st !! x) →
  well_formed {| heap := h2; storage := storage st |} = true.
Proof.
  intros Hwf H. apply well_formed_spec. cbn [heap storage].
  intros sid l Hl.
  pose proof (stored_outside st h2 Hwf H sid) as E.
  unfold stored in E. cbn [heap storage] in E. rewrite Hl in E. cbn in E.
  rewrite E. exact (proj1 (well_formed_spec st) Hwf sid l Hl).
Qed.

Lemma holds_same h h' g v :
  holds h g v → (∀ x, In x (graph_locs g) → h' !! x = h !! x) →
  holds h' g v.
Proof.
  intros (Hr & Hd & Ha & Hb & Hc & Hm) H. unfold holds.
  rewrite !H by (unfold graph_locs; cbn [In]; tauto).
  repeat split; assumption.
Qed.

(** The objects of a stored record, in a heap that kept them. *)
Lemma footprint_kept st h2 sid l :
  well_formed st = true →
  (∀ x, owned st x → h2 !! x = heap st !! x) →
  storage st !! sid = Some l →
  footprint h2 l = footprint (heap st) l.
Proof.
  intros Hwf H Hl.
  destruct (proj1 (well_formed_spec st) Hwf sid l Hl) as [v Hv].
  destruct (stringify_holds _ _ _ Hv) as (g & <- & Hg).
  rewrite (holds_footprint _ _ _ Hg).
  apply (holds_footprint h2 g v). apply (holds_same _ _ _ _ Hg).
  intros x Hx. apply H. exists sid, (g_root g). split; [ exact Hl | ].
  rewrite (holds_footprint _ _ _ Hg). exact Hx.
Qed.

(** [updateMemory] once it is resumed with a record of its own: it saves the
    update of the value of that record, writes the store in its final
    [saveContext] only, and changes no object outside its record. *)
Lemma updateMemory_resumed_spec st g v0 now sid records :
  well_formed st = true →
  holds (heap st) g v0 → separate g →
  (∀ x, In x (graph_locs g) → ¬ owned st x) →
  ∃ st' mid,
    updateMemory_resumed st now sid records (Some (g_root g)) = Some st'
    ∧ saveContext mid sid (g_root g) = Some st'
    ∧ well_formed mid = true
    ∧ (∀ s, stored mid s = stored st s)
    ∧ well_formed st' = true
    ∧ stored st' sid = Some (updated_memory now sid (Some v0) records)
    ∧ (∀ s, s ≠ sid → stored st' s = stored st s)
    ∧ (∀ x, is_Some (heap st !! x) → ¬ In x (graph_locs g) →
            heap st' !! x = heap st !! x)
    ∧ (∀ x, owned st' x → owned st x ∨ heap st !! x = None).
Proof.
  intros Hwf Hg Hsep Hmine.
  unfold updateMemory_resumed.
  (* memory.lastModified = Date.now() *)
  destruct (set_lastModified_holds (heap st) g v0 now Hg) as (E2 & Hg2).
  rewrite E2. cbn [mbind option_bind].
  set (h2 := <[g_root g := OMemory (sessionId v0) now (g_data g)]> (heap st))
    in *.
  rewrite (holds_stringify _ _ _ Hg2). cbn [fmap option_fmap option_map].
  cbn [mbind option_bind compose touched data].
  (* the new array of labels *)
  set (xs := take 20 (map rec_classification records
                        ++ lastClassifications (data v0))).
  destruct (alloc h2 (OArray xs)) as [h3 arr] eqn:E3.
  destruct (set_lastClassifications_holds h2 g (touched v0 now) xs h3 arr
              Hg2 Hsep E3) as (E4 & Hg4 & Hsep4 & Harr).
  rewrite E4. cbn [mbind option_bind].
  set (g' := {| g_root := g_root g; g_data := g_data g;
                g_characters := g_characters g;
                g_locations := g_locations g;
                g_classifications := arr; g_map := g_map g |}) in *.
  set (h4 := <[g_data g := OData (g_characters g) (g_locations g) arr
                             (g_map g)]> h3) in *.
  apply alloc_fresh in E3 as [_ E3].
  assert (Hkeep4 : ∀ x, is_Some (heap st !! x) → is_Some (h4 !! x)).
  { intros x Hx. unfold h4. rewrite E3. unfold h2.
    rewrite !lookup_insert_is_Some'. auto. }
  assert (Hother4 : ∀ x, is_Some (heap st !! x) → ¬ In x (graph_locs g) →
                         h4 !! x = heap st !! x ∧ ¬ In x (graph_locs g')).
  { intros x Hx Hout.
    assert (x ≠ arr).
    { intros ->. unfold h2 in Harr.
      apply lookup_insert_None in Harr as [Harr _].
      rewrite Harr in Hx. destruct Hx; discriminate. }
    unfold graph_locs in Hout. cbn [In] in Hout.
    split.
    - unfold h4. rewrite E3. unfold h2.
      rewrite !lookup_insert_ne by (intros <-; tauto). reflexivity.
    - unfold graph_locs, g'.
      cbn [g_root g_data g_characters g_locations g_classifications g_map
             In].
      intros [<- | [<- | [<- | [<- | [<- | [<- | []]]]]]]; tauto. }
  (* the loop over the records *)
  destruct (for_each_remember_holds records h4 g' _ Hg4 Hsep4)
    as (h5 & E5 & Hg5 & Hframe5).
  change (g_root g') with (g_root g) in E5. rewrite E5.
  cbn [mbind option_bind].
  assert (Hother5 : ∀ x, is_Some (heap st !! x) → ¬ In x (graph_locs g) →
                         h5 !! x = heap st !! x).
  { intros x Hx Hout. destruct (Hother4 x Hx Hout) as [E Hout'].
    rewrite (Hframe5 x Hout'). exact E. }
  assert (Hkeep5 : ∀ x, is_Some (heap st !! x) → is_Some (h5 !! x)).
  { intros x Hx. destruct (in_dec Pos.eq_dec x (graph_locs g')) as [Hin | Hout].
    - exact (holds_locs_some _ _ _ _ Hg5 Hin).
    - rewrite (Hframe5 x Hout). exact (Hkeep4 x Hx). }
  assert (Hout5 : ∀ x, owned st x → h5 !! x = heap st !! x).
  { intros x Hx. apply Hother5; [ exact (owned_some st x Hwf Hx) | ].
    intros Hin. exact (Hmine x Hin Hx). }
  (* saveContext *)
  set (mid := {| heap := h5; storage := storage st |}).
  pose proof (well_formed_outside st h5 Hwf Hout5) as Hwfmid.
  fold mid in Hwfmid.
  destruct (saveContext_spec mid sid (g_root g) _ Hwfmid
              (holds_stringify _ _ _ Hg5))
    as (st' & gs & Esave & Hstore & Hgs & Hfresh & Hag & Hwf' & Hsid
        & Hother).
  exists st', mid. split; [ exact Esave | ]. split; [ exact Esave | ].
  split; [ exact Hwfmid | ].
  assert (Hmid : ∀ s, stored mid s = stored st s)
    by (exact (stored_outside st h5 Hwf Hout5)).
  split; [ exact Hmid | ]. split; [ exact Hwf' | ].
  split; [ exact Hsid | ].
  split; [ intros s Hs; rewrite (Hother s Hs); exact (Hmid s) | ].
  split.
  - intros x Hx Hout. rewrite <- (Hother5 x Hx Hout).
    apply Hag. exact (Hkeep5 x Hx).
  - intros x (s & l0 & Hl0 & Hx). rewrite Hstore in Hl0.
    destruct (decide (s = sid)) as [-> | Hne].
    + rewrite lookup_insert_eq in Hl0. injection Hl0 as <-.
      rewrite (holds_footprint _ _ _ Hgs) in Hx.
      right. destruct (heap st !! x) as [o|] eqn:Eo; [ | reflexivity ].
      exfalso. destruct (Hkeep5 x) as [o' Ho']; [ rewrite Eo; eauto | ].
      pose proof (Hfresh x Hx) as Hnone. cbn [mid heap] in Hnone.
      congruence.
    + rewrite lookup_insert_ne in Hl0 by congruence.
      cbn [mid storage] in Hl0. left. exists s, l0.
      split; [ exact Hl0 | ].
      rewrite <- (footprint_kept st (heap st') s l0 Hwf); [ exact Hx | | exact Hl0 ].
      intros y Hy. rewrite <- (Hout5 y Hy). apply Hag.
      cbn [mid heap]. rewrite (Hout5 y Hy). exact (owned_some st y Hwf Hy).
Qed.

(** The same when [loadContext] gave [null]: the record is a new one. *)
Lemma updateMemory_resumed_null st now sid records :
  well_formed st = true →
  ∃ st' mid l,
    updateMemory_resumed st now sid records None = Some st'
    ∧ saveContext mid sid l = Some st'
    ∧ well_formed mid = true
    ∧ (∀ s, stored mid s = stored st s)
    ∧ well_formed st' = true
    ∧ stored st' sid = Some (updated_memory now sid None records)
    ∧ (∀ s, s ≠ sid → stored st' s = stored st s)
    ∧ (∀ x, is_Some (heap st !! x) → heap st' !! x = heap st !! x)
    ∧ (∀ x, owned st' x → owned st x ∨ heap st !! x = None).
Proof.
  intros Hwf.
  destruct (parse (heap st) (empty_memory sid now)) as [h1 l] eqn:Hp.
  destruct (parse_graph _ _ _ _ Hp) as (g & <- & Hg & Hsep & Hf & Hfr).
  pose proof (graph_agrees _ _ _ Hf Hfr) as Hag.
  set (st1 := {| heap := h1; storage := storage st |}).
  pose proof (well_formed_agrees st h1 Hwf Hag) as Hwf1. fold st1 in Hwf1.
  assert (Hmine : ∀ x, In x (graph_locs g) → ¬ owned st1 x).
  { intros x Hx Hown. apply (owned_agrees st h1 x Hwf Hag) in Hown.
    exact (fresh_not_owned st x Hwf (Hf x Hx) Hown). }
  destruct (updateMemory_resumed_spec st1 g (empty_memory sid now) now sid
              records Hwf1 Hg Hsep Hmine)
    as (st' & mid & Erun & Esave & Hwfmid & Hmid & Hwf' & Hsid & Hother
        & Hframe & Hown).
  exists st', mid, (g_root g).
  assert (E1 : ∀ s, stored st1 s = stored st s)
    by exact (stored_agrees st h1 Hwf Hag).
  split.
  { unfold updateMemory_resumed in *. rewrite Hp. exact Erun. }
  split; [ exact Esave | ]. split; [ exact Hwfmid | ].
  split; [ intros s; rewrite (Hmid s); apply E1 | ].
  split; [ exact Hwf' | ]. split; [ exact Hsid | ].
  split; [ intros s Hs; rewrite (Hother s Hs); apply E1 | ].
  split.
  - intros x Hx. rewrite <- (Hag x Hx). apply Hframe.
    + cbn [st1 heap]. rewrite (Hag x Hx). exact Hx.
    + intros Hin. rewrite (Hf x Hin) in Hx. destruct Hx; discriminate.
  - intros x Hx. destruct (Hown x Hx) as [H | H].
    + left. exact (owned_agrees st h1 x Hwf Hag H).
    + right. exact (agrees_none _ _ _ Hag H).
Qed.

Lemma updated_memory_default now sid before records :
  updated_memory now sid before records
  = updated_memory now sid
      (Some (default (empty_memory sid now) before)) records.
Proof. destruct before; reflexivity. Qed.

(** [updateMemory] returns, keeps the store well formed, saves the update of
    the value of the session, leaves the other sessions alone, and writes the
    store in its final [saveContext] only. *)
Lemma updateMemory_spec st now sid records :
  well_formed st = true →
  ∃ st' mid l,
    updateMemory st now sid records = Some st'
    ∧ saveContext mid sid l = Some st'
    ∧ well_formed mid = true
    ∧ (∀ s, stored mid s = stored st s)
    ∧ well_formed st' = true
    ∧ stored st' sid
      = Some (updated_memory now sid (stored st sid) records)
    ∧ (∀ s, s ≠ sid → stored st' s = stored st s).
Proof.
  intros Hwf. unfold updateMemory.
  destruct (loadContext_spec st sid Hwf) as (st1 & r & E & Hst & Hag & Hr).
  rewrite E. cbn [mbind option_bind].
  assert (Hst1 : st1 = {| heap := heap st1; storage := storage st |})
    by (destruct st1; cbn in *; congruence).
  assert (Hwf1 : well_formed st1 = true)
    by (rewrite Hst1; exact (well_formed_agrees st _ Hwf Hag)).
  assert (E1 : ∀ s, stored st1 s = stored st s)
    by (rewrite Hst1; exact (stored_agrees st _ Hwf Hag)).
  destruct r as [l|].
  - destruct Hr as (v & g & Hv & <- & Hg & Hsep & Hfresh).
    assert (Hmine : ∀ x, In x (graph_locs g) → ¬ owned st1 x).
    { intros x Hx Hown. rewrite Hst1 in Hown.
      apply (owned_agrees st _ x Hwf Hag) in Hown.
      exact (fresh_not_owned st x Hwf (Hfresh x Hx) Hown). }
    destruct (updateMemory_resumed_spec st1 g v now sid records Hwf1 Hg
                Hsep Hmine)
      as (st' & mid & Erun & Esave & Hwfmid & Hmid & Hwf' & Hsid & Hother
          & _).
    exists st', mid, (g_root g). rewrite Hv.
    split; [ exact Erun | ]. split; [ exact Esave | ].
    split; [ exact Hwfmid | ].
    split; [ intros s; rewrite (Hmid s); apply E1 | ].
    split; [ exact Hwf' | ]. split; [ exact Hsid | ].
    intros s Hs. rewrite (Hother s Hs). apply E1.
  - destruct Hr as (Hnone & ->).
    destruct (updateMemory_resumed_null st now sid records Hwf)
      as (st' & mid & l & Erun & Esave & Hwfmid & Hmid & Hwf' & Hsid
          & Hother & _).
    exists st', mid, l. rewrite Hnone.
    split; [ exact Erun | ]. split; [ exact Esave | ].
    split; [ exact Hwfmid | ]. split; [ exact Hmid | ].
    split; [ exact Hwf' | ]. split; [ exact Hsid | exact Hother ].
Qed.

End UpdateMemory.

(** ** Calls that wait *)

Section Turns.

Context {host : Host}.

Implicit Types (h : gmap loc object) (g : Graph) (v : ContextMemory)
  (st : State) (w : Waiting) (ws : list Waiting).

(** A property of records that every update keeps. *)
Variable Q : jsstring → ContextMemory → Prop.

Hypothesis Q_updated :
  ∀ now sid before records,
    (∀ v, before = Some v → Q sid v) →
    Q sid (updated_memory now sid before records).

Lemma own_record_cells st w l v :
  waiting_loaded w = Some l → own_record st l v →
  (∀ x, In x (cells (heap st) w) → is_Some (heap st !! x))
  ∧ (∀ x, In x (cells (heap st) w) → ¬ owned st x).
Proof.
  intros Hl (g & <- & Hg & _ & Hmine). unfold cells. rewrite Hl.
  rewrite (holds_footprint _ _ _ Hg). split.
  - intros x Hx. exact (holds_locs_some _ _ _ _ Hg Hx).
  - exact Hmine.
Qed.

(** A waiting call keeps its record through a step that leaves the objects
    of the record alone and gives the store no object that existed. *)
Lemma own_record_kept st st' w l v :
  waiting_loaded w = Some l → own_record st l v →
  (∀ x, In x (cells (heap st) w) → heap st' !! x = heap st !! x) →
  (∀ x, owned st' x → owned st x ∨ heap st !! x = None) →
  own_record st' l v ∧ cells (heap st') w = cells (heap st) w.
Proof.
  intros Hl (g & <- & Hg & Hsep & Hmine) Hsame Hown.
  unfold cells in *. rewrite Hl in *.
  rewrite (holds_footprint _ _ _ Hg) in *.
  pose proof (holds_same _ _ _ _ Hg Hsame) as Hg'.
  rewrite (holds_footprint _ _ _ Hg').
  split; [ | reflexivity ].
  exists g. split; [ reflexivity | ]. split; [ exact Hg' | ].
  split; [ exact Hsep | ].
  intros x Hx Hx'. destruct (Hown x Hx') as [H | H].
  - exact (Hmine x Hx H).
  - destruct (holds_locs_some _ _ _ _ Hg Hx) as [o Ho]. congruence.
Qed.

Lemma apart_ext h h' ws :
  Forall (fun w => cells h' w = cells h w) ws → apart h ws → apart h' ws.
Proof.
  induction ws as [|w rest IH]; intros Hsame Hapart; [ exact I | ].
  apply Forall_cons in Hsame as [Hw Hrest]. destruct Hapart as [Hhead Htail].
  cbn [apart]. split; [ | exact (IH Hrest Htail) ].
  intros x Hx. rewrite Hw in Hx. specialize (Hhead x Hx).
  rewrite Forall_forall in Hhead, Hrest |- *.
  intros w' Hw'. rewrite (Hrest w' Hw'). exact (Hhead w' Hw').
Qed.

Lemma apart_snoc h ws w :
  apart h ws →
  Forall (fun w' => ∀ x, In x (cells h w') → ¬ In x (cells h w)) ws →
  apart h (ws ++ [w]).
Proof.
  induction ws as [|w0 rest IH]; intros Hapart Hnew.
  - cbn [app apart]. split; [ intros x _; constructor | exact I ].
  - apply Forall_cons in Hnew as [Hw0 Hrest].
    destruct Hapart as [Hhead Htail]. cbn [app apart].
    split; [ | exact (IH Htail Hrest) ].
    intros x Hx. apply Forall_app. split; [ exact (Hhead x Hx) | ].
    constructor; [ exact (Hw0 x Hx) | constructor ].
Qed.

(** The waiting calls through such a step. *)
Lemma waiting_kept st st' ws :
  Forall (fun w => ∀ l, waiting_loaded w = Some l →
                        ∃ v, own_record st l v
                             ∧ Q (call_session (waiting_call w)) v) ws →
  Forall (fun w => ∀ x, In x (cells (heap st) w) →
                        heap st' !! x = heap st !! x) ws →
  (∀ x, owned st' x → owned st x ∨ heap st !! x = None) →
  Forall (fun w => ∀ l, waiting_loaded w = Some l →
                        ∃ v, own_record st' l v
                             ∧ Q (call_session (waiting_call w)) v) ws
  ∧ Forall (fun w => cells (heap st') w = cells (heap st) w) ws.
Proof.
  intros Hheld Hsame Hown. rewrite !Forall_forall in *.
  split; intros w Hw.
  - intros l Hl. destruct (Hheld w Hw l Hl) as (v & Hv & HQ).
    exists v. split; [ | exact HQ ].
    exact (proj1 (own_record_kept st st' w l v Hl Hv (Hsame w Hw) Hown)).
  - destruct (waiting_loaded w) as [l|] eqn:Hl.
    + destruct (Hheld w Hw l Hl) as (v & Hv & _).
      exact (proj2 (own_record_kept st st' w l v Hl Hv (Hsame w Hw) Hown)).
    + unfold cells. rewrite Hl. reflexivity.
Qed.

(** One step keeps the invariant, and does not fail. *)
Lemma turn_settled (s : State * list Waiting) (t : Turn) :
  settled Q s → ∃ s', turn s t = Some s' ∧ settled Q s'.
Proof.
  destruct s as [st ws]. intros (Hwf & HQ & Hheld & Hapart).
  cbn [fst snd] in *. destruct t as [call|]; cbn [turn fst snd].
  - (* a call: [loadContext] *)
    set (sid := call_session call).
    destruct (loadContext_spec st sid Hwf) as (st1 & r & E & Hst & Hag & Hr).
    rewrite E. cbn [mbind option_bind].
    eexists. split; [ reflexivity | ].
    assert (Hst1 : st1 = {| heap := heap st1; storage := storage st |})
      by (destruct st1; cbn in *; congruence).
    assert (Hwf1 : well_formed st1 = true)
      by (rewrite Hst1; exact (well_formed_agrees st _ Hwf Hag)).
    assert (E1 : ∀ s, stored st1 s = stored st s)
      by (rewrite Hst1; exact (stored_agrees st _ Hwf Hag)).
    assert (Hown : ∀ x, owned st1 x → owned st x ∨ heap st !! x = None).
    { intros x Hx. left. rewrite Hst1 in Hx.
      exact (owned_agrees st _ x Hwf Hag Hx). }
    assert (Hsame : Forall (fun w => ∀ x, In x (cells (heap st) w) →
                                  heap st1 !! x = heap st !! x) ws).
    { apply Forall_forall. intros w Hw x Hx. apply Hag.
      destruct (waiting_loaded w) as [l|] eqn:Hl;
        [ | unfold cells in Hx; rewrite Hl in Hx; destruct Hx ].
      rewrite Forall_forall in Hheld.
      destruct (Hheld w Hw l Hl) as (v & Hv & _).
      exact (proj1 (own_record_cells st w l v Hl Hv) x Hx). }
    destruct (waiting_kept st st1 ws Hheld Hsame Hown) as [Hheld1 Hcells].
    unfold settled. cbn [fst snd].
    split; [ exact Hwf1 | ].
    split; [ intros s v Hv; rewrite E1 in Hv; exact (HQ s v Hv) | ].
    split.
    + apply Forall_app. split; [ exact Hheld1 | ].
      constructor; [ | constructor ]. cbn [waiting_loaded waiting_call].
      intros l ->. destruct Hr as (v & g & Hv & Hroot & Hg & Hsep & Hfresh).
      exists v. split; [ | exact (HQ sid v Hv) ].
      exists g. split; [ exact Hroot | ]. split; [ exact Hg | ].
      split; [ exact Hsep | ].
      intros x Hx Hx'. rewrite Hst1 in Hx'.
      apply (owned_agrees st _ x Hwf Hag) in Hx'.
      exact (fresh_not_owned st x Hwf (Hfresh x Hx) Hx').
    + apply apart_snoc; [ exact (apart_ext _ _ _ Hcells Hapart) | ].
      apply Forall_forall. intros w Hw x Hx Hx'.
      rewrite Forall_forall in Hcells. rewrite (Hcells w Hw) in Hx.
      assert (Hsome : is_Some (heap st !! x)).
      { destruct (waiting_loaded w) as [l|] eqn:Hl;
          [ | unfold cells in Hx; rewrite Hl in Hx; destruct Hx ].
        rewrite Forall_forall in Hheld.
        destruct (Hheld w Hw l Hl) as (v & Hv & _).
        exact (proj1 (own_record_cells st w l v Hl Hv) x Hx). }
      unfold cells in Hx'. cbn [waiting_loaded] in Hx'.
      destruct r as [l|]; [ | destruct Hx' ].
      destruct Hr as (v & g & _ & <- & Hg & _ & Hfresh).
      rewrite (holds_footprint _ _ _ Hg) in Hx'.
      rewrite (Hfresh x Hx') in Hsome. destruct Hsome; discriminate.
  - (* the oldest waiting call is resumed *)
    destruct ws as [|w rest].
    { eexists. split; [ reflexivity | ].
      unfold settled. cbn [fst snd]. auto. }
    apply Forall_cons in Hheld as [Hw Hrest].
    destruct Hapart as [Hhead Htail].
    set (sid := call_session (waiting_call w)) in *.
    set (now := call_now (waiting_call w)).
    set (records := call_records (waiting_call w)).
    assert (Hstep : ∃ st' before,
      updateMemory_resumed st now sid records (waiting_loaded w) = Some st'
      ∧ well_formed st' = true
      ∧ stored st' sid = Some (updated_memory now sid before records)
      ∧ (∀ v, before = Some v → Q sid v)
      ∧ (∀ s, s ≠ sid → stored st' s = stored st s)
      ∧ (∀ x, is_Some (heap st !! x) → ¬ In x (cells (heap st) w) →
              heap st' !! x = heap st !! x)
      ∧ (∀ x, owned st' x → owned st x ∨ heap st !! x = None)).
    { destruct (waiting_loaded w) as [l|] eqn:Hl.
      - destruct (Hw l eq_refl) as (v0 & (g & <- & Hg & Hsep & Hmine) & HQ0).
        destruct (updateMemory_resumed_spec st g v0 now sid records Hwf Hg
                    Hsep Hmine)
          as (st' & _ & Erun & _ & _ & _ & Hwf' & Hsid & Hother & Hframe
              & Hown).
        exists st', (Some v0). split; [ exact Erun | ].
        split; [ exact Hwf' | ]. split; [ exact Hsid | ].
        split; [ intros v [= <-]; exact HQ0 | ].
        split; [ exact Hother | ]. split; [ | exact Hown ].
        unfold cells. rewrite Hl, (holds_footprint _ _ _ Hg). exact Hframe.
      - destruct (updateMemory_resumed_null st now sid records Hwf)
          as (st' & _ & _ & Erun & _ & _ & _ & Hwf' & Hsid & Hother & Hframe
              & Hown).
        exists st', None. split; [ exact Erun | ].
        split; [ exact Hwf' | ]. split; [ exact Hsid | ].
        split; [ discriminate | ].
        split; [ exact Hother | ]. split; [ | exact Hown ].
        intros x Hx _. exact (Hframe x Hx). }
    destruct Hstep as (st' & before & Erun & Hwf' & Hsid & Hbefore & Hother
                       & Hframe & Hown).
    rewrite Erun. cbn [mbind option_bind].
    eexists. split; [ reflexivity | ].
    assert (Hsame : Forall (fun w' => ∀ x, In x (cells (heap st) w') →
                                   heap st' !! x = heap st !! x) rest).
    { apply Forall_forall. intros w' Hw' x Hx.
      assert (Hsome : is_Some (heap st !! x)).
      { destruct (waiting_loaded w') as [l|] eqn:Hl;
          [ | unfold cells in Hx; rewrite Hl in Hx; destruct Hx ].
        rewrite Forall_forall in Hrest.
        destruct (Hrest w' Hw' l Hl) as (v & Hv & _).
        exact (proj1 (own_record_cells st w' l v Hl Hv) x Hx). }
      apply (Hframe x Hsome). intros Hin.
      specialize (Hhead x Hin). rewrite Forall_forall in Hhead.
      exact (Hhead w' Hw' Hx). }
    destruct (waiting_kept st st' rest Hrest Hsame Hown) as [Hheld' Hcells].
    unfold settled. cbn [fst snd].
    split; [ exact Hwf' | ]. split.
    + intros s v Hv. destruct (decide (s = sid)) as [-> | Hne].
      * rewrite Hsid in Hv. injection Hv as <-.
        apply Q_updated. exact Hbefore.
      * rewrite (Hother s Hne) in Hv. exact (HQ s v Hv).
    + split; [ exact Hheld' | exact (apart_ext _ _ _ Hcells Htail) ].
Qed.

(** A run keeps the invariant, and does not fail. *)
Lemma run_turns_settled (turns : list Turn) (s : State * list Waiting) :
  settled Q s → ∃ s', run_turns s turns = Some s' ∧ settled Q s'.
Proof.
  revert s. induction turns as [|t turns IH]; intros s Hs.
  - exists s. split; [ reflexivity | exact Hs ].
  - destruct (turn_settled s t Hs) as (s1 & E1 & Hs1).
    destruct (IH s1 Hs1) as (s' & E' & Hs').
    exists s'. split; [ | exact Hs' ].
    unfold run_turns in *. cbn [for_each]. rewrite E1. exact E'.
Qed.

Lemma settled_new h0 : settled Q (new_manager h0, []).
Proof.
  unfold settled. cbn [fst snd apart].
  split; [ apply well_formed_new | ].
  split; [ | split; [ constructor | exact I ] ].
  intros sid v Hv. unfold stored, new_manager in Hv. cbn [storage] in Hv.
  rewrite lookup_empty in Hv. discriminate Hv.
Qed.

End Turns.

Section Awaited.

Context {host : Host}.

(** A call that is awaited before the next one is made is a call with
    nothing in between. *)
Lemma run_updates_cons st call calls :
  run_updates st (call :: calls)
  = st' ← updateMemory st (call_now call) (call_session call)
            (call_records call);
    run_updates st' calls.
Proof.
  unfold run_updates, run_turns, updateMemory.
  cbn [awaited flat_map app for_each turn fst snd].
  destruct (loadContext st (call_session call)) as [[st1 loaded]|];
    [ | reflexivity ].
  cbn [mbind option_bind app for_each turn fst snd waiting_call
         waiting_loaded].
  destruct (updateMemory_resumed st1 _ _ _ loaded) as [st'|]; reflexivity.
Qed.

Lemma run_updates_nil st : run_updates st [] = Some st.
Proof. reflexivity. Qed.

End Awaited.

(** ** The history of labels *)

Section LabelHistory.

Context {host : Host}.

Implicit Types (st : State) (calls : list UpdateCall).








End LabelHistory.


(** ** Isolation of the store *)

Section Isolation.

Context {host : Host}.

Implicit Types (h : gmap loc object) (g : Graph) (v : ContextMemory)
  (st : State).

Lemma loadContext_isolated st sid st' l :
  well_formed st = true →
  loadContext st sid = Some (st', Some l) →
  stringify (heap st') l = stored st sid
  ∧ (∀ x, In x (footprint (heap st') l) → ¬ owned st' x)
  ∧ ∀ h2,
      (∀ x, ¬ In x (footprint (heap st') l) → h2 !! x = heap st' !! x) →
      ∀ s, stored {| heap := h2; storage := storage st' |} s = stored st s.
Proof.
  intros Hwf E.
  destruct (loadContext_spec st sid Hwf) as (st1 & r & E1 & Hst & Hag & Hr).
  rewrite E in E1. injection E1 as <- <-.
  destruct Hr as (v & g & Hv & <- & Hg & Hsep & Hfresh).
  rewrite (holds_footprint _ _ _ Hg), (holds_stringify _ _ _ Hg).
  split; [ symmetry; exact Hv | ].
  assert (Hst' : st' = {| heap := heap st'; storage := storage st |})
    by (destruct st'; cbn in *; congruence).
  split.
  - intros x Hx Hown. rewrite Hst' in Hown.
    apply (owned_agrees st (heap st') x Hwf Hag) in Hown.
    exact (fresh_not_owned st x Hwf (Hfresh x Hx) Hown).
  - intros h2 Hh2 s. rewrite Hst. apply (stored_agrees st h2 Hwf).
    intros x Hx. rewrite Hh2; [ exact (Hag x Hx) | ].
    intros Hin. rewrite (Hfresh x Hin) in Hx. destruct Hx; discriminate.
Qed.

Lemma loadContext_preserves st sid st' r :
  well_formed st = true →
  loadContext st sid = Some (st', r) →
  well_formed st' = true ∧ ∀ s, stored st' s = stored st s.
Proof.
  intros Hwf E.
  destruct (loadContext_spec st sid Hwf) as (st1 & r1 & E1 & Hst & Hag & _).
  rewrite E in E1. injection E1 as <- <-.
  assert (Hst' : st' = {| heap := heap st'; storage := storage st |})
    by (destruct st'; cbn in *; congruence).
  rewrite Hst'. split.
  - exact (well_formed_agrees st _ Hwf Hag).
  - exact (stored_agrees st _ Hwf Hag).
Qed.

Lemma saveContext_isolated st sid l st' :
  well_formed st = true →
  (∀ x, In x (footprint (heap st) l) → ¬ owned st x) →
  saveContext st sid l = Some st' →
  well_formed st' = true
  ∧ stored st' sid = stringify (heap st) l
  ∧ (∀ s, s ≠ sid → stored st' s = stored st s)
  ∧ ∀ h2,
      (∀ x, ¬ In x (footprint (heap st') l) → h2 !! x = heap st' !! x) →
      ∀ s, stored {| heap := h2; storage := storage st' |} s = stored st' s.
Proof.
  intros Hwf Hclient E.
  destruct (stringify (heap st) l) as [v|] eqn:Hv;
    [ | unfold saveContext in E; rewrite Hv in E; discriminate E ].
  destruct (saveContext_spec st sid l v Hwf Hv)
    as (st1 & gs & E1 & Hstore & Hgs & Hfresh & Hag & Hwf' & Hsid & Hother).
  rewrite E in E1. injection E1 as <-.
  split; [ exact Hwf' | ]. split; [ exact Hsid | ].
  split; [ exact Hother | ].
  intros h2 Hh2. apply (stored_outside st' h2 Hwf').
  intros x Hown. apply Hh2. intros Hin.
  (* the argument is the same graph after the call, and none of the
     store's *)
  destruct (stringify_holds _ _ _ Hv) as (g & <- & Hg).
  rewrite (holds_footprint _ _ _ (holds_agrees _ _ _ _ Hg Hag)) in Hin.
  rewrite (holds_footprint _ _ _ Hg) in Hclient.
  destruct Hown as (s & l0 & Hl0 & Hx). rewrite Hstore in Hl0.
  destruct (decide (s = sid)) as [-> | Hne].
  - rewrite lookup_insert_eq in Hl0. injection Hl0 as <-.
    rewrite (holds_footprint _ _ _ Hgs) in Hx.
    destruct (holds_locs_some _ _ _ _ Hg Hin) as [o Ho].
    rewrite (Hfresh x Hx) in Ho. discriminate Ho.
  - rewrite lookup_insert_ne in Hl0 by congruence.
    apply (Hclient x Hin). exists s, l0. split; [ exact Hl0 | ].
    destruct (proj1 (well_formed_spec st) Hwf s l0 Hl0) as [v0 Hv0].
    destruct (stringify_holds _ _ _ Hv0) as (g0 & <- & Hg0).
    rewrite (holds_footprint _ _ _ Hg0).
    rewrite (holds_footprint _ _ _ (holds_agrees _ _ _ _ Hg0 Hag)) in Hx.
    exact Hx.
Qed.

(** C10. The manager isolates its store by deep copy. In a well formed
    manager: [loadContext] returns a copy of the stored value made of objects
    that are none of the store's, so whatever is written into the returned
    record leaves the contents of the store as they were; [saveContext]
    stores a copy of the value of its argument, and whatever is written into
    the argument afterwards leaves the contents as saved; [loadContext]
    changes no contents, and [updateMemory] changes those of its session
    only, by the [saveContext] it ends with. *)
Theorem ContextMemoryManager_isolates_store (st : State) :
  well_formed st = true →
  (∀ sid st' l,
     loadContext st sid = Some (st', Some l) →
     stringify (heap st') l = stored st sid
     ∧ (∀ x, In x (footprint (heap st') l) → ¬ owned st' x)
     ∧ ∀ h2,
         (∀ x, ¬ In x (footprint (heap st') l) → h2 !! x = heap st' !! x) →
         ∀ s, stored {| heap := h2; storage := storage st' |} s
              = stored st s)
  ∧ (∀ sid l st',
       (∀ x, In x (footprint (heap st) l) → ¬ owned st x) →
       saveContext st sid l = Some st' →
       well_formed st' = true
       ∧ stored st' sid = stringify (heap st) l
       ∧ (∀ s, s ≠ sid → stored st' s = stored st s)
       ∧ ∀ h2,
           (∀ x, ¬ In x (footprint (heap st') l) →
                 h2 !! x = heap st' !! x) →
           ∀ s, stored {| heap := h2; storage := storage st' |} s
                = stored st' s)
  ∧ (∀ sid st' r,
       loadContext st sid = Some (st', r) →
       well_formed st' = true ∧ ∀ s, stored st' s = stored st s)
  ∧ (∀ now sid records,
       ∃ st' mid l,
         updateMemory st now sid records = Some st'
         ∧ well_formed st' = true
         ∧ (∀ s, s ≠ sid → stored st' s = stored st s)
         ∧ saveContext mid sid l = Some st'
         ∧ ∀ s, stored mid s = stored st s).
Proof.
  intros Hwf. split; [ | split; [ | split ] ].
  - intros sid st' l. exact (loadContext_isolated st sid st' l Hwf).
  - intros sid l st'. exact (saveContext_isolated st sid l st' Hwf).
  - intros sid st' r. exact (loadContext_preserves st sid st' r Hwf).
  - intros now sid records.
    destruct (updateMemory_spec st now sid records Hwf)
      as (st' & mid & l & E & Esave & _ & Hmid & Hwf' & _ & Hother).
    exists st', mid, l. auto.
Qed.

End Isolation.

(** C10 at the manager that holds one batch: its session loads, and the
    record it loads can be overwritten without a change to what is stored. *)
Lemma ContextMemoryManager_isolates_store_witness :
  well_formed after_one_batch = true
  ∧ ∃ st' l,
      loadContext after_one_batch (u "s") = Some (st', Some l)
      ∧ ∀ s, stored {| heap := <[l := OArray []]> (heap st');
                       storage := storage st' |} s
             = stored after_one_batch s.
Proof.
  assert (Hwf : well_formed after_one_batch = true)
    by (vm_compute; reflexivity).
  split; [ exact Hwf | ].
  destruct (loadContext after_one_batch (u "s")) as [[st' [l|]]|] eqn:Hload;
    [ | vm_compute in Hload; discriminate Hload
      | vm_compute in Hload; discriminate Hload ].
  exists st', l. split; [ reflexivity | ].
  destruct (proj1 (ContextMemoryManager_isolates_store after_one_batch Hwf)
              (u "s") st' l Hload) as (_ & _ & Hframe).
  apply Hframe. intros x Hx. apply lookup_insert_ne.
  intros <-. apply Hx. unfold footprint.
  destruct (get_memory (heap st') l) as [[[? ?] d]|];
    [ destruct (get_data (heap st') d) as [[[[? ?] ?] ?]|] | ];
    left; reflexivity.
Defined.

(* ================================================================== *)
(** * Part III. Further properties                                     *)
(* ================================================================== *)

(** ** The context window of [buildContext] *)

Section ContextWindow.

Lemma lines_from (lines : list jsstring) (a n : nat) :
  a + n ≤ length lines →
  map (line_at lines) (seq a n) = take n (drop a lines).
Proof.
  revert a. induction n as [|n IH]; intros a Hlen; [ reflexivity | ].
  cbn [seq map]. rewrite IH by lia.
  destruct (drop a lines) as [|x rest] eqn:E.
  - apply (f_equal length) in E. rewrite length_drop in E.
    cbn [length] in E. lia.
  - assert (Hx : line_at lines a = x).
    { unfold line_at. rewrite nth_lookup.
      replace (lines !! a) with (drop a lines !! 0)
        by (rewrite lookup_drop; f_equal; lia).
      rewrite E. reflexivity. }
    rewrite Hx. cbn [take]. f_equal. f_equal.
    replace (S a) with (a + 1) by lia. rewrite <- drop_drop, E. reflexivity.
Qed.

(** X1. For an index inside the array, [buildContext] takes the line itself,
    up to three lines before it and up to three lines after it, fewer at the
    two ends of the array. *)
Theorem buildContext_window
    (lines : list jsstring) (i : nat) (types : list jsstring) :
  i < length lines →
  let ctx := buildContext lines i types in
  lines !! i = Some (currentLine ctx)
  ∧ previousLines ctx = drop (i - 3) (take i lines)
  ∧ nextLines ctx = take 3 (drop (S i) lines)
  ∧ length (previousLines ctx) = Nat.min i 3
  ∧ length (nextLines ctx) = Nat.min 3 (length lines - S i).
Proof.
  intros Hi ctx.
  assert (Hprev : previousLines ctx = drop (i - 3) (take i lines)).
  { unfold ctx, buildContext. cbn [previousLines]. unfold WINDOW_SIZE.
    rewrite lines_from by lia.
    rewrite take_drop_commute. f_equal. f_equal. lia. }
  assert (Hnext : nextLines ctx = take 3 (drop (S i) lines)).
  { unfold ctx, buildContext. cbn [nextLines]. unfold WINDOW_SIZE.
    rewrite lines_from by lia.
    replace (i + 1) with (S i) by lia.
    destruct (decide (i + 3 + 1 ≤ length lines)) as [Hle | Hgt].
    - f_equal. lia.
    - replace (length lines `min` (i + 3 + 1) - S i)
        with (length (drop (S i) lines)) by (rewrite length_drop; lia).
      rewrite firstn_all. symmetry. apply take_ge. rewrite length_drop. lia. }
  split; [ | split; [ exact Hprev | split; [ exact Hnext | split ] ] ].
  - unfold ctx, buildContext. cbn [currentLine]. unfold line_at.
    rewrite nth_lookup.
    destruct (lines !! i) as [x|] eqn:Hx; [ reflexivity | ].
    apply lookup_ge_None in Hx. lia.
  - rewrite Hprev, length_drop, length_take. lia.
  - rewrite Hnext, length_take, length_drop. lia.
Qed.

End ContextWindow.

(** X1 on a paste of five lines, at the second line. *)
Lemma buildContext_window_witness :
  let lines := [u "مشهد 1"; u "داخلي - ليل"; u "بيت علي"; u "يدخل علي";
                u "علي:"] in
  1 < length lines
  ∧ previousLines (buildContext lines 1 []) = [u "مشهد 1"]
  ∧ nextLines (buildContext lines 1 []) = [u "بيت علي"; u "يدخل علي"; u "علي:"].
Proof.
  intros lines.
  assert (H : 1 < length lines) by (cbn [length lines]; lia).
  split; [ exact H | ].
  destruct (buildContext_window lines 1 [] H) as (_ & Hprev & Hnext & _).
  split; [ rewrite Hprev | rewrite Hnext ]; reflexivity.
Defined.

(** ** The label history in [buildContext] *)

Section LabelDistances.

Lemma first_index_none (p : jsstring → bool) (xs : list jsstring) :
  first_index p xs = None ↔ ∀ t, In t xs → p t = false.
Proof.
  induction xs as [|x xs IH]; cbn [first_index].
  - split; [ intros _ t [] | reflexivity ].
  - destruct (p x) eqn:Hx.
    + split; [ discriminate | ].
      intros H. rewrite (H x) in Hx; [ discriminate Hx | left; reflexivity ].
    + destruct (first_index p xs) as [k|]; cbn [fmap option_fmap option_map].
      * split; [ discriminate | ].
        intros H. exfalso.
        assert (Some k = None) as E; [ | discriminate E ].
        apply IH. intros t Ht. apply H. right. exact Ht.
      * split; [ | reflexivity ].
        intros _ t [<- | Ht]; [ exact Hx | ].
        apply (proj1 IH); [ reflexivity | exact Ht ].
Qed.

Lemma first_index_found (p : jsstring → bool) (front : list jsstring) x back :
  (∀ t, In t front → p t = false) → p x = true →
  first_index p (front ++ x :: back) = Some (length front).
Proof.
  intros Hfront Hx.
  induction front as [|y front IH]; cbn [app first_index length].
  - rewrite Hx. reflexivity.
  - rewrite (Hfront y) by (left; reflexivity).
    rewrite IH; [ reflexivity | ].
    intros t Ht. apply Hfront. right. exact Ht.
Qed.

Lemma distance_back_none (p : jsstring → bool) (types : list jsstring) :
  distance_back p types = (-1)%Z ↔ ∀ t, In t types → p t = false.
Proof.
  unfold distance_back.
  destruct (first_index p (rev types)) as [k|] eqn:E.
  - split; [ lia | ].
    intros H. exfalso.
    assert (first_index p (rev types) = None) as E'.
    { apply first_index_none. intros t Ht. apply H.
      apply in_rev. exact Ht. }
    congruence.
  - split; [ | reflexivity ].
    intros _ t Ht. apply (proj1 (first_index_none p (rev types)) E).
    apply in_rev in Ht. exact Ht.
Qed.

Lemma distance_back_found (p : jsstring → bool) (before after : list jsstring)
    (x : jsstring) :
  p x = true → (∀ t, In t after → p t = false) →
  distance_back p (before ++ x :: after) = Z.of_nat (length after).
Proof.
  intros Hx Hafter. unfold distance_back.
  rewrite rev_app_distr. cbn [rev]. rewrite <- app_assoc. cbn [app].
  rewrite first_index_found.
  - rewrite length_rev. reflexivity.
  - intros t Ht. apply Hafter. apply in_rev. exact Ht.
  - exact Hx.
Qed.

(** X2. The two distances of [buildContext] count the labels that follow the
    last character label, and the last label that contains "scene-header";
    each is -1 exactly when the history has no such label. *)
Theorem buildContext_distances
    (lines : list jsstring) (i : nat) (types : list jsstring) :
  let found := pattern (buildContext lines i types) in
  (lastCharacterDistance found = (-1)%Z
   ↔ ∀ t, In t types → t ≠ u "character")
  ∧ (∀ before after,
       types = before ++ u "character" :: after →
       (∀ t, In t after → t ≠ u "character") →
       lastCharacterDistance found = Z.of_nat (length after))
  ∧ (lastSceneDistance found = (-1)%Z
     ↔ ∀ t, In t types → includes t (u "scene-header") = false)
  ∧ (∀ before header after,
       types = before ++ header :: after →
       includes header (u "scene-header") = true →
       (∀ t, In t after → includes t (u "scene-header") = false) →
       lastSceneDistance found = Z.of_nat (length after)).
Proof.
  intros found. unfold found, buildContext.
  cbn [pattern lastCharacterDistance lastSceneDistance].
  split; [ | split; [ | split ] ].
  - rewrite distance_back_none. split; intros H t Ht.
    + apply jseq_false. apply H. exact Ht.
    + apply jseq_false. apply H. exact Ht.
  - intros before after -> Hafter. apply distance_back_found.
    + apply jseq_refl.
    + intros t Ht. apply jseq_false. apply Hafter. exact Ht.
  - apply distance_back_none.
  - intros before header after -> Hheader Hafter.
    apply distance_back_found; assumption.
Qed.

Lemma slice_last_app (n : nat) (older recent : list jsstring) :
  length recent = n → slice_last n (older ++ recent) = recent.
Proof.
  intros <-. unfold slice_last. rewrite length_app.
  replace (length older + length recent - length recent) with (length older)
    by lia.
  apply drop_app_length.
Qed.

Lemma slice_last_twice (n m : nat) (xs : list jsstring) :
  n ≤ m → slice_last n (slice_last m xs) = slice_last n xs.
Proof.
  intros Hnm. unfold slice_last. rewrite length_drop, drop_drop.
  f_equal. lia.
Qed.

(** X3. Whether a line is in a dialogue block depends on the last three
    labels of the history only: the older labels, and the cut at ten labels,
    change nothing. *)
Theorem buildContext_dialogue_block
    (lines : list jsstring) (i : nat) (older recent : list jsstring) :
  length recent = 3 →
  isInDialogueBlock (pattern (buildContext lines i (older ++ recent)))
  = existsb (fun t => jseq t (u "character") || jseq t (u "dialogue")
                      || jseq t (u "parenthetical")) recent.
Proof.
  intros Hlen. unfold buildContext. cbn [pattern isInDialogueBlock].
  rewrite slice_last_twice by lia.
  rewrite slice_last_app by exact Hlen. reflexivity.
Qed.

End LabelDistances.

(** X3 on a history of five labels. *)
Lemma buildContext_dialogue_block_witness :
  length [u "action"; u "action"; u "action"] = 3
  ∧ isInDialogueBlock
      (pattern (buildContext [] 0
                  ([u "character"; u "dialogue"]
                   ++ [u "action"; u "action"; u "action"])))
    = false.
Proof.
  split; [ reflexivity | ].
  rewrite (buildContext_dialogue_block [] 0 [u "character"; u "dialogue"]
             [u "action"; u "action"; u "action"] eq_refl).
  vm_compute. reflexivity.
Defined.

(** ** The labels of the classifier *)

Section ClassifierLabels.

Context {host : Host}.
Variable toLowerCase : jsstring -> jsstring.

Ltac differs E := apply jseq_true in E; vm_compute in E; discriminate E.

Ltac is_format :=
  vm_compute; repeat (first [ left; reflexivity | right ]).

(** What [classifyWithContext] answers, and under which pattern. *)
Lemma classifyWithContext_label (line : jsstring) (ctx : LineContext) :
  let label := classifyWithContext line ctx in
  In label formatIds
  ∧ (label = u "parenthetical" ∨ label = u "dialogue" →
     isInDialogueBlock (pattern ctx) = true)
  ∧ (label = u "scene-header-3" → isInSceneHeader (pattern ctx) = true).
Proof.
  unfold classifyWithContext. cbv zeta.
  repeat match goal with
         | |- context [if ?c then _ else _] => destruct c eqn:?
         end;
    (split; [ is_format | split ]);
    try (intros [E | E]; differs E);
    try (intros E; differs E);
    intros _;
    repeat match goal with
           | H : _ && _ = true |- _ => apply andb_true_iff in H as [? ?]
           end;
    assumption.
Qed.

(** The last test of [adjustWithMemory] changes nothing: a character label
    stays a character label whatever the count of appearances is. *)
Lemma adjustWithMemory_closed (line : jsstring) (ctx : LineContext)
    (memory : ContextMemory) (classification : jsstring) :
  adjustWithMemory toLowerCase line ctx memory classification
  = let c1 :=
      if isShort (stats ctx) && negb (hasPunctuation (stats ctx)) then
        match
          List.find
            (fun char =>
               includes (toLowerCase char)
                 (toLowerCase (remove_all is_colon (normalizeLine line)))
               || includes
                    (toLowerCase (remove_all is_colon (normalizeLine line)))
                    (toLowerCase char))
            (commonCharacters (data memory))
        with
        | Some known =>
            if truthy known && (wordCount (stats ctx) <=? 3)%nat
               && (length line <? 40)%nat
            then u "character" else classification
        | None => classification
        end
      else classification in
    let recentPattern :=
      join (u "-") (take 3 (lastClassifications (data memory))) in
    let lastType := last_of (previousTypes ctx) in
    let c2 :=
      if startsWith recentPattern (u "character-dialogue")
         && is_label lastType "dialogue"
         && negb (hasColon (stats ctx))
         && isLikelyAction line
      then u "action" else c1 in
    let c3 :=
      if jseq recentPattern (u "dialogue-dialogue-dialogue")
         && is_label lastType "dialogue"
         && negb (hasColon (stats ctx))
         && negb (isCompleteSceneHeader line)
      then u "dialogue" else c2 in
    if jseq recentPattern (u "action-action-action")
       && is_label lastType "action"
       && isLong (stats ctx)
    then u "action" else c3.
Proof.
  unfold adjustWithMemory. cbv zeta.
  match goal with
  | |- (if jseq ?c4 _ then _ else _) = _ =>
      destruct (jseq c4 (u "character")) eqn:E; [ | reflexivity ];
      apply jseq_true in E;
      destruct (at_least_three _); [ symmetry; exact E | reflexivity ]
  end.
Qed.

(** What the memory can turn a label into. *)
Lemma adjustWithMemory_label (line : jsstring) (ctx : LineContext)
    (memory : ContextMemory) (classification : jsstring) :
  let label := adjustWithMemory toLowerCase line ctx memory classification in
  label = classification ∨ label = u "character" ∨ label = u "action"
  ∨ (label = u "dialogue"
     ∧ last_of (previousTypes ctx) = Some (u "dialogue")).
Proof.
  rewrite adjustWithMemory_closed. cbv zeta.
  destruct (jseq _ (u "action-action-action") && _ && _); [ auto | ].
  destruct (jseq _ (u "dialogue-dialogue-dialogue") && _ && _ && _) eqn:E3.
  { right; right; right. split; [ reflexivity | ].
    apply andb_true_iff in E3 as [E3 _]. apply andb_true_iff in E3 as [E3 _].
    apply andb_true_iff in E3 as [_ E3].
    destruct (last_of (previousTypes ctx)) as [t|]; [ | discriminate E3 ].
    cbn [is_label] in E3. apply jseq_true in E3. rewrite E3. reflexivity. }
  destruct (startsWith _ (u "character-dialogue") && _ && _ && _); [ auto | ].
  destruct (isShort (stats ctx) && negb (hasPunctuation (stats ctx)));
    [ | auto ].
  destruct (find _ _) as [known|]; [ | auto ].
  destruct (truthy known && _ && _); auto.
Qed.

(** The classifier with the memory answers, with a format of the editor. *)
Lemma classifyWithContextAndMemory_label (line : jsstring) (ctx : LineContext)
    (memoryManager : option (jsstring -> LoadOutcome)) (sessionId : jsstring) :
  ∃ label,
    classifyWithContextAndMemory toLowerCase line ctx memoryManager sessionId
    = Returned label
    ∧ In label formatIds
    ∧ (label = u "parenthetical" → isInDialogueBlock (pattern ctx) = true)
    ∧ (label = u "scene-header-3" → isInSceneHeader (pattern ctx) = true)
    ∧ (label = u "dialogue" →
       isInDialogueBlock (pattern ctx) = true
       ∨ last_of (previousTypes ctx) = Some (u "dialogue")).
Proof.
  destruct (classifyWithContext_label line ctx) as (Hin & Hdialogue & Hheader).
  cbv zeta in Hin, Hdialogue, Hheader.
  assert (Hplain :
            In (classifyWithContext line ctx) formatIds
            ∧ (classifyWithContext line ctx = u "parenthetical" →
               isInDialogueBlock (pattern ctx) = true)
            ∧ (classifyWithContext line ctx = u "scene-header-3" →
               isInSceneHeader (pattern ctx) = true)
            ∧ (classifyWithContext line ctx = u "dialogue" →
               isInDialogueBlock (pattern ctx) = true
               ∨ last_of (previousTypes ctx) = Some (u "dialogue")))
    by (repeat split; auto).
  unfold classifyWithContextAndMemory.
  destruct memoryManager as [manager|];
    [ destruct (manager sessionId) as [memory| |error] | ];
    try (eexists; split; [ reflexivity | exact Hplain ]).
  eexists; split; [ reflexivity | ].
  destruct (adjustWithMemory_label line ctx memory
              (classifyWithContext line ctx))
    as [E | [E | [E | [E Hlast]]]]; cbv zeta in E; rewrite E.
  - exact Hplain.
  - split; [ is_format | ].
    repeat split; intros E'; differs E'.
  - split; [ is_format | ].
    repeat split; intros E'; differs E'.
  - split; [ is_format | ].
    split; [ intros E'; differs E' | ].
    split; [ intros E'; differs E' | ].
    intros _. right. exact Hlast.
Qed.

End ClassifierLabels.

(** ** One turn of the loop of [handlePaste] *)

Section PasteStep.

Context {host : Host}.
Variable toLowerCase : jsstring -> jsstring.
Variable CSS : Type.
Variable getFormatStylesFn : jsstring -> jsstring -> jsstring -> CSS.

Let process := processLine toLowerCase CSS getFormatStylesFn.

Ltac differs E := apply jseq_true in E; vm_compute in E; discriminate E.

Lemma formatClassMap_of_id (id : jsstring) :
  In id formatIds → get_property formatClassMap id = Some (format_class id).
Proof.
  assert (H : forallb
                (fun id => match get_property formatClassMap id with
                           | Some c => jseq c (format_class id)
                           | None => false
                           end) formatIds = true)
    by (vm_compute; reflexivity).
  rewrite forallb_forall in H. intros Hin. specialize (H id Hin).
  destruct (get_property formatClassMap id) as [c|]; [ | discriminate H ].
  apply jseq_true in H. rewrite H. reflexivity.
Qed.

Lemma getSpacingMarginTop_values (previous current : jsstring) :
  let m := applied_margin (Some (getSpacingMarginTop previous current)) in
  m = None ∨ m = Some (u "0") ∨ m = Some (u "14pt").
Proof.
  unfold getSpacingMarginTop.
  repeat match goal with
         | |- context [if ?c then _ else _] => destruct c
         end;
    cbv zeta;
    first [ left; vm_compute; reflexivity
          | right; left; vm_compute; reflexivity
          | right; right; vm_compute; reflexivity ].
Qed.

Lemma known_div_of (id : jsstring) (previous : jsstring) :
  In id formatIds →
  known_div (format_class id,
             applied_margin (Some (getSpacingMarginTop previous id))).
Proof.
  intros Hin. split; cbn [fst snd].
  - exists id. apply formatClassMap_of_id. exact Hin.
  - apply getSpacingMarginTop_values.
Qed.

Lemma first_context (lines : list jsstring) (i : nat) :
  let ctx := buildContext lines i [] in
  isInDialogueBlock (pattern ctx) = false
  ∧ isInSceneHeader (pattern ctx) = false
  ∧ last_of (previousTypes ctx) = None.
Proof. cbv zeta. unfold buildContext. repeat split. Qed.

(** What one turn adds: nothing for a blank line; otherwise one block, or a
    character block and a dialogue block, with the labels of their classes. *)
Lemma processLine_step lines mm sid i (st : PasteState CSS) :
  ∃ st' blocks labels,
    process lines mm sid i st = Returned st'
    ∧ formattedHTML st' = formattedHTML st ++ blocks
    ∧ classifiedTypes st' = classifiedTypes st ++ labels
    ∧ previousFormatClass st'
      = default (previousFormatClass st) (last_of labels)
    ∧ map block_class blocks = map format_class labels
    ∧ (if truthy (trim (line_at lines i))
       then 1 ≤ length blocks ≤ 2 else blocks = [])
    ∧ Forall known_div (flat_map block_divs blocks)
    ∧ (classifiedTypes st = [] →
       ∀ label more, labels = label :: more → opens_nothing label = false).
Proof.
  unfold process, processLine.
  destruct (truthy (trim (line_at lines i))); cbn [negb].
  2: { exists st, [], []. rewrite !app_nil_r.
       do 6 (split; [ reflexivity | ]).
       split; [ constructor | discriminate ]. }
  destruct (parseInlineCharacterDialogue _) as [parts|].
  { eexists _, [_; _], [u "character"; u "dialogue"].
    do 3 (split; [ reflexivity | ]).
    do 2 (split; [ vm_compute; reflexivity | ]).
    split; [ cbn [length]; lia | ].
    split.
    - cbn [flat_map block_divs app buildLineDivHTML lineClass lineMarginTop].
      constructor; [ | constructor; [ | constructor ] ].
      + replace (u "format-character") with (format_class (u "character"))
          by (vm_compute; reflexivity).
        apply known_div_of.
        vm_compute. repeat (first [ left; reflexivity | right ]).
      + split; cbn [fst snd].
        * exists (u "dialogue"). vm_compute. reflexivity.
        * right; left. vm_compute. reflexivity.
    - intros _ label more [= <- _]. vm_compute. reflexivity. }
  destruct (classifyWithContextAndMemory_label toLowerCase
              (stripLeadingBullets (trim (line_at lines i)))
              (buildContext lines i (classifiedTypes st)) mm sid)
    as (c & -> & Hin & Hpar & Hheader & Hdialogue).
  cbn [and_then].
  assert (Hfirst : classifiedTypes st = [] → opens_nothing c = false).
  { intros Hnone. rewrite Hnone in Hpar, Hheader, Hdialogue.
    destruct (first_context lines i) as (H1 & H2 & H3). cbv zeta in H1, H2, H3.
    rewrite H1 in Hpar, Hdialogue. rewrite H2 in Hheader.
    rewrite H3 in Hdialogue.
    unfold opens_nothing.
    destruct (jseq c (u "dialogue")) eqn:E1.
    { apply jseq_true in E1. destruct (Hdialogue E1); discriminate. }
    destruct (jseq c (u "parenthetical")) eqn:E2.
    { apply jseq_true in E2. specialize (Hpar E2). discriminate Hpar. }
    destruct (jseq c (u "scene-header-3")) eqn:E3.
    { apply jseq_true in E3. specialize (Hheader E3). discriminate Hheader. }
    reflexivity. }
  destruct (jseq c (u "scene-header-top-line")) eqn:Etop.
  - apply jseq_true in Etop.
    destruct (splitSceneHeader _) as [parts|].
    + eexists _, [_], [u "scene-header-top-line"].
      do 3 (split; [ reflexivity | ]).
    do 2 (split; [ vm_compute; reflexivity | ]).
      split; [ cbn [length]; lia | ].
      split.
      * cbn [flat_map block_divs app buildLineDivHTML lineClass
               lineMarginTop applied_margin].
        constructor; [ | constructor; [ | constructor; [ | constructor ] ] ].
        -- replace (u "format-scene-header-top-line")
             with (format_class (u "scene-header-top-line"))
             by (vm_compute; reflexivity).
           apply known_div_of.
           vm_compute. repeat (first [ left; reflexivity | right ]).
        -- split; cbn [fst snd]; [ | left; reflexivity ].
           exists (u "scene-header-1"). vm_compute. reflexivity.
        -- split; cbn [fst snd]; [ | left; reflexivity ].
           exists (u "scene-header-2"). vm_compute. reflexivity.
      * intros Hnone label more [= <- _]. rewrite <- Etop. auto.
    + eexists _, [_], [c].
      do 5 (split; [ reflexivity | ]).
      split; [ cbn [length]; lia | ].
      split.
      * cbn [flat_map block_divs app buildLineDivHTML lineClass
               lineMarginTop].
        constructor; [ | constructor ]. apply known_div_of. exact Hin.
      * intros Hnone label more [= <- _]. auto.
  - eexists _, [_], [c].
    do 5 (split; [ reflexivity | ]).
    split; [ cbn [length]; lia | ].
    split.
    + cbn [flat_map block_divs app buildLineDivHTML lineClass lineMarginTop].
      constructor; [ | constructor ]. apply known_div_of. exact Hin.
    + intros Hnone label more [= <- _]. auto.
Qed.

End PasteStep.

(** ** The whole loop of [handlePaste] *)

Section PasteLoop.

Context {host : Host}.
Variable toLowerCase : jsstring -> jsstring.
Variable CSS : Type.
Variable getFormatStylesFn : jsstring -> jsstring -> jsstring -> CSS.

Let process := processLine toLowerCase CSS getFormatStylesFn.

Lemma last_of_app (xs ys : list jsstring) (d : jsstring) :
  default (default d (last_of xs)) (last_of ys) = default d (last_of (xs ++ ys)).
Proof.
  unfold last_of. rewrite rev_app_distr.
  destruct (rev ys) as [|y ys']; cbn [app default from_option id];
    reflexivity.
Qed.

Lemma run_loop_steps lines mm sid indices (st : PasteState CSS) :
  ∃ st' blocks labels,
    run_loop CSS (process lines mm sid) indices st = Returned st'
    ∧ formattedHTML st' = formattedHTML st ++ blocks
    ∧ classifiedTypes st' = classifiedTypes st ++ labels
    ∧ previousFormatClass st'
      = default (previousFormatClass st) (last_of labels)
    ∧ map block_class blocks = map format_class labels
    ∧ written lines indices ≤ length blocks ≤ 2 * written lines indices
    ∧ Forall known_div (flat_map block_divs blocks)
    ∧ (classifiedTypes st = [] →
       ∀ label more, labels = label :: more → opens_nothing label = false).
Proof.
  revert st. induction indices as [|i rest IH]; intros st; cbn [run_loop].
  { exists st, [], []. rewrite !app_nil_r.
    do 4 (split; [ reflexivity | ]).
    split; [ reflexivity | ].
    split; [ unfold written; cbn [List.filter length]; lia | ].
    split; [ constructor | discriminate ]. }
  destruct (processLine_step toLowerCase CSS getFormatStylesFn lines mm sid i
              st)
    as (st1 & b1 & l1 & Hrun & Hb1 & Hl1 & Hp1 & Hm1 & Hn1 & Hk1 & Hf1).
  fold process in Hrun. rewrite Hrun. cbn [and_then].
  destruct (IH st1)
    as (st' & b2 & l2 & Hrun' & Hb2 & Hl2 & Hp2 & Hm2 & Hn2 & Hk2 & Hf2).
  exists st', (b1 ++ b2), (l1 ++ l2).
  split; [ exact Hrun' | ].
  split; [ rewrite Hb2, Hb1, app_assoc; reflexivity | ].
  split; [ rewrite Hl2, Hl1, app_assoc; reflexivity | ].
  split; [ rewrite Hp2, Hp1; apply last_of_app | ].
  split; [ rewrite !map_app, Hm1, Hm2; reflexivity | ].
  split.
  { rewrite length_app. unfold written in *. cbn [List.filter].
    destruct (truthy (trim (line_at lines i))); cbn [length].
    - lia.
    - rewrite Hn1. cbn [length]. lia. }
  split; [ rewrite flat_map_app; apply Forall_app; split; assumption | ].
  intros Hnone label more Hlabels.
  destruct l1 as [|x l1'].
  - cbn [app] in Hlabels. rewrite app_nil_r in Hl1.
    apply (Hf2 (eq_trans Hl1 Hnone) label more Hlabels).
  - cbn [app] in Hlabels. injection Hlabels as <- _.
    apply (Hf1 Hnone x l1' eq_refl).
Qed.

Lemma paste_lines_written (textData : jsstring) :
  written (paste_lines textData) (seq 0 (length (paste_lines textData)))
  = length (paste_lines textData).
Proof.
  unfold written.
  rewrite List.forallb_filter_id; [ apply length_seq | ].
  apply forallb_forall. intros i Hi. apply in_seq in Hi.
  unfold line_at.
  assert (Hin : In (nth i (paste_lines textData) []) (paste_lines textData))
    by (apply nth_In; lia).
  unfold paste_lines in Hin at 2. apply filter_In in Hin as [_ Hin].
  exact Hin.
Qed.

(** The run of [handlePaste], from the first state. *)
Lemma handlePaste_steps (textData : jsstring) (hasSelection : bool)
    (mm : option (jsstring -> LoadOutcome)) (sid : jsstring) :
  ∃ st,
    handlePaste toLowerCase CSS getFormatStylesFn textData hasSelection mm sid
    = Returned st
    ∧ previousFormatClass st
      = default (u "action") (last_of (classifiedTypes st))
    ∧ map block_class (formattedHTML st)
      = map format_class (classifiedTypes st)
    ∧ (if hasSelection
       then length (paste_lines textData) ≤ length (formattedHTML st)
            ≤ 2 * length (paste_lines textData)
       else formattedHTML st = [])
    ∧ Forall known_div (flat_map block_divs (formattedHTML st))
    ∧ (∀ label more,
         classifiedTypes st = label :: more → opens_nothing label = false).
Proof.
  assert (Hnothing :
            previousFormatClass (initialState CSS)
            = default (u "action") (last_of (classifiedTypes (initialState CSS)))
            ∧ map block_class (formattedHTML (initialState CSS))
              = map format_class (classifiedTypes (initialState CSS))
            ∧ formattedHTML (initialState CSS) = []
            ∧ Forall known_div
                (flat_map block_divs (formattedHTML (initialState CSS)))
            ∧ (∀ label more,
                 classifiedTypes (initialState CSS) = label :: more →
                 opens_nothing label = false)).
  { repeat split; [ constructor | discriminate ]. }
  destruct Hnothing as (N1 & N2 & N3 & N4 & N5).
  unfold handlePaste.
  destruct (truthy textData) eqn:Htext; cbn [negb].
  2: { exists (initialState CSS).
       destruct textData; [ | discriminate Htext ].
       do 3 (split; [ assumption || reflexivity | ]).
       split; [ | split; assumption ].
       destruct hasSelection; [ | exact N3 ].
       rewrite N3. replace (paste_lines []) with (@nil jsstring) by reflexivity.
       cbn [length]. lia. }
  destruct hasSelection; cbn [negb].
  2: { exists (initialState CSS). repeat split; assumption. }
  destruct (run_loop_steps (paste_lines textData) mm sid
              (seq 0 (length (paste_lines textData))) (initialState CSS))
    as (st & blocks & labels & Hrun & Hb & Hl & Hp & Hm & Hn & Hk & Hf).
  exists st. cbn [initialState formattedHTML classifiedTypes
                    previousFormatClass app] in Hb, Hl, Hp, Hf.
  rewrite Hb, Hl.
  split; [ exact Hrun | ].
  split; [ exact Hp | ].
  split; [ exact Hm | ].
  split; [ rewrite paste_lines_written in Hn; exact Hn | ].
  split; [ exact Hk | ].
  exact (Hf eq_refl).
Qed.

(** X4. Every [div] that [handlePaste] writes has a class of
    [formatClassMap], and either no margin of its own or one of the two
    margins of the spacing rules, whatever the manager answers. *)
Theorem handlePaste_known_classes_and_margins
    (textData : jsstring) (hasSelection : bool)
    (memoryManager : option (jsstring -> LoadOutcome)) (sessionId : jsstring) :
  ∃ st,
    handlePaste toLowerCase CSS getFormatStylesFn textData hasSelection
      memoryManager sessionId = Returned st
    ∧ Forall known_div (flat_map block_divs (formattedHTML st)).
Proof.
  destruct (handlePaste_steps textData hasSelection memoryManager sessionId)
    as (st & Hrun & _ & _ & _ & Hknown & _).
  exists st. split; assumption.
Qed.

(** X5. The label history that the classifier reads is the list of the
    classes of the blocks written so far; the class kept for the spacing is
    the last label, or "action" before the first block; and every line of
    the paste that is not blank gives one block or two. *)
Theorem handlePaste_history_mirrors_blocks
    (textData : jsstring) (hasSelection : bool)
    (memoryManager : option (jsstring -> LoadOutcome)) (sessionId : jsstring) :
  ∃ st,
    handlePaste toLowerCase CSS getFormatStylesFn textData hasSelection
      memoryManager sessionId = Returned st
    ∧ map block_class (formattedHTML st)
      = map format_class (classifiedTypes st)
    ∧ previousFormatClass st
      = default (u "action") (last_of (classifiedTypes st))
    ∧ (if hasSelection
       then length (paste_lines textData) ≤ length (formattedHTML st)
            ≤ 2 * length (paste_lines textData)
       else formattedHTML st = []).
Proof.
  destruct (handlePaste_steps textData hasSelection memoryManager sessionId)
    as (st & Hrun & Hprevious & Hmirror & Hcount & _).
  exists st. repeat split; assumption.
Qed.

(** X6. The first block of a paste is never a dialogue, a parenthetical or a
    third scene header line: those labels need a label before them, with
    or without the memory. *)
Theorem handlePaste_first_block
    (textData : jsstring) (hasSelection : bool)
    (memoryManager : option (jsstring -> LoadOutcome)) (sessionId : jsstring) :
  ∃ st,
    handlePaste toLowerCase CSS getFormatStylesFn textData hasSelection
      memoryManager sessionId = Returned st
    ∧ ∀ b rest,
        formattedHTML st = b :: rest →
        ∃ label, block_class b = format_class label
                 ∧ opens_nothing label = false.
Proof.
  destruct (handlePaste_steps textData hasSelection memoryManager sessionId)
    as (st & Hrun & _ & Hmirror & _ & _ & Hfirst).
  exists st. split; [ exact Hrun | ].
  intros b rest Hblocks. rewrite Hblocks in Hmirror.
  destruct (classifiedTypes st) as [|label more]; [ discriminate Hmirror | ].
  cbn [map] in Hmirror. injection Hmirror as Hclass _.
  exists label. split; [ exact Hclass | ].
  apply (Hfirst label more eq_refl).
Qed.

End PasteLoop.

(** ** The classifier and the history *)

Section ClassifierAndHistory.

Context {host : Host}.
Variable toLowerCase : jsstring -> jsstring.

(** X7. On the context that [buildContext] makes, [classifyWithContext]
    answers with the [id] of a format of the editor, and with "dialogue" or
    "parenthetical" only when one of the last three labels of the history is
    a character, a dialogue or a parenthetical label. *)
Theorem classifyWithContext_needs_dialogue_block
    (line : jsstring) (lines : list jsstring) (i : nat)
    (types : list jsstring) :
  let label := classifyWithContext line (buildContext lines i types) in
  In label formatIds
  ∧ (label = u "parenthetical" ∨ label = u "dialogue" →
     existsb in_dialogue (slice_last 3 types) = true).
Proof.
  intros label.
  destruct (classifyWithContext_label line (buildContext lines i types))
    as (Hin & Hdialogue & _).
  split; [ exact Hin | ].
  intros Hlabel. specialize (Hdialogue Hlabel).
  unfold buildContext in Hdialogue. cbn [pattern isInDialogueBlock] in Hdialogue.
  rewrite slice_last_twice in Hdialogue by lia. exact Hdialogue.
Qed.

(** X8. Of a session memory, [adjustWithMemory] reads the character names
    and the first three labels only: the count of appearances, the
    locations, the session and the time of the record change nothing. *)
Theorem adjustWithMemory_reads_names_and_labels
    (line : jsstring) (ctx : LineContext) (memory memory' : ContextMemory)
    (classification : jsstring) :
  commonCharacters (data memory) = commonCharacters (data memory') →
  take 3 (lastClassifications (data memory))
  = take 3 (lastClassifications (data memory')) →
  adjustWithMemory toLowerCase line ctx memory classification
  = adjustWithMemory toLowerCase line ctx memory' classification.
Proof.
  intros Hnames Hlabels. rewrite !adjustWithMemory_closed. cbv zeta.
  rewrite Hnames, Hlabels. reflexivity.
Qed.

Lemma adjustWithMemory_of_nothing (line : jsstring) (ctx : LineContext)
    (memory : ContextMemory) (classification : jsstring) :
  commonCharacters (data memory) = [] →
  lastClassifications (data memory) = [] →
  adjustWithMemory toLowerCase line ctx memory classification
  = classification.
Proof.
  intros Hnames Hlabels. rewrite adjustWithMemory_closed. cbv zeta.
  rewrite Hnames, Hlabels. cbn [take join find].
  replace (jseq [] (u "action-action-action")) with false
    by (vm_compute; reflexivity).
  replace (jseq [] (u "dialogue-dialogue-dialogue")) with false
    by (vm_compute; reflexivity).
  replace (startsWith [] (u "character-dialogue")) with false
    by (vm_compute; reflexivity).
  cbn [andb]. destruct (isShort (stats ctx) && _); reflexivity.
Qed.

Variable CSS : Type.
Variable getFormatStylesFn : jsstring -> jsstring -> jsstring -> CSS.

Lemma run_loop_ext (f g : nat → PasteState CSS → Completion (PasteState CSS))
    (indices : list nat) (st : PasteState CSS) :
  (∀ i st, f i st = g i st) →
  run_loop CSS f indices st = run_loop CSS g indices st.
Proof.
  intros Hfg. revert st.
  induction indices as [|i rest IH]; intros st; cbn [run_loop];
    [ reflexivity | ].
  rewrite Hfg. destruct (g i st); cbn [and_then]; [ apply IH | reflexivity ].
Qed.

(** X9. A manager that has no record for the session, or that fails, or
    whose record has no character name and no label, leaves the whole paste
    as it is without a manager. *)
Theorem handlePaste_without_useful_memory
    (textData : jsstring) (hasSelection : bool)
    (manager : jsstring -> LoadOutcome) (sessionId : jsstring) :
  manager sessionId = NotFound
  ∨ (∃ error, manager sessionId = Rejected error)
  ∨ (∃ memory, manager sessionId = Loaded memory
               ∧ commonCharacters (data memory) = []
               ∧ lastClassifications (data memory) = []) →
  handlePaste toLowerCase CSS getFormatStylesFn textData hasSelection
    (Some manager) sessionId
  = handlePaste toLowerCase CSS getFormatStylesFn textData hasSelection
      None sessionId.
Proof.
  intros Hmanager.
  assert (Hsame : ∀ line ctx,
             classifyWithContextAndMemory toLowerCase line ctx (Some manager)
               sessionId
             = classifyWithContextAndMemory toLowerCase line ctx None
                 sessionId).
  { intros line ctx. unfold classifyWithContextAndMemory.
    destruct Hmanager as [-> | [[error ->] | (memory & -> & Hn & Hl)]];
      try reflexivity.
    rewrite adjustWithMemory_of_nothing by assumption. reflexivity. }
  unfold handlePaste.
  destruct (negb (truthy textData)); [ reflexivity | ].
  destruct (negb hasSelection); [ reflexivity | ].
  apply run_loop_ext. intros i st. unfold processLine.
  rewrite Hsame. reflexivity.
Qed.

End ClassifierAndHistory.

(** X8 on two records that share the names only. *)
Lemma adjustWithMemory_reads_names_and_labels_witness :
  let ctx := buildContext [u "علي"] 0 [] in
  commonCharacters (data (memory_knowing (u "علي")))
  = commonCharacters (data (memory_counting (u "علي")))
  ∧ characterDialogueMap (data (memory_counting (u "علي"))) !! u "علي"
    = Some (Num 7)
  ∧ adjustWithMemory lower_ascii (u "علي") ctx (memory_knowing (u "علي"))
      (u "action")
    = adjustWithMemory lower_ascii (u "علي") ctx
        (memory_counting (u "علي")) (u "action").
Proof.
  intros ctx. split; [ reflexivity | ].
  split; [ apply lookup_singleton_eq | ].
  apply adjustWithMemory_reads_names_and_labels; reflexivity.
Defined.

(** X9 on the manager that [EditorArea] makes, which nothing updates. *)
Lemma handlePaste_without_useful_memory_witness :
  observe (new_manager ∅) (u "s") = NotFound
  ∧ handlePaste lower_ascii StringObject
      (editorFormatStyles (u "12pt") (u "Cairo"))
      (u "علي: أين أنت؟") true (Some (observe (new_manager ∅))) (u "s")
    = handlePaste lower_ascii StringObject
        (editorFormatStyles (u "12pt") (u "Cairo"))
        (u "علي: أين أنت؟") true None (u "s").
Proof.
  assert (H : observe (new_manager ∅) (u "s") = NotFound) by reflexivity.
  split; [ exact H | ].
  apply handlePaste_without_useful_memory. left. exact H.
Defined.

(** ** What [updateMemory] remembers *)

Section Remembered.

Context {host : Host}.

Implicit Types (d : MemoryData) (v : ContextMemory) (st : State)
  (name : jsstring) (old : option Count).

Lemma has_spec (set : list jsstring) (x : jsstring) :
  has set x = true ↔ In x set.
Proof.
  unfold has. rewrite existsb_exists. split.
  - intros (y & Hy & E). apply jseq_true in E. rewrite E. exact Hy.
  - intros Hx. exists x. split; [ exact Hx | apply jseq_refl ].
Qed.

Lemma commonLocations_remembered records d :
  commonLocations (fold_left remember_character_value records d)
  = commonLocations d.
Proof.
  revert d. induction records as [|r rest IH]; intros d; cbn [fold_left];
    [ reflexivity | ].
  rewrite IH. unfold remember_character_value.
  destruct (jseq _ _); [ | reflexivity ].
  destruct (truthy _); reflexivity.
Qed.

(** The assignment to the property of a name, read back. *)
Lemma bumped_member (cdm : gmap jsstring Count) name :
  set_member cdm name (plus_one (get_member cdm name)) !! name
  = bumped name (cdm !! name).
Proof.
  unfold set_member, bumped, get_member.
  destruct (cdm !! name) as [c|] eqn:E.
  - apply lookup_insert_eq.
  - rewrite lookup_empty.
    destruct (jseq name (u "__proto__")); [ exact E | ].
    apply lookup_insert_eq.
Qed.

Lemma other_member (cdm : gmap jsstring Count) key (c : Count) name :
  key ≠ name → set_member cdm key c !! name = cdm !! name.
Proof.
  intros Hne. unfold set_member.
  destruct (cdm !! key); [ apply lookup_insert_ne; exact Hne | ].
  destruct (jseq key (u "__proto__")); [ reflexivity | ].
  apply lookup_insert_ne. exact Hne.
Qed.

(** One record changes the property of its name, and of no other. *)
Lemma remembered_one d record name :
  characterDialogueMap (remember_character_value d record) !! name
  = if names_character name record
    then bumped name (characterDialogueMap d !! name)
    else characterDialogueMap d !! name.
Proof.
  unfold remember_character_value, names_character.
  destruct (jseq (rec_classification record) (u "character"));
    cbn [andb]; [ | reflexivity ].
  destruct (truthy (record_name record)); cbn [andb]; [ | reflexivity ].
  cbn [characterDialogueMap].
  destruct (jseq (record_name record) name) eqn:E.
  - apply jseq_true in E. rewrite E. apply bumped_member.
  - apply jseq_false in E. apply other_member. exact E.
Qed.

Lemma remembered records d name :
  characterDialogueMap (fold_left remember_character_value records d) !! name
  = Nat.iter (times_named name records) (bumped name)
      (characterDialogueMap d !! name).
Proof.
  unfold times_named. revert d.
  induction records as [|r rest IH]; intros d;
    cbn [fold_left List.filter]; [ reflexivity | ].
  rewrite IH, remembered_one.
  destruct (names_character name r); [ | reflexivity ].
  cbn [length]. rewrite Nat.iter_succ_r. reflexivity.
Qed.

Lemma ones_succ (k : nat) : ones k ++ u "1" = ones (S k).
Proof.
  replace (u "1") with [49%N] by (vm_compute; reflexivity).
  unfold ones. symmetry. apply repeat_cons.
Qed.

Lemma truthy_app_l (s t : jsstring) : truthy s = true → truthy (s ++ t) = true.
Proof. destruct s; [ discriminate | reflexivity ]. Qed.

Lemma truthy_app_r (s t : jsstring) : truthy t = true → truthy (s ++ t) = true.
Proof. destruct s; [ auto | reflexivity ]. Qed.

(** One more record for the name. *)
Lemma added_succ name (k : nat) old :
  added name (S k) old = bumped name (added name k old).
Proof.
  destruct old as [[n|s]|].
  - (* a number *)
    destruct k as [|k]; cbn [added bumped plus_one]; do 2 f_equal; lia.
  - (* a string *)
    destruct (truthy s) eqn:Hs.
    + assert (E : ∀ j, added name j (Some (Text s))
                       = Some (Text (s ++ ones j))).
      { intros [|j]; cbn [added]; [ | rewrite Hs; reflexivity ].
        unfold ones. cbn [repeat]. rewrite app_nil_r. reflexivity. }
      rewrite !E. cbn [bumped plus_one].
      rewrite (truthy_app_l _ _ Hs), <- app_assoc, ones_succ. reflexivity.
    + destruct k as [|k]; cbn [added bumped plus_one]; rewrite Hs;
        [ reflexivity | ].
      cbn [bumped plus_one]. do 2 f_equal. lia.
  - (* no property *)
    destruct k as [|k]; cbn [added counted bumped].
    + unfold get_member. rewrite lookup_empty.
      destruct (jseq name (u "__proto__")); [ reflexivity | ].
      destruct (inheritedText name) as [text|]; cbn [plus_one];
        [ | reflexivity ].
      rewrite <- (ones_succ 0). reflexivity.
    + destruct (jseq name (u "__proto__")) eqn:E;
        [ cbn [bumped]; rewrite E; reflexivity | ].
      destruct (inheritedText name) as [text|]; cbn [bumped plus_one].
      * rewrite truthy_app_r by reflexivity.
        rewrite <- app_assoc, ones_succ. reflexivity.
      * do 2 f_equal. lia.
Qed.

Lemma iter_bumped name (k : nat) old :
  Nat.iter k (bumped name) old = added name k old.
Proof.
  induction k as [|k IH]; [ destruct old as [[|]|]; reflexivity | ].
  cbn [Nat.iter nat_rect]. rewrite added_succ. f_equal. exact IH.
Qed.

Lemma added_add name (j k : nat) old :
  added name (j + k) old = added name k (added name j old).
Proof.
  rewrite <- !iter_bumped, Nat.add_comm. apply Nat.iter_add.
Qed.

Lemma added_none name (k : nat) : added name k None = counted name k.
Proof. destruct k; reflexivity. Qed.

(** What the records of a call make of the property of a name. *)
Lemma count_of_updated now sid before records name :
  count_of (Some (updated_memory now sid before records)) name
  = added name (times_named name records) (count_of before name).
Proof.
  unfold count_of, updated_memory. cbn [mbind option_bind data].
  rewrite remembered, iter_bumped. cbn [characterDialogueMap].
  destruct before as [v0|]; cbn [default from_option id];
    [ reflexivity | ].
  cbn [empty_memory data characterDialogueMap]. rewrite lookup_empty.
  reflexivity.
Qed.

(** The invariant of a record through one remembered line. *)
Lemma kept_well_remembered sid v record :
  kept_well sid v →
  kept_well sid (set_data v (remember_character_value (data v) record)).
Proof.
  intros Hv. pose proof Hv as (Hsid & Hnodup & Hloc & Hlen & Hkeys & Hcount
                               & Hname).
  pose proof (remembered_one (data v) record) as Hone.
  unfold names_character in Hone. revert Hone.
  unfold remember_character_value.
  destruct (jseq (rec_classification record) (u "character"));
    [ | rewrite set_data_same; intros _; exact Hv ].
  destruct (truthy (record_name record)) eqn:Htruthy;
    [ | rewrite set_data_same; intros _; exact Hv ].
  set (name := record_name record) in *.
  cbn [characterDialogueMap andb]. intros Hone.
  set (cdm' := set_member (characterDialogueMap (data v)) name _) in *.
  assert (Hsame : ∀ n, n ≠ name →
                       cdm' !! n = characterDialogueMap (data v) !! n).
  { intros n Hn. rewrite (Hone n).
    destruct (jseq name n) eqn:E; [ | reflexivity ].
    apply jseq_true in E. congruence. }
  assert (Hnew : cdm' !! name
                 = bumped name (characterDialogueMap (data v) !! name))
    by (rewrite (Hone name), jseq_refl; reflexivity).
  clear Hone.
  assert (Hvalue : ∀ c, cdm' !! name = Some c →
                        name ≠ u "__proto__"
                        ∧ ∃ k, 1 ≤ k ∧ counted name k = Some c).
  { intros c. rewrite Hnew.
    destruct (characterDialogueMap (data v) !! name) as [c0|] eqn:E0.
    - destruct (Hcount name c0 E0) as (k & Hk & Ek).
      intros Hc. split; [ apply (Hkeys name); eauto | ].
      exists (S k). split; [ lia | ].
      rewrite <- added_none, added_succ, added_none, Ek. exact Hc.
    - intros Hc. split.
      + intros E. cbn [bumped] in Hc. rewrite E, jseq_refl in Hc.
        discriminate Hc.
      + exists 1. split; [ lia | ].
        rewrite <- added_none, added_succ. exact Hc. }
  assert (Hsome : name ≠ u "__proto__" → is_Some (cdm' !! name)).
  { intros Hne. rewrite Hnew.
    destruct (characterDialogueMap (data v) !! name); cbn [bumped];
      [ eauto | ].
    destruct (jseq name (u "__proto__")) eqn:E; [ | eauto ].
    apply jseq_true in E. congruence. }
  assert (Hin : In name
                  (if has (commonCharacters (data v)) name
                   then commonCharacters (data v)
                   else commonCharacters (data v) ++ [name])).
  { destruct (has (commonCharacters (data v)) name) eqn:Hhas.
    - apply has_spec. exact Hhas.
    - apply in_app_iff. right. left. reflexivity. }
  assert (Hothers : ∀ n, n ≠ name →
            (In n (if has (commonCharacters (data v)) name
                   then commonCharacters (data v)
                   else commonCharacters (data v) ++ [name])
             ↔ In n (commonCharacters (data v)))).
  { intros n Hn. destruct (has (commonCharacters (data v)) name);
      [ reflexivity | ].
    rewrite in_app_iff. cbn [In]. split; [ | auto ].
    intros [H | [H | []]]; [ exact H | congruence ]. }
  unfold kept_well, set_data.
  cbn [sessionId data commonCharacters commonLocations lastClassifications
         characterDialogueMap].
  split; [ exact Hsid | ]. split.
  { destruct (has (commonCharacters (data v)) name) eqn:Hhas;
      [ exact Hnodup | ].
    assert (Hnot : ¬ In name (commonCharacters (data v))).
    { intros H. apply has_spec in H. congruence. }
    apply NoDup_app. split; [ exact Hnodup | ].
    split; [ | apply NoDup_singleton ].
    intros x Hx Hx'. apply list_elem_of_In in Hx.
    apply list_elem_of_singleton in Hx'. congruence. }
  split; [ exact Hloc | ]. split; [ exact Hlen | ].
  split; [ | split ].
  - intros n. destruct (decide (n = name)) as [-> | Hne].
    + split.
      * intros [c Hc]. split; [ exact Hin | ].
        exact (proj1 (Hvalue c Hc)).
      * intros [_ Hne]. exact (Hsome Hne).
    + rewrite (Hsame n Hne), (Hothers n Hne). apply Hkeys.
  - intros n c. destruct (decide (n = name)) as [-> | Hne].
    + intros Hc. exact (proj2 (Hvalue c Hc)).
    + rewrite (Hsame n Hne). apply Hcount.
  - intros n Hn. destruct (decide (n = name)) as [-> | Hne].
    + intros E. rewrite E in Htruthy. discriminate Htruthy.
    + apply Hname. apply (Hothers n Hne). exact Hn.
Qed.

Lemma kept_well_fold sid records v :
  kept_well sid v →
  kept_well sid
    (set_data v (fold_left remember_character_value records (data v))).
Proof.
  revert v. induction records as [|r rest IH]; intros v Hv; cbn [fold_left].
  - rewrite set_data_same. exact Hv.
  - specialize (IH _ (kept_well_remembered sid v r Hv)).
    cbn [set_data data] in IH. exact IH.
Qed.

Lemma kept_well_empty sid now : kept_well sid (empty_memory sid now).
Proof.
  unfold kept_well, empty_memory. cbn.
  split; [ reflexivity | ]. split; [ constructor | ].
  split; [ reflexivity | ]. split; [ lia | ].
  split; [ | split ].
  - intros name. rewrite lookup_empty. split; [ intros [x Hx] | intros [[] _] ].
    discriminate Hx.
  - intros name c. rewrite lookup_empty. discriminate.
  - intros name [].
Qed.

Lemma kept_well_updated now sid before records :
  (∀ v, before = Some v → kept_well sid v) →
  kept_well sid (updated_memory now sid before records).
Proof.
  intros Hbefore.
  assert (Hv : kept_well sid (default (empty_memory sid now) before)).
  { destruct before as [v|]; cbn [default from_option id];
      [ apply Hbefore; reflexivity | apply kept_well_empty ]. }
  set (v := default (empty_memory sid now) before) in *.
  assert (Hcut : kept_well sid
                   (set_data v
                      (with_classifications (data v)
                         (take 20 (map rec_classification records
                                     ++ lastClassifications (data v)))))).
  { destruct Hv as (Hsid & Hnodup & Hloc & Hlen & Hkeys & Hcount & Hname).
    unfold kept_well, set_data, with_classifications.
    cbn [sessionId data commonCharacters commonLocations lastClassifications
           characterDialogueMap].
    split; [ exact Hsid | ]. split; [ exact Hnodup | ].
    split; [ exact Hloc | ]. split; [ rewrite length_take; lia | ].
    split; [ exact Hkeys | ]. split; [ exact Hcount | exact Hname ]. }
  apply (kept_well_fold sid records) in Hcut.
  destruct Hcut as (Hsid & Hrest). split; [ exact Hsid | exact Hrest ].
Qed.

End Remembered.

(** ** The store through its methods *)

Section StoreMethods.

Context {host : Host}.

Implicit Types (v : ContextMemory) (st : State).

(** X10. What [saveContext] stores under a session, [loadContext] gives
    back: a record with the same contents in an object of its own, the
    argument of [saveContext] staying as it was. *)
Theorem saveContext_then_loadContext st (sid : jsstring) (memory : loc) v :
  well_formed st = true →
  stringify (heap st) memory = Some v →
  ∃ st1 st2 loaded,
    saveContext st sid memory = Some st1
    ∧ loadContext st1 sid = Some (st2, Some loaded)
    ∧ stringify (heap st2) loaded = Some v
    ∧ loaded ≠ memory
    ∧ stringify (heap st2) memory = Some v.
Proof.
  intros Hwf Hv.
  destruct (saveContext_spec st sid memory v Hwf Hv)
    as (st1 & gs & Hsave & _ & _ & _ & Hag1 & Hwf1 & Hstored & _).
  destruct (loadContext_spec st1 sid Hwf1) as (st2 & r & Hload & _ & Hag2 & Hr).
  destruct r as [loaded|].
  2: { destruct Hr as [Hnone _]. congruence. }
  destruct Hr as (v' & g & Hv' & <- & Hg & _ & Hfresh).
  assert (v' = v) as -> by congruence.
  exists st1, st2, (g_root g).
  split; [ exact Hsave | ]. split; [ exact Hload | ].
  split; [ apply (holds_stringify _ _ _ Hg) | ].
  assert (Hkept : stringify (heap st1) memory = Some v)
    by exact (stringify_agrees _ _ _ _ Hv Hag1).
  split.
  - intros E.
    assert (Hnone : heap st1 !! g_root g = None)
      by (apply Hfresh; left; reflexivity).
    rewrite E in Hnone. unfold stringify, get_memory in Hkept.
    rewrite Hnone in Hkept. discriminate Hkept.
  - exact (stringify_agrees _ _ _ _ Hkept Hag2).
Qed.

(** X11. One call of [updateMemory] with nothing in between stores a record
    for its session, with the time of the call.  For every name, with [k]
    the number of character records of the call whose line, without the
    separators and trimmed, is that name: nothing changes for the name when
    [k] is 0; a number grows by [k]; a string gets [k] digits 1; and where
    the name had no property it gets the number [k], unless it names a
    member of [Object.prototype], for which it gets the string of that
    member followed by [k] digits 1, or is [__proto__], for which it gets
    nothing. *)
Theorem updateMemory_counts_appearances st (now : Z) (sid : jsstring)
    (records : list ClassificationRecord) :
  well_formed st = true →
  ∃ st' v,
    updateMemory st now sid records = Some st'
    ∧ stored st' sid = Some v
    ∧ lastModified v = now
    ∧ ∀ name,
        count_of (Some v) name
        = added name (times_named name records)
            (count_of (stored st sid) name).
Proof.
  intros Hwf.
  destruct (updateMemory_spec st now sid records Hwf)
    as (st' & _ & _ & Hupdate & _ & _ & _ & _ & Hstored & _).
  exists st', (updated_memory now sid (stored st sid) records).
  split; [ exact Hupdate | ]. split; [ exact Hstored | ].
  split; [ reflexivity | ].
  intros name. apply count_of_updated.
Qed.

(** X12. On a new manager, whatever calls of [updateMemory] are made and
    whenever each is resumed, no step fails and every record of the store
    carries the session it is stored under; its character names are
    distinct and not empty; the names with a property in
    [characterDialogueMap] are the character names other than [__proto__];
    the property of a name that some [k ≥ 1] records have named is the
    number [k], or, for the name of a member of [Object.prototype], the
    string of that member followed by [k] digits 1; no location is ever
    recorded; and at most twenty labels are kept. *)
Theorem updateMemory_keeps_records_well
    (h0 : gmap loc object) (turns : list Turn) :
  ∃ st waiting,
    run_turns (new_manager h0, []) turns = Some (st, waiting)
    ∧ ∀ sid v, stored st sid = Some v → kept_well sid v.
Proof.
  destruct (run_turns_settled kept_well kept_well_updated turns
              (new_manager h0, []) (settled_new _ h0))
    as ([st waiting] & E & _ & Hkept & _).
  exists st, waiting. split; [ exact E | exact Hkept ].
Qed.

End StoreMethods.

(** X10 on a manager with nothing stored, for a record of the heap. *)
Lemma saveContext_then_loadContext_witness :
  let st := new_manager (fst a_record) in
  well_formed st = true
  ∧ stringify (heap st) (snd a_record) = Some (memory_knowing (u "علي"))
  ∧ ∃ st1 st2 loaded,
      saveContext st (u "s") (snd a_record) = Some st1
      ∧ loadContext st1 (u "s") = Some (st2, Some loaded)
      ∧ stringify (heap st2) loaded = Some (memory_knowing (u "علي")).
Proof.
  intros st.
  assert (Hwf : well_formed st = true) by (vm_compute; reflexivity).
  assert (Hv : stringify (heap st) (snd a_record)
               = Some (memory_knowing (u "علي")))
    by (vm_compute; reflexivity).
  split; [ exact Hwf | ]. split; [ exact Hv | ].
  destruct (saveContext_then_loadContext st (u "s") (snd a_record) _ Hwf Hv)
    as (st1 & st2 & loaded & Hsave & Hload & Hloaded & _).
  exists st1, st2, loaded. repeat split; assumption.
Defined.

(** X11 on a new manager, for a batch of three records: the name of a
    character gets the number 1, and the name [constructor] the string of
    the member of [Object.prototype] followed by the digit 1. *)
Lemma updateMemory_counts_appearances_witness :
  well_formed (new_manager ∅) = true
  ∧ ∃ st' v,
      updateMemory (new_manager ∅) 5 (u "s")
        [first_record; second_record; third_record]
      = Some st'
      ∧ stored st' (u "s") = Some v
      ∧ count_of (Some v) (u "علي") = Some (Num 1)
      ∧ count_of (Some v) (u "constructor")
        = Some (Text (u "function Object() { [native code] }1")).
Proof.
  assert (Hwf : well_formed (new_manager ∅) = true)
    by (vm_compute; reflexivity).
  split; [ exact Hwf | ].
  destruct (updateMemory_counts_appearances (new_manager ∅) 5 (u "s")
              [first_record; second_record; third_record] Hwf)
    as (st' & v & Hupdate & Hstored & _ & Hcount).
  exists st', v. split; [ exact Hupdate | ]. split; [ exact Hstored | ].
  rewrite !Hcount. split; vm_compute; reflexivity.
Defined.

(** ** What the normalisations leave *)

Section Normalised.

Lemma skip_twice p s : skip p (skip p s) = skip p s.
Proof.
  induction s as [|c t IH]; [ reflexivity | ].
  cbn [skip]. destruct (p c) eqn:E; [ exact IH | ].
  cbn [skip]. rewrite E. reflexivity.
Qed.

Lemma trim_twice s : trim (trim s) = trim s.
Proof.
  destruct (trim s) as [|c t] eqn:E; [ reflexivity | ].
  assert (Hc : is_ws c = false) by exact (trim_first s c t E).
  destruct t as [|d t'] using rev_ind.
  - apply trim_fixed_one. exact Hc.
  - clear IHt'. apply trim_fixed; [ exact Hc | ].
    apply (trim_last s (c :: t') d). exact E.
Qed.

Lemma skip_sublist p s : skip p s `sublist_of` s.
Proof. rewrite skip_is_drop. apply sublist_drop. Qed.

Lemma trim_sublist s : trim s `sublist_of` s.
Proof.
  destruct (trim_split s) as (a & b & E & _).
  rewrite E at 2. apply sublist_inserts_l, sublist_inserts_r. reflexivity.
Qed.

Lemma forallb_sublist (C : N → bool) (l k : jsstring) :
  l `sublist_of` k → forallb C k = true → forallb C l = true.
Proof.
  intros Hsub Hk. apply forallb_forall. intros c Hc.
  rewrite forallb_forall in Hk. apply Hk.
  apply list_elem_of_In. apply list_elem_of_In in Hc.
  exact (elem_of_sublist _ _ _ Hc Hsub).
Qed.

Lemma remove_all_sublist p s : remove_all p s `sublist_of` s.
Proof.
  unfold remove_all. induction s as [|c t IH]; cbn [List.filter];
    [ constructor | ].
  destruct (negb (p c)); [ apply sublist_skip | apply sublist_cons ];
    exact IH.
Qed.

Lemma remove_all_clean p s :
  forallb (fun c => negb (p c)) (remove_all p s) = true.
Proof.
  apply forallb_forall. intros c Hc. apply filter_In in Hc as [_ Hc].
  exact Hc.
Qed.

(** X13. [normalizeLine] gives units of its input in their order, with no
    diacritic, no direction mark and no tab among them, and with no white
    space at either end. *)
Theorem normalizeLine_clean (input : jsstring) :
  normalizeLine input `sublist_of` input
  ∧ forallb (fun c => negb (is_tashkeel c) && negb (is_mark_or_tab c))
      (normalizeLine input) = true
  ∧ trim (normalizeLine input) = normalizeLine input.
Proof.
  assert (Hstrip : ∀ s,
             replace_start (cat [star is_lead; plus is_bullet]) s
             `sublist_of` s).
  { intros s. rewrite strip_in_normalizeLine_closed.
    destruct (1 <=? _)%nat; [ | reflexivity ].
    etransitivity; [ apply skip_sublist | apply skip_sublist ]. }
  assert (Hsub : normalizeLine input
                 `sublist_of` remove_all is_mark_or_tab
                                (remove_all is_tashkeel input)).
  { unfold normalizeLine.
    etransitivity; [ apply trim_sublist | apply Hstrip ]. }
  split; [ | split ].
  - etransitivity; [ exact Hsub | ].
    etransitivity; apply remove_all_sublist.
  - apply (forallb_sublist _ _ _ Hsub).
    apply forallb_forall. intros c Hc.
    apply filter_In in Hc as [Hc Hmark].
    apply filter_In in Hc as [_ Htashkeel].
    rewrite Htashkeel, Hmark. reflexivity.
  - unfold normalizeLine. apply trim_twice.
Qed.

(** X14. [stripLeadingBullets] reads its input as the longest run of
    direction marks and white space, then the longest run of bullets, then
    the longest run of white space, then the rest.  With no bullet in the
    second place it returns its input; with one it returns the rest. *)
Theorem stripLeadingBullets_cuts_prefix (input : jsstring) :
  ∃ marks bullets gap rest,
    input = marks ++ bullets ++ gap ++ rest
    ∧ forallb is_lead marks = true
    ∧ forallb is_bullet bullets = true
    ∧ forallb is_ws gap = true
    ∧ (∀ c, head (bullets ++ gap ++ rest) = Some c → is_lead c = false)
    ∧ (∀ c, head (gap ++ rest) = Some c → is_bullet c = false)
    ∧ (∀ c, head rest = Some c → is_ws c = false)
    ∧ stripLeadingBullets input
      = match bullets with [] => input | _ :: _ => rest end.
Proof.
  set (s1 := skip is_lead input).
  set (s2 := skip is_bullet s1).
  set (s3 := skip is_ws s2).
  assert (E1 : input = take (span is_lead input) input ++ s1)
    by (unfold s1; rewrite skip_is_drop; symmetry; apply take_drop).
  assert (E2 : s1 = take (span is_bullet s1) s1 ++ s2)
    by (unfold s2; rewrite skip_is_drop; symmetry; apply take_drop).
  assert (E3 : s2 = take (span is_ws s2) s2 ++ s3)
    by (unfold s3; rewrite skip_is_drop; symmetry; apply take_drop).
  assert (Hhead : ∀ p s c, head (skip p s) = Some c → p c = false).
  { intros p s c H. destruct (skip p s) as [|d t] eqn:E; [ discriminate H | ].
    injection H as <-. exact (skip_head _ _ _ _ E). }
  exists (take (span is_lead input) input), (take (span is_bullet s1) s1),
    (take (span is_ws s2) s2), s3.
  rewrite <- E3, <- E2.
  split; [ exact E1 | ]. split; [ apply span_prefix | ].
  split; [ apply span_prefix | ]. split; [ apply span_prefix | ].
  split; [ exact (Hhead is_lead input) | ].
  split; [ exact (Hhead is_bullet s1) | ].
  split; [ exact (Hhead is_ws s2) | ].
  rewrite stripLeadingBullets_closed. fold s1 s2 s3.
  destruct s1 as [|c t] eqn:Es1; [ reflexivity | ].
  cbn [span]. destruct (is_bullet c); reflexivity.
Qed.

End Normalised.

(** ** Parentheticals and scene headers *)

Section Shapes.

(** X15. A line is a parenthetical exactly when, trimmed, it opens with a
    parenthesis, closes with one, and has no line terminator between the
    two (the Latin and the full width parentheses count alike, and need not
    be of the same kind). *)
Theorem isParenthetical_shape (line : jsstring) :
  isParenthetical line = true
  ↔ ∃ o body c,
      trim line = o :: body ++ [c]
      ∧ one_of (u "(（") o = true
      ∧ one_of (u ")）") c = true
      ∧ forallb is_dot body = true.
Proof.
  unfold isParenthetical. cbn [cat]. rewrite test_start_accepts. split.
  - intros (rest & H).
    apply accepts_cat in H as (m1 & H1 & H).
    apply accepts_chr in H1 as (o & Es & Ho).
    apply accepts_cat in H as (m2 & H2 & H).
    apply accepts_rep_lazy in H2 as (k & -> & _ & Hk & _).
    apply accepts_cat in H as (m3 & H3 & H4).
    apply accepts_chr in H3 as (c & Ec & Hc).
    apply accepts_eos in H4 as [-> _].
    exists o, (take k m1), c.
    split; [ | split; [ exact Ho | split; [ exact Hc | ] ] ].
    + rewrite Es. f_equal. rewrite <- Ec. symmetry. apply take_drop.
    + apply take_in_span. exact Hk.
  - intros (o & body & c & -> & Ho & Hc & Hbody).
    exists []. apply accepts_cat. exists (body ++ [c]). split.
    { apply accepts_chr. exists o. auto. }
    apply accepts_cat. exists [c]. split.
    { apply accepts_rep_lazy. exists (length body).
      split; [ symmetry; apply drop_app_length | ].
      split; [ lia | ]. split; [ | exact I ].
      rewrite span_app_all by exact Hbody. lia. }
    apply accepts_cat. exists []. split.
    { apply accepts_chr. exists c. auto. }
    apply accepts_eos. auto.
Qed.

End Shapes.
Section SceneNumbers.

Lemma header_description_accepts s : ∃ rest, accepts header_description s rest.
Proof.
  unfold header_description. cbn [cat].
  destruct (accepts_star is_ws s) as (m1 & H1).
  destruct (accepts_star is_ws m1) as (m2 & H2).
  destruct (accepts_star is_dot m2) as (m3 & H3).
  exists m3. apply accepts_cat. exists m1. split; [ exact H1 | ].
  apply accepts_cat. exists m1. split; [ apply accepts_opt; auto | ].
  apply accepts_cat. exists m2. split; [ exact H2 | ].
  apply (proj2 (accepts_grp _ _ _)). exact H3.
Qed.

Lemma split_accepts_iff s :
  (∃ rest, accepts SPLIT_SCENE_HEADER_RE s rest)
  ↔ ∃ rest, accepts SCENE_NUMBER_EXACT_RE s rest.
Proof.
  unfold SPLIT_SCENE_HEADER_RE, SCENE_NUMBER_EXACT_RE. cbn [cat].
  split.
  - intros (rest & H).
    apply accepts_cat in H as (m1 & H1 & H).
    apply accepts_cat in H as (m2 & H2 & _).
    apply (proj1 (accepts_grp _ _ _)) in H2.
    exists m2. apply accepts_cat. exists m1. split; assumption.
  - intros (rest & H).
    apply accepts_cat in H as (m1 & H1 & H2).
    destruct (header_description_accepts rest) as (rest' & H3).
    exists rest'. apply accepts_cat. exists m1. split; [ exact H1 | ].
    apply accepts_cat. exists rest. split; [ | exact H3 ].
    apply (proj2 (accepts_grp _ _ _)). exact H2.
Qed.

Lemma plain_cue :
  plain (Cat scene_word (Cat (star is_ws) (plus is_any_digit))) = true.
Proof. vm_compute. reflexivity. Qed.

(** The two groups of a match of [SPLIT_SCENE_HEADER_RE]. *)
Lemma split_captures s o :
  In o (run SPLIT_SCENE_HEADER_RE s) →
  ∃ g1 g2, snd o = [g1; g2] ∧ forallb is_dot g2 = true.
Proof.
  unfold SPLIT_SCENE_HEADER_RE. cbn [cat]. intros H.
  rewrite run_cat in H. apply in_then_run in H as (o1 & o' & H1 & H & ->).
  rewrite (plain_captures (star is_ws) eq_refl _ _ H1). cbn [snd app].
  rewrite run_cat in H. apply in_then_run in H as (o2 & o'' & H2 & H & ->).
  cbn [run] in H2. apply in_map_iff in H2 as (ox & <- & Hx).
  rewrite (plain_captures _ plain_cue _ _ Hx). cbn [snd fst app] in *.
  rewrite run_cat in H. apply in_then_run in H as (o3 & o4 & H3 & H & ->).
  rewrite (plain_captures (star is_ws) eq_refl _ _ H3). cbn [snd app].
  rewrite run_cat in H. apply in_then_run in H as (o5 & o6 & H5 & H & ->).
  rewrite (plain_captures (Opt (Chr _)) eq_refl _ _ H5). cbn [snd app].
  rewrite run_cat in H. apply in_then_run in H as (o7 & o8 & H7 & H8 & ->).
  rewrite (plain_captures (star is_ws) eq_refl _ _ H7). cbn [snd app].
  cbn [run] in H8. apply in_map_iff in H8 as (o9 & <- & H9).
  apply in_map_iff in H9 as (k & <- & Hk). cbn [snd fst].
  apply in_rev, rep_counts_in in Hk as (_ & Hk & _).
  eexists _, _. split; [ reflexivity | ].
  rewrite consumed_drop by (pose proof (span_le_length is_dot (fst o7)); lia).
  apply take_in_span. exact Hk.
Qed.

(** X16. [splitSceneHeader] fails exactly on the lines that do not start,
    after white space, with the scene word and a number; when it succeeds
    both parts are trimmed and the description has no line terminator. *)
Theorem splitSceneHeader_when (line : jsstring) :
  (splitSceneHeader line = None
   ↔ test_start SCENE_NUMBER_EXACT_RE line = false)
  ∧ ∀ parts,
      splitSceneHeader line = Some parts →
      trim (sh_number parts) = sh_number parts
      ∧ trim (sh_description parts) = sh_description parts
      ∧ forallb is_dot (sh_description parts) = true.
Proof.
  unfold splitSceneHeader. rewrite exec_start_head.
  destruct (run SPLIT_SCENE_HEADER_RE line) as [|o os] eqn:Hrun;
    cbn [head fmap option_fmap option_map].
  - split; [ | discriminate ].
    split; [ intros _ | reflexivity ].
    destruct (test_start SCENE_NUMBER_EXACT_RE line) eqn:E; [ | reflexivity ].
    apply (proj1 (test_start_accepts _ _)) in E.
    apply (proj2 (split_accepts_iff _)) in E as (rest & caps & Hin).
    rewrite Hrun in Hin. destruct Hin.
  - destruct o as [rest caps].
    destruct (split_captures line (rest, caps)) as (g1 & g2 & Hcaps & Hdot);
      [ rewrite Hrun; left; reflexivity | ].
    cbn [snd] in Hcaps |- *. rewrite Hcaps.
    split.
    + split; [ discriminate | ]. intros E. exfalso.
      assert (Hsome : test_start SCENE_NUMBER_EXACT_RE line = true);
        [ | congruence ].
      apply (proj2 (test_start_accepts _ _)).
      apply (proj1 (split_accepts_iff _)).
      exists rest, caps. rewrite Hrun. left. reflexivity.
    + intros parts [= <-]. cbn [sh_number sh_description].
      split; [ apply trim_twice | ]. split; [ apply trim_twice | ].
      apply (forallb_sublist _ _ _ (trim_sublist g2) Hdot).
Qed.

(** X17. A complete scene header is also a first scene header line, so
    [classifyWithContext] has to test the complete header first, as it
    does. *)
Theorem isCompleteSceneHeader_isSceneHeader1 (line : jsstring) :
  isCompleteSceneHeader line = true → isSceneHeader1 line = true.
Proof.
  unfold isCompleteSceneHeader, isSceneHeader1. cbv zeta. intros H.
  apply andb_true_iff in H as [H _].
  apply (proj1 (test_start_accepts _ _)) in H as (rest & H).
  unfold SCENE_NUMBER_EXACT_RE in H. cbn [cat] in H.
  apply accepts_cat in H as (m1 & H1 & H).
  apply accepts_rep in H1 as (k & -> & _).
  apply accepts_cat in H as (m2 & H2 & H).
  apply accepts_cat in H as (m3 & H3 & H4).
  apply (test_drop _ _ k). apply test_at_start.
  apply (proj2 (test_start_accepts _ _)). exists rest.
  unfold SCENE_NUMBER_RE. cbn [cat].
  apply accepts_cat. exists m2. split; [ exact H2 | ].
  apply accepts_cat. exists m3. split; [ exact H3 | ].
  apply (proj2 (accepts_grp _ _ _)). exact H4.
Qed.

End SceneNumbers.

(** X17 on a line with a number, a place and a time. *)
Lemma isCompleteSceneHeader_isSceneHeader1_witness :
  isCompleteSceneHeader (u "مشهد 1 داخلي ليل") = true
  ∧ isSceneHeader1 (u "مشهد 1 داخلي ليل") = true.
Proof.
  assert (H : isCompleteSceneHeader (u "مشهد 1 داخلي ليل") = true)
    by (vm_compute; reflexivity).
  split; [ exact H | ].
  apply isCompleteSceneHeader_isSceneHeader1. exact H.
Defined.

(** ** What the inline split gives *)

Section InlineSound.

Lemma skip_app_kept p (x w : jsstring) :
  skip p x ≠ [] → skip p (x ++ w) = skip p x ++ w.
Proof.
  induction x as [|c t IH]; cbn [skip app]; [ congruence | ].
  destruct (p c); [ exact IH | reflexivity ].
Qed.

Lemma trimEnd_app_ws (x w : jsstring) :
  forallb is_ws w = true → trimEnd (x ++ w) = trimEnd x.
Proof.
  intros Hw. unfold trimEnd. rewrite rev_app_distr.
  rewrite skip_app_all; [ reflexivity | ].
  apply forallb_forall. intros c Hc. apply in_rev in Hc.
  rewrite forallb_forall in Hw. apply Hw. exact Hc.
Qed.

Lemma trim_app_ws_l (w x : jsstring) :
  forallb is_ws w = true → trim (w ++ x) = trim x.
Proof.
  intros Hw. unfold trim, trimStart. rewrite skip_app_all by exact Hw.
  reflexivity.
Qed.

Lemma trim_app_ws_r (x w : jsstring) :
  forallb is_ws w = true → trim (x ++ w) = trim x.
Proof.
  intros Hw. unfold trim, trimStart.
  destruct (skip is_ws x) as [|c t] eqn:E.
  - assert (Hx : forallb is_ws x = true).
    { destruct (skip_split is_ws x) as (a & Ea & Ha).
      rewrite E, app_nil_r in Ea. rewrite Ea. exact Ha. }
    rewrite skip_app_all by exact Hx.
    destruct (skip_split is_ws w) as (a & Ea & Ha).
    assert (Hnone : skip is_ws w = []).
    { destruct (skip is_ws w) as [|d t] eqn:E'; [ reflexivity | ].
      apply skip_head in E'. rewrite forallb_forall in Hw.
      rewrite Hw in E'; [ discriminate E' | ].
      rewrite Ea. apply in_app_iff. right. left. reflexivity. }
    rewrite Hnone. reflexivity.
  - rewrite skip_app_kept by (rewrite E; discriminate).
    rewrite E. apply trimEnd_app_ws. exact Hw.
Qed.

(** The parts of a match of [INLINE_RE]. *)
Lemma inline_captures s o :
  In o (run INLINE_RE s) →
  ∃ g1 gap1 colon gap2 g2,
    snd o = [g1; g2]
    ∧ s = g1 ++ gap1 ++ colon :: gap2 ++ g2
    ∧ 1 ≤ length g1 ≤ 60
    ∧ forallb (fun c => negb (is_colon c)) g1 = true
    ∧ forallb is_ws gap1 = true
    ∧ is_colon colon = true
    ∧ forallb is_ws gap2 = true
    ∧ forallb is_dot g2 = true.
Proof.
  unfold INLINE_RE. cbn [cat]. intros H.
  rewrite run_cat in H. apply in_then_run in H as (o1 & o' & H1 & H & ->).
  cbn [run] in H1. apply in_map_iff in H1 as (ol & <- & H1).
  apply in_map_iff in H1 as (k & <- & Hk).
  apply rep_counts_in in Hk as (Hk1 & Hk & Hk60). cbn [fst snd] in *.
  rewrite run_cat in H. apply in_then_run in H as (o2 & o'' & H2 & H & ->).
  cbn [run] in H2. apply in_map_iff in H2 as (j & <- & Hj).
  apply in_rev, rep_counts_in in Hj as (_ & Hj & _). cbn [fst snd] in *.
  rewrite run_cat in H. apply in_then_run in H as (o3 & o4 & H3 & H & ->).
  cbn [run] in H3.
  destruct (drop j (drop k s)) as [|colon t] eqn:Ecolon; [ destruct H3 | ].
  destruct (is_colon colon) eqn:Hcolon; [ | destruct H3 ].
  destruct H3 as [<- | []]. cbn [fst snd] in *.
  rewrite run_cat in H. apply in_then_run in H as (o5 & o6 & H5 & H & ->).
  cbn [run] in H5. apply in_map_iff in H5 as (i & <- & Hi).
  apply in_rev, rep_counts_in in Hi as (_ & Hi & _). cbn [fst snd] in *.
  rewrite run_cat in H. apply in_then_run in H as (o7 & o8 & H7 & H8 & ->).
  cbn [run] in H7. apply in_map_iff in H7 as (o9 & <- & H9).
  apply in_map_iff in H9 as (n & <- & Hn).
  apply in_rev, rep_counts_in in Hn as (_ & Hn & _). cbn [fst snd] in *.
  cbn [run] in H8.
  destruct (drop n (drop i t)) as [|x rest] eqn:Eend; [ | destruct H8 ].
  destruct H8 as [<- | []]. cbn [snd app].
  pose proof (span_le_length (fun c => negb (is_colon c)) s) as Lk.
  pose proof (span_le_length is_dot (drop i t)) as Ln.
  rewrite consumed_drop by lia.
  rewrite <- Eend, consumed_drop by lia.
  assert (Hall : take n (drop i t) = drop i t).
  { rewrite <- (take_drop n (drop i t)) at 2. rewrite Eend, app_nil_r.
    reflexivity. }
  exists (take k s), (take j (drop k s)), colon, (take i t), (drop i t).
  split; [ rewrite Hall; reflexivity | ].
  split.
  { rewrite <- (take_drop k s) at 1. f_equal.
    rewrite <- (take_drop j (drop k s)) at 1. f_equal.
    rewrite Ecolon. f_equal. symmetry. apply take_drop. }
  split; [ rewrite length_take; lia | ].
  split; [ apply take_in_span; exact Hk | ].
  split; [ apply take_in_span; exact Hj | ].
  split; [ exact Hcolon | ].
  split; [ apply take_in_span; exact Hi | ].
  rewrite <- Hall. apply take_in_span. exact Hn.
Qed.

(** X18. When [parseInlineCharacterDialogue] splits a line, the trimmed
    line is cut at its first colon: the name is the text before it and the
    dialogue the text after it, both trimmed and not empty; the name has at
    most 60 units, all of them Arabic letters, white space or digits, and
    the dialogue has no line terminator. *)
Theorem parseInlineCharacterDialogue_sound
    (line : jsstring) (parts : InlineParts) :
  parseInlineCharacterDialogue line = Some parts →
  ∃ before colon after,
    trim line = before ++ colon :: after
    ∧ is_colon colon = true
    ∧ forallb (fun c => negb (is_colon c)) before = true
    ∧ characterName parts = trim before
    ∧ dialogueText parts = trim after
    ∧ characterName parts ≠ []
    ∧ dialogueText parts ≠ []
    ∧ length (characterName parts) ≤ 60
    ∧ forallb is_name_unit (characterName parts) = true
    ∧ forallb is_dot (dialogueText parts) = true.
Proof.
  unfold parseInlineCharacterDialogue. cbv zeta. rewrite exec_start_head.
  destruct (run INLINE_RE (trim line)) as [|o os] eqn:Hrun;
    cbn [head fmap option_fmap option_map]; [ discriminate | ].
  destruct (inline_captures (trim line) o)
    as (g1 & gap1 & colon & gap2 & g2 & -> & Hline & Hlen & Hg1 & Hgap1
        & Hcolon & Hgap2 & Hg2);
    [ rewrite Hrun; left; reflexivity | ].
  destruct (truthy (trim g1)) eqn:Hname; cbn [negb orb]; [ | discriminate ].
  destruct (truthy (trim g2)) eqn:Htext; cbn [negb]; [ | discriminate ].
  destruct (test_start CHARACTER_RE (trim g1 ++ u ":")) eqn:Hre;
    cbn [negb]; [ | discriminate ].
  intros [= <-]. cbn [characterName dialogueText].
  exists (g1 ++ gap1), colon, (gap2 ++ g2).
  split; [ rewrite Hline, <- app_assoc; reflexivity | ].
  split; [ exact Hcolon | ].
  split.
  { rewrite forallb_app, Hg1. cbn [andb].
    apply (forallb_weaken is_ws); [ | exact Hgap1 ].
    intros c Hc. rewrite (ws_not_colon c Hc). reflexivity. }
  split; [ symmetry; apply trim_app_ws_r; exact Hgap1 | ].
  split; [ symmetry; apply trim_app_ws_l; exact Hgap2 | ].
  split; [ intros E; rewrite E in Hname; discriminate Hname | ].
  split; [ intros E; rewrite E in Htext; discriminate Htext | ].
  split.
  { pose proof (sublist_length _ _ (trim_sublist g1)). lia. }
  split; [ apply name_units_of_CHARACTER_RE; exact Hre | ].
  apply (forallb_sublist _ _ _ (trim_sublist g2) Hg2).
Qed.

End InlineSound.

(** X18 on a line with two colons: the first one cuts. *)
Lemma parseInlineCharacterDialogue_sound_witness :
  parseInlineCharacterDialogue (u "علي : قال: نعم")
  = Some {| characterName := u "علي"; dialogueText := u "قال: نعم" |}
  ∧ ∃ before colon after,
      trim (u "علي : قال: نعم") = before ++ colon :: after
      ∧ u "علي" = trim before
      ∧ u "قال: نعم" = trim after.
Proof.
  assert (H : parseInlineCharacterDialogue (u "علي : قال: نعم")
              = Some {| characterName := u "علي";
                        dialogueText := u "قال: نعم" |})
    by (vm_compute; reflexivity).
  split; [ exact H | ].
  destruct (parseInlineCharacterDialogue_sound _ _ H)
    as (before & colon & after & Hline & _ & _ & Hname & Htext & _).
  exists before, colon, after. repeat split; assumption.
Defined.

(** ** The lines of a paste *)

Section PastedLines.

Context {host : Host}.
Variable toLowerCase : jsstring -> jsstring.
Variable CSS : Type.
Variable getFormatStylesFn : jsstring -> jsstring -> jsstring -> CSS.

Lemma split_on_some c s : split_on c s ≠ [].
Proof.
  induction s as [|x t IH]; cbn [split_on]; [ discriminate | ].
  destruct (x =? c)%N; [ discriminate | ].
  destruct (split_on c t); [ congruence | discriminate ].
Qed.

Lemma split_on_app c x y :
  split_on c (x ++ c :: y) = split_on c x ++ split_on c y.
Proof.
  induction x as [|a t IH]; cbn [app split_on].
  - rewrite N.eqb_refl. reflexivity.
  - destruct (a =? c)%N; [ rewrite IH; reflexivity | ].
    rewrite IH. pose proof (split_on_some c t) as Hsome.
    destruct (split_on c t) as [|f fs]; [ congruence | reflexivity ].
Qed.

Lemma split_on_fields (C : N → bool) c s :
  forallb C s = true → ∀ f, In f (split_on c s) → forallb C f = true.
Proof.
  induction s as [|x t IH]; cbn [split_on forallb]; intros Hs f Hf.
  - destruct Hf as [<- | []]. reflexivity.
  - apply andb_true_iff in Hs as [Hx Ht].
    destruct (x =? c)%N.
    + destruct Hf as [<- | Hf]; [ reflexivity | exact (IH Ht f Hf) ].
    + destruct (split_on c t) as [|g gs].
      * destruct Hf as [<- | []]. cbn [forallb]. rewrite Hx. reflexivity.
      * destruct Hf as [<- | Hf].
        -- cbn [forallb]. rewrite Hx. apply (IH Ht). left. reflexivity.
        -- apply (IH Ht). right. exact Hf.
Qed.

Lemma trim_blank s : forallb is_ws s = true → trim s = [].
Proof.
  intros Hs. unfold trim, trimStart.
  replace (skip is_ws s) with (skip is_ws (s ++ []))
    by (rewrite app_nil_r; reflexivity).
  rewrite skip_app_all by exact Hs. reflexivity.
Qed.

Lemma paste_lines_app x y :
  paste_lines (x ++ 10%N :: y) = paste_lines x ++ paste_lines y.
Proof. unfold paste_lines. rewrite split_on_app. apply List.filter_app. Qed.

Lemma paste_lines_blank blank :
  forallb is_ws blank = true → paste_lines blank = [].
Proof.
  intros Hblank. unfold paste_lines.
  pose proof (split_on_fields is_ws 10%N blank Hblank) as Hfields.
  induction (split_on 10%N blank) as [|f fs IH]; [ reflexivity | ].
  cbn [List.filter]. rewrite trim_blank by (apply Hfields; left; reflexivity).
  cbn [truthy]. apply IH. intros g Hg. apply Hfields. right. exact Hg.
Qed.

(** X19. Blank lines between two lines of the clipboard text change
    nothing: they are dropped before the lines are numbered, so the
    context windows and the result are those of the text without them. *)
Theorem handlePaste_ignores_blank_lines
    (above blank below : jsstring) (hasSelection : bool)
    (memoryManager : option (jsstring -> LoadOutcome)) (sessionId : jsstring) :
  forallb is_ws blank = true →
  paste_lines (above ++ 10%N :: blank ++ 10%N :: below)
  = paste_lines (above ++ 10%N :: below)
  ∧ handlePaste toLowerCase CSS getFormatStylesFn
      (above ++ 10%N :: blank ++ 10%N :: below) hasSelection memoryManager
      sessionId
    = handlePaste toLowerCase CSS getFormatStylesFn
        (above ++ 10%N :: below) hasSelection memoryManager sessionId.
Proof.
  intros Hblank.
  assert (Hlines : paste_lines (above ++ 10%N :: blank ++ 10%N :: below)
                   = paste_lines (above ++ 10%N :: below)).
  { rewrite !paste_lines_app, (paste_lines_blank blank Hblank).
    reflexivity. }
  split; [ exact Hlines | ].
  unfold handlePaste. rewrite Hlines.
  destruct above; reflexivity.
Qed.

End PastedLines.

(** X19 on two lines with a line of spaces between them. *)
Lemma handlePaste_ignores_blank_lines_witness :
  forallb is_ws (u "  ") = true
  ∧ paste_lines (u "علي:" ++ 10%N :: u "  " ++ 10%N :: u "نعم")
    = [u "علي:"; u "نعم"].
Proof.
  assert (H : forallb is_ws (u "  ") = true) by (vm_compute; reflexivity).
  split; [ exact H | ].
  rewrite (proj1 (handlePaste_ignores_blank_lines lower_ascii jsstring
                    styles_by_name (u "علي:") (u "  ") (u "نعم") true None
                    (u "s") H)).
  vm_compute. reflexivity.
Defined.

(** ** The style attribute *)

Section StyleAttribute.

(** X20. [cssObjectToString] writes every property name without an upper
    case letter: each one becomes a hyphen and its lower case letter, so
    the name grows by the number of its upper case letters, and a name
    without any stays as it is. *)
Theorem cssKey_lower_case (key : jsstring) :
  forallb (fun c => negb (upper c)) (cssKey key) = true
  ∧ length (cssKey key) = length key + length (List.filter upper key)
  ∧ (cssKey key = key ↔ forallb (fun c => negb (upper c)) key = true).
Proof.
  unfold cssKey, upper.
  induction key as [|c t (IH1 & IH2 & IH3)]; [ repeat split | ].
  cbn [flat_map List.filter forallb].
  destruct (between 65 90 c) eqn:Hc; cbn [app forallb length negb andb].
  - split; [ | split ].
    + rewrite IH1. unfold between in *.
      apply andb_true_iff in Hc as [H1 H2].
      apply N.leb_le in H1, H2.
      replace (65 <=? 45)%N with false by reflexivity.
      replace (c + 32 <=? 90)%N with false
        by (symmetry; apply N.leb_gt; lia).
      rewrite andb_false_r. reflexivity.
    + rewrite IH2. lia.
    + split; [ | discriminate ].
      intros E. apply (f_equal length) in E. cbn [length] in E.
      rewrite IH2 in E. lia.
  - split; [ | split ].
    + rewrite Hc. exact IH1.
    + rewrite IH2. reflexivity.
    + rewrite <- IH3. split; [ intros [= E]; exact E | intros ->; reflexivity ].
Qed.

Lemma set_property_new (o : StringObject) (key value : jsstring) :
  forallb (fun entry => negb (jseq (fst entry) key)) o = true →
  set_property o key value = o ++ [(key, value)].
Proof.
  induction o as [|[k v] rest IH]; cbn [forallb set_property app fst];
    [ reflexivity | ].
  intros H. apply andb_true_iff in H as [Hk Hrest].
  apply negb_true_iff in Hk. rewrite Hk, IH by exact Hrest. reflexivity.
Qed.

Lemma set_property_keys (C : jsstring → bool) (o : StringObject)
    (key value : jsstring) :
  forallb (fun entry => C (fst entry)) o = true → C key = true →
  forallb (fun entry => C (fst entry)) (set_property o key value) = true.
Proof.
  intros Ho Hkey.
  induction o as [|[k v] rest IH]; cbn [set_property forallb fst] in *.
  - rewrite Hkey. reflexivity.
  - apply andb_true_iff in Ho as [Hk Hrest].
    destruct (jseq k key); cbn [forallb fst]; rewrite Hk; cbn [andb];
      [ exact Hrest | exact (IH Hrest) ].
Qed.

Lemma set_property_some (o : StringObject) (key value : jsstring) :
  set_property o key value ≠ [].
Proof. destruct o as [|[k v] rest]; cbn [set_property];
         [ | destruct (jseq k key) ]; discriminate. Qed.

Lemma spread_keys (C : jsstring → bool) (a b : StringObject) :
  forallb (fun entry => C (fst entry)) a = true →
  forallb (fun entry => C (fst entry)) b = true →
  forallb (fun entry => C (fst entry)) (spread a b) = true.
Proof.
  unfold spread. revert a.
  induction b as [|[k v] rest IH]; intros a Ha Hb; cbn [fold_left];
    [ exact Ha | ].
  cbn [forallb fst snd] in Hb. apply andb_true_iff in Hb as [Hk Hrest].
  apply IH; [ | exact Hrest ]. apply set_property_keys; assumption.
Qed.

Lemma spread_some (a b : StringObject) : a ≠ [] → spread a b ≠ [].
Proof.
  unfold spread. revert a.
  induction b as [|[k v] rest IH]; intros a Ha; cbn [fold_left];
    [ exact Ha | ].
  apply IH. apply set_property_some.
Qed.

Lemma styles_of_table (C : jsstring → bool)
    (table : list (jsstring * StringObject)) (formatType : jsstring) :
  forallb (fun row => forallb (fun entry => C (fst entry)) (snd row)) table
  = true →
  forallb (fun entry => C (fst entry)) (styles_of table formatType) = true.
Proof.
  induction table as [|[k styles] rest IH]; cbn [styles_of forallb snd];
    [ reflexivity | ].
  intros H. apply andb_true_iff in H as [Hrow Hrest].
  destruct (jseq k formatType); [ exact Hrow | exact (IH Hrest) ].
Qed.

Lemma join_snoc (sep : jsstring) (xs : list jsstring) (x : jsstring) :
  xs ≠ [] → join sep (xs ++ [x]) = join sep xs ++ sep ++ x.
Proof.
  induction xs as [|y ys IH]; [ congruence | ]. intros _.
  destruct ys as [|z zs]; [ reflexivity | ].
  change (join sep ((y :: z :: zs) ++ [x]))
    with (y ++ sep ++ join sep ((z :: zs) ++ [x])).
  rewrite IH by discriminate.
  change (join sep (y :: z :: zs)) with (y ++ sep ++ join sep (z :: zs)).
  rewrite <- !app_assoc. reflexivity.
Qed.

(** X21. No format has a top margin of its own in [getFormatStyles], so
    the margin that the spacing rules choose is written as the last
    declaration of the style attribute, after the [margin] of the format,
    and nothing is added when the rules choose none. *)
Theorem styleAttribute_of_format
    (formatType : jsstring) (size font : option jsstring)
    (marginTop : jsstring) :
  let styles := getFormatStyles formatType size font in
  styleAttribute styles None = cssObjectToString styles
  ∧ styleAttribute styles (Some []) = cssObjectToString styles
  ∧ (marginTop ≠ [] →
     styleAttribute styles (Some marginTop)
     = cssObjectToString styles ++ u "; margin-top: " ++ marginTop).
Proof.
  intros styles. split; [ reflexivity | ]. split; [ reflexivity | ].
  intros Hmargin. unfold styleAttribute, finalStyles.
  destruct marginTop as [|c rest]; [ congruence | ].
  cbn [applied_margin truthy].
  assert (Hkeys : forallb
                    (fun entry => negb (jseq (fst entry) (u "marginTop")))
                    styles = true).
  { unfold styles, getFormatStyles.
    apply (spread_keys (fun k => negb (jseq k (u "marginTop")))).
    - vm_compute. reflexivity.
    - apply (styles_of_table (fun k => negb (jseq k (u "marginTop")))).
      vm_compute. reflexivity. }
  rewrite set_property_new by exact Hkeys.
  unfold cssObjectToString. rewrite map_app. cbn [map fst snd].
  rewrite join_snoc.
  - replace (cssKey (u "marginTop")) with (u "margin-top")
      by (vm_compute; reflexivity).
    replace (u "; margin-top: ") with (u "; " ++ u "margin-top" ++ u ": ")
      by (vm_compute; reflexivity).
    rewrite <- !app_assoc. reflexivity.
  - intros E. apply map_eq_nil in E. revert E.
    unfold styles, getFormatStyles. apply spread_some. discriminate.
Qed.

End StyleAttribute.

(** ** The keys of the editor *)

Section EditorKeys.

Ltac differs E := apply jseq_true in E; vm_compute in E; discriminate E.

(** X22. Tab and then Shift+Tab on the same element come back to the
    format they started from, for every format but the parenthetical,
    which both keys turn into a dialogue. *)
Theorem getNextFormatOnTab_back (currentFormat : jsstring) (isEmpty : bool) :
  getNextFormatOnTab (getNextFormatOnTab currentFormat isEmpty false)
    isEmpty true = currentFormat
  ↔ currentFormat ≠ u "parenthetical".
Proof.
  destruct (jseq currentFormat (u "parenthetical")) eqn:Epar.
  { apply jseq_true in Epar. rewrite Epar.
    split; [ | congruence ].
    destruct isEmpty; intros E; differs E. }
  split; [ intros _; apply jseq_false; exact Epar | intros _ ].
  destruct (jseq currentFormat (u "character")) eqn:E1;
    [ apply jseq_true in E1; rewrite E1; destruct isEmpty; vm_compute;
      reflexivity | ].
  destruct (jseq currentFormat (u "dialogue")) eqn:E2;
    [ apply jseq_true in E2; rewrite E2; destruct isEmpty; vm_compute;
      reflexivity | ].
  destruct (jseq currentFormat (u "scene-header-1")) eqn:E3;
    [ apply jseq_true in E3; rewrite E3; destruct isEmpty; vm_compute;
      reflexivity | ].
  destruct (jseq currentFormat (u "action")) eqn:E4;
    [ apply jseq_true in E4; rewrite E4; destruct isEmpty; vm_compute;
      reflexivity | ].
  destruct (jseq currentFormat (u "transition")) eqn:E5;
    [ apply jseq_true in E5; rewrite E5; destruct isEmpty; vm_compute;
      reflexivity | ].
  assert (Hsame : ∀ shift,
             getNextFormatOnTab currentFormat isEmpty shift = currentFormat).
  { intros shift. unfold getNextFormatOnTab, indexOf, mainSequence.
    cbn [first_index]. rewrite E1, E2, Epar, E3, E4, E5.
    cbn [andb fmap option_fmap option_map]. reflexivity. }
  rewrite !Hsame. reflexivity.
Qed.

(** X23. Enter leads from every format of the editor to a format of the
    editor, and the action is the only format that Enter keeps. *)
Theorem getNextFormatOnEnter_moves (currentFormat : jsstring) :
  In currentFormat formatIds →
  In (getNextFormatOnEnter currentFormat) formatIds
  ∧ (getNextFormatOnEnter currentFormat = currentFormat
     ↔ currentFormat = u "action").
Proof.
  assert (Hall :
            forallb
              (fun f =>
                 has formatIds (getNextFormatOnEnter f)
                 && Bool.eqb (jseq (getNextFormatOnEnter f) f)
                      (jseq f (u "action")))
              formatIds = true) by (vm_compute; reflexivity).
  rewrite forallb_forall in Hall. intros Hin. specialize (Hall _ Hin).
  apply andb_true_iff in Hall as [Hnext Hkeeps].
  apply has_spec in Hnext. apply Bool.eqb_prop in Hkeeps.
  split; [ exact Hnext | ].
  rewrite <- !jseq_true. rewrite Hkeeps. reflexivity.
Qed.

End EditorKeys.

(** X23 on a dialogue, which Enter turns into a character. *)
Lemma getNextFormatOnEnter_moves_witness :
  In (u "dialogue") formatIds
  ∧ In (getNextFormatOnEnter (u "dialogue")) formatIds.
Proof.
  assert (H : In (u "dialogue") formatIds)
    by (vm_compute; repeat (first [ left; reflexivity | right ])).
  split; [ exact H | ].
  apply (getNextFormatOnEnter_moves (u "dialogue") H).
Defined.

(** ** What the basmala test reads *)

Section BasmalaUnits.

(** X24. [isBasmala] reads the Arabic letters and the white space of a line
    only: with the brackets, the direction marks, the diacritics and every
    other unit removed, the line has to contain the three words; the trims
    and the bullet strip on the way change nothing, and neither does the
    preparation of the line by the paste handler. *)
Theorem isBasmala_reads_letters (line : jsstring) :
  let units := basmala_units line in
  isBasmala line
  = test (StrI (u "بسم")) units
    && test (StrI (u "الله")) units
    && (test (StrI (u "الرحمن")) units || test (StrI (u "الرحي")) units)
  ∧ isBasmala (stripLeadingBullets (trim line)) = isBasmala line.
Proof.
  intros units. split; [ | apply isBasmala_stripped ].
  assert (Htokens : forallb stays_inside basmala_tokens = true)
    by (vm_compute; reflexivity).
  unfold basmala_tokens in Htokens. cbn [forallb] in Htokens.
  apply andb_true_iff in Htokens as [H1 Htokens].
  apply andb_true_iff in Htokens as [H2 Htokens].
  apply andb_true_iff in Htokens as [H3 Htokens].
  apply andb_true_iff in Htokens as [H4 _].
  unfold isBasmala. cbv zeta.
  rewrite !basmala_token_test by assumption. reflexivity.
Qed.

End BasmalaUnits.

(** ** What the classifier reads of its context *)

Section ContextRead.

(** X25. The context of [isCharacterLine] can only turn an acceptance into
    a refusal, and only inside a dialogue block just after a dialogue:
    everywhere else the answer is the one without a context. *)
Theorem isCharacterLine_context
    (line : jsstring) (context : CharacterContext) :
  (isCharacterLine line (Some context) = true →
   isCharacterLine line None = true)
  ∧ (cc_isInDialogueBlock context
     && is_label (lastFormat context) "dialogue" = false →
     isCharacterLine line (Some context) = isCharacterLine line None).
Proof.
  unfold isCharacterLine. cbv zeta.
  destruct (negb (truthy (trim line))); [ split; auto | ].
  destruct (isCompleteSceneHeader (trim line) || isTransition (trim line)
            || isParenthetical (trim line)); [ split; auto | ].
  destruct (5 <? _)%nat; [ split; auto | ].
  destruct (isActionVerbStart _); [ split; auto | ].
  destruct (matchesActionStartPattern _); [ split; auto | ].
  destruct (hasColonIn (trim line) && endsWithColon (trim line));
    [ split; auto | ].
  destruct (negb (hasColonIn (trim line)) && _); [ split; auto | ].
  destruct (negb (hasColonIn (trim line))); [ split; auto | ].
  destruct (cc_isInDialogueBlock context
            && is_label (lastFormat context) "character");
    [ split; auto | ].
  destruct (cc_isInDialogueBlock context
            && is_label (lastFormat context) "dialogue").
  - split; [ discriminate | discriminate ].
  - destruct (is_label (lastFormat context) "action" && _); split; auto.
Qed.

(** X26. Of its context, [classifyWithContext] reads the last label, the
    next line, five of the statistics and three of the pattern fields: the
    bullet flag, the character count, the lines before, the copy of the
    line and the distance to the last scene header change nothing. *)
Theorem classifyWithContext_reads (line : jsstring) (ctx ctx' : LineContext) :
  last_of (previousTypes ctx) = last_of (previousTypes ctx') →
  head (nextLines ctx) = head (nextLines ctx') →
  wordCount (stats ctx) = wordCount (stats ctx') →
  hasColon (stats ctx) = hasColon (stats ctx') →
  hasPunctuation (stats ctx) = hasPunctuation (stats ctx') →
  isShort (stats ctx) = isShort (stats ctx') →
  isLong (stats ctx) = isLong (stats ctx') →
  isInDialogueBlock (pattern ctx) = isInDialogueBlock (pattern ctx') →
  isInSceneHeader (pattern ctx) = isInSceneHeader (pattern ctx') →
  lastCharacterDistance (pattern ctx) = lastCharacterDistance (pattern ctx') →
  classifyWithContext line ctx = classifyWithContext line ctx'.
Proof.
  intros Hlast Hnext Hwords Hcolon Hpunct Hshort Hlong Hblock Hheader Hdist.
  assert (H3 : isSceneHeader3 line ctx = isSceneHeader3 line ctx')
    by (unfold isSceneHeader3; cbv zeta; rewrite Hlast; reflexivity).
  assert (HL : isLikelyCharacter line ctx = isLikelyCharacter line ctx')
    by (unfold isLikelyCharacter, nextLine_of;
        rewrite Hshort, Hwords, Hpunct, Hcolon, Hnext, Hdist; reflexivity).
  unfold classifyWithContext, nextLine_of. cbv zeta.
  rewrite H3, HL, Hlast, Hnext, Hcolon, Hpunct, Hshort, Hlong, Hblock,
    Hheader.
  repeat match goal with
         | |- (if ?c then _ else _) = (if ?c then _ else _) =>
             destruct c; [ reflexivity | ]
         end.
  destruct (startsWithBullet (stats ctx) && _),
    (startsWithBullet (stats ctx') && _); reflexivity.
Qed.

End ContextRead.

(** X26 on the context of a bulleted line and the same context with the
    unread fields changed. *)
Lemma classifyWithContext_reads_witness :
  let ctx := buildContext [u "• علي"; u "نعم"] 0 [] in
  startsWithBullet (stats (with_unread_fields_changed ctx))
  = negb (startsWithBullet (stats ctx))
  ∧ classifyWithContext (u "علي") ctx
    = classifyWithContext (u "علي") (with_unread_fields_changed ctx).
Proof.
  intros ctx. split; [ reflexivity | ].
  apply classifyWithContext_reads; reflexivity.
Defined.

(** ** What the second scene header test reads *)

Section SceneHeader2.

Implicit Types (s t : jsstring) (A : N → bool).

Lemma test_start_grp (a : regex) s : test_start (Grp a) s = test_start a s.
Proof. unfold test_start. cbn [run]. destruct (run a s); reflexivity. Qed.

Lemma test_grp (a : regex) s : test (Grp a) s = test a s.
Proof.
  induction s as [|c r IH]; cbn [test]; rewrite test_start_grp;
    [ reflexivity | rewrite IH; reflexivity ].
Qed.

Lemma test_start_alt (a b : regex) s :
  test_start (Alt a b) s = test_start a s || test_start b s.
Proof.
  unfold test_start. cbn [run]. destruct (run a s), (run b s); reflexivity.
Qed.

Lemma test_alt (a b : regex) s : test (Alt a b) s = test a s || test b s.
Proof.
  induction s as [|c r IH]; cbn [test]; rewrite test_start_alt.
  - rewrite !orb_false_r. reflexivity.
  - rewrite IH. destruct (test_start a (c :: r)), (test_start b (c :: r)),
      (test a r), (test b r); reflexivity.
Qed.

Lemma test_nothing s : test (Chr (fun _ => false)) s = false.
Proof. induction s as [|c r IH]; cbn; [ reflexivity | exact IH ]. Qed.

Lemma test_alts (ws : list jsstring) s :
  test (alts StrI ws) s = existsb (fun w => test (StrI w) s) ws.
Proof.
  induction ws as [|w rest IH]; [ apply test_nothing | ].
  destruct rest as [|w' rest'].
  - cbn [alts existsb]. rewrite orb_false_r. reflexivity.
  - change (alts StrI (w :: w' :: rest'))
      with (Alt (StrI w) (alts StrI (w' :: rest'))).
    rewrite test_alt, IH. reflexivity.
Qed.

Lemma existsb_same {X : Type} (f g : X → bool) (l : list X) :
  (∀ x, In x l → f x = g x) → existsb f l = existsb g l.
Proof.
  induction l as [|x l IH]; intros H; [ reflexivity | ].
  cbn [existsb]. rewrite (H x) by (left; reflexivity).
  rewrite IH; [ reflexivity | ]. intros y Hy. apply H. right. exact Hy.
Qed.

Lemma pieces_some A s : pieces A s ≠ [].
Proof.
  induction s as [|x r IH]; cbn [pieces]; [ discriminate | ].
  destruct (A x); [ discriminate | ].
  destruct (pieces A r); [ congruence | discriminate ].
Qed.

(** The first piece ends at the end or at a unit of the class. *)
Lemma pieces_first A s f fs :
  pieces A s = f :: fs →
  (s = f ∧ fs = []) ∨ ∃ c rest, s = f ++ c :: rest ∧ A c = true.
Proof.
  revert f fs. induction s as [|x r IH]; cbn [pieces]; intros f fs E.
  - injection E as <- <-. left. auto.
  - destruct (A x) eqn:Hx.
    + injection E as <- <-. right. exists x, r. auto.
    + pose proof (pieces_some A r) as Hsome.
      destruct (pieces A r) as [|g gs]; [ congruence | ].
      injection E as <- <-.
      destruct (IH g gs eq_refl) as [[-> ->] | (c & rest & -> & Hc)].
      * left. auto.
      * right. exists c, rest. auto.
Qed.

Lemma strip_prefix_cut t s c rest :
  avoids t c = true →
  match strip_prefix (fun a b => (fold_case a =? fold_case b)%N) t
          (s ++ c :: rest) with
  | Some _ => true
  | None => false
  end
  = match strip_prefix (fun a b => (fold_case a =? fold_case b)%N) t s with
    | Some _ => true
    | None => false
    end.
Proof.
  revert s. induction t as [|a t IH]; intros s Hc; [ reflexivity | ].
  destruct s as [|b s]; cbn [app strip_prefix].
  - cbn [avoids forallb] in Hc. apply andb_true_iff in Hc as [Hc _].
    apply negb_true_iff in Hc. rewrite Hc. reflexivity.
  - destruct (fold_case a =? fold_case b)%N; [ | reflexivity ].
    apply IH. exact (avoids_tail a t c Hc).
Qed.

Lemma test_start_cut t s c rest :
  avoids t c = true →
  test_start (StrI t) (s ++ c :: rest) = test_start (StrI t) s.
Proof.
  intros Hc. rewrite !test_start_StrI. apply strip_prefix_cut. exact Hc.
Qed.

(** A match of a literal lies inside one piece. *)
Lemma test_pieces A t s :
  truthy t = true → (∀ c, A c = true → avoids t c = true) →
  test (StrI t) s = existsb (test (StrI t)) (pieces A s).
Proof.
  intros Ht HA. destruct t as [|a t]; [ discriminate Ht | ].
  induction s as [|x r IH]; [ reflexivity | ].
  cbn [pieces]. destruct (A x) eqn:Hx.
  - cbn [test existsb]. rewrite (test_start_avoided a t x r (HA x Hx)).
    rewrite IH. reflexivity.
  - pose proof (pieces_some A r) as Hsome.
    destruct (pieces A r) as [|f fs] eqn:E; [ congruence | ].
    cbn [existsb] in IH |- *. cbn [test]. rewrite IH.
    destruct (pieces_first A r f fs E) as [[-> _] | (c & rest & -> & Hc)].
    + rewrite orb_assoc. reflexivity.
    + change (x :: f ++ c :: rest) with ((x :: f) ++ c :: rest).
      rewrite (test_start_cut (a :: t) (x :: f) c rest (HA c Hc)).
      rewrite orb_assoc. reflexivity.
Qed.

Lemma existsb_filter_truthy t (l : list jsstring) :
  truthy t = true →
  existsb (test (StrI t)) l
  = existsb (test (StrI t)) (List.filter truthy l).
Proof.
  intros Ht. destruct t as [|a t]; [ discriminate Ht | ].
  induction l as [|f fs IH]; [ reflexivity | ].
  cbn [existsb List.filter]. destruct f as [|x f]; cbn [truthy existsb].
  - exact IH.
  - rewrite IH. reflexivity.
Qed.

Lemma pieces_blank_all A p s :
  (∀ c, p c = true → A c = true) → A 32%N = true →
  pieces A (blank_all p s) = pieces A s.
Proof.
  intros Hp Hspace. unfold blank_all.
  induction s as [|x r IH]; [ reflexivity | ].
  cbn [map pieces]. rewrite IH. destruct (p x) eqn:Hx; [ | reflexivity ].
  rewrite Hspace, (Hp x Hx). reflexivity.
Qed.

Lemma pieces_cons_gap A x r :
  A x = true →
  List.filter truthy (pieces A (x :: r)) = List.filter truthy (pieces A r).
Proof. intros Hx. cbn [pieces]. rewrite Hx. reflexivity. Qed.

Lemma pieces_parts A s : pieces A s = hd [] (pieces A s) :: tl (pieces A s).
Proof.
  pose proof (pieces_some A s). destruct (pieces A s); [ congruence | ].
  reflexivity.
Qed.

Lemma filter_truthy_parts (l k : list jsstring) :
  hd [] l = hd [] k →
  List.filter truthy (tl l) = List.filter truthy (tl k) →
  l ≠ [] → k ≠ [] →
  List.filter truthy l = List.filter truthy k.
Proof.
  destruct l as [|f fs], k as [|g gs]; try congruence.
  cbn [hd tl List.filter]. intros -> -> _ _. reflexivity.
Qed.

(** The collapse of white space keeps the pieces that are not empty; when
    it starts outside a run of white space it keeps the first piece too. *)
Lemma pieces_collapse_ws A s :
  (∀ c, is_ws c = true → A c = true) → A 32%N = true →
  (hd [] (pieces A (collapse_ws_from false s)) = hd [] (pieces A s)
   ∧ List.filter truthy (tl (pieces A (collapse_ws_from false s)))
     = List.filter truthy (tl (pieces A s)))
  ∧ List.filter truthy (pieces A (collapse_ws_from true s))
    = List.filter truthy (pieces A s).
Proof.
  intros Hws Hspace.
  induction s as [|x r [[IHhead IHtail] IHrun]]; [ repeat split | ].
  assert (IHwhole :
            List.filter truthy (pieces A (collapse_ws_from false r))
            = List.filter truthy (pieces A r))
    by (apply filter_truthy_parts; auto using pieces_some).
  cbn [collapse_ws_from]. destruct (is_ws x) eqn:Hx.
  - pose proof (Hws x Hx) as HAx. cbn [pieces]. rewrite HAx, Hspace.
    cbn [hd tl List.filter truthy]. auto.
  - cbn [pieces]. destruct (A x) eqn:HAx.
    + cbn [hd tl List.filter truthy]. auto.
    + rewrite (pieces_parts A r), (pieces_parts A (collapse_ws_from false r)).
      cbn [hd tl List.filter truthy]. rewrite IHhead, IHtail. auto.
Qed.

Lemma pieces_collapse_whole A s :
  (∀ c, is_ws c = true → A c = true) → A 32%N = true →
  List.filter truthy (pieces A (collapse_ws s))
  = List.filter truthy (pieces A s).
Proof.
  intros Hws Hspace.
  destruct (pieces_collapse_ws A s Hws Hspace) as [[Hhead Htail] _].
  apply filter_truthy_parts; auto using pieces_some.
Qed.

(** The literal is found in the line exactly when it is found in the line
    as [isSceneHeader2] prepares it. *)
Lemma test_prepared t s :
  clear_of_gaps t = true →
  test (StrI t) (trim (collapse_ws (blank_all (one_of (u "-–—")) s)))
  = test (StrI t) s.
Proof.
  intros Hclear. unfold clear_of_gaps in Hclear.
  apply andb_true_iff in Hclear as [Ht Hclear].
  pose proof (avoids_class is_gap t Hclear) as Hgap.
  assert (Hws : ∀ c, is_ws c = true → is_gap c = true)
    by (intros c Hc; unfold is_gap; rewrite Hc; reflexivity).
  assert (Hdash : ∀ c, one_of (u "-–—") c = true → is_gap c = true)
    by (intros c Hc; unfold is_gap; rewrite Hc; apply orb_true_r).
  assert (Hspace : is_gap 32%N = true) by (vm_compute; reflexivity).
  rewrite <- (test_same_core t _ _ Ht
                (same_core_trim t _ (fun c Hc => Hgap c (Hws c Hc)))).
  rewrite (test_pieces is_gap t _ Ht Hgap).
  rewrite (existsb_filter_truthy t _ Ht).
  rewrite (pieces_collapse_whole is_gap _ Hws Hspace).
  rewrite (pieces_blank_all is_gap _ s Hdash Hspace).
  rewrite <- (existsb_filter_truthy t _ Ht).
  symmetry. apply (test_pieces is_gap t s Ht Hgap).
Qed.

Lemma test_tokens_prepared (src : string) s :
  forallb clear_of_gaps (split_on bar (u src)) = true →
  test (Grp (any_of_i src))
    (trim (collapse_ws (blank_all (one_of (u "-–—")) s)))
  = test (Grp (any_of_i src)) s.
Proof.
  intros Hclear. rewrite !test_grp. unfold any_of_i. rewrite !test_alts.
  apply existsb_same. intros w Hw. apply test_prepared.
  rewrite forallb_forall in Hclear. apply Hclear. exact Hw.
Qed.

(** X27. The dashes turned into spaces, the collapse of the white space
    and the trim in [isSceneHeader2] change nothing in its answer: the line
    is a second scene header line exactly when, normalised, it contains a
    time word and a place word. *)
Theorem isSceneHeader2_reads_words (line : jsstring) :
  isSceneHeader2 line
  = test TIME_RE (normalizeLine line)
    && test LOCATION_RE (normalizeLine line).
Proof.
  unfold isSceneHeader2, TIME_RE, LOCATION_RE. cbv zeta.
  rewrite !test_tokens_prepared by (vm_compute; reflexivity).
  reflexivity.
Qed.

End SceneHeader2.

(** ** The text of the blocks *)

Section PastedText.

Implicit Types (s t : jsstring).

Lemma part_of_refl s : part_of s s.
Proof. exists [], []. rewrite app_nil_r. reflexivity. Qed.

Lemma part_of_trans s t r : part_of s t → part_of t r → part_of s r.
Proof.
  intros (a & b & ->) (c & d & ->). exists (c ++ a), (b ++ d).
  rewrite <- !app_assoc. reflexivity.
Qed.

Lemma part_of_front s t : part_of s (s ++ t).
Proof. exists [], t. reflexivity. Qed.

Lemma part_of_back s t : part_of t (s ++ t).
Proof. exists s, []. rewrite app_nil_r. reflexivity. Qed.

Lemma part_of_start s a b : s = a ++ b → part_of a s.
Proof. intros ->. apply part_of_front. Qed.

Lemma part_of_end s a b : s = a ++ b → part_of b s.
Proof. intros ->. apply part_of_back. Qed.

Lemma part_of_trim s : part_of (trim s) s.
Proof. destruct (trim_split s) as (a & b & E & _). exists a, b. exact E. Qed.

Lemma part_of_skip p s : part_of (skip p s) s.
Proof.
  destruct (skip_split p s) as (a & E & _). rewrite E at 2.
  apply part_of_back.
Qed.

Lemma part_of_stripLeadingBullets s : part_of (stripLeadingBullets s) s.
Proof.
  rewrite stripLeadingBullets_closed.
  destruct (1 <=? _)%nat; [ | apply part_of_refl ].
  eapply part_of_trans; [ apply part_of_skip | ].
  eapply part_of_trans; apply part_of_skip.
Qed.

Lemma part_of_field c s f : In f (split_on c s) → part_of f s.
Proof.
  revert f. induction s as [|x r IH]; cbn [split_on]; intros f Hf.
  - destruct Hf as [<- | []]. apply part_of_refl.
  - destruct (x =? c)%N.
    + destruct Hf as [<- | Hf]; [ exists [], (x :: r); reflexivity | ].
      apply (part_of_trans _ r); [ exact (IH f Hf) | ].
      apply (part_of_back [x]).
    + pose proof (split_on_some c r) as Hsome.
      destruct (split_on c r) as [|g gs] eqn:E; [ congruence | ].
      destruct Hf as [<- | Hf].
      * assert (Hg : ∃ after, r = g ++ after).
        { clear IH Hsome. revert g gs E.
          induction r as [|y r' IH']; cbn [split_on]; intros g gs E.
          - injection E as <- <-. exists []. reflexivity.
          - destruct (y =? c)%N.
            + injection E as <- <-. exists (y :: r'). reflexivity.
            + pose proof (split_on_some c r') as Hsome'.
              destruct (split_on c r') as [|h hs]; [ congruence | ].
              injection E as <- <-.
              destruct (IH' h hs eq_refl) as (after & ->).
              exists after. reflexivity. }
        destruct Hg as (after & ->). exists [], after. reflexivity.
      * apply (part_of_trans _ r); [ | apply (part_of_back [x]) ].
        apply IH. right. exact Hf.
Qed.

Lemma eats_any (r : regex) : eats (fun _ => true) r.
Proof.
  induction r; cbn [eats]; auto.
  induction s as [|c t IH]; [ reflexivity | exact IH ].
Qed.

(** What a match leaves is the end of what it started from, and what it
    consumed is the start. *)
Lemma run_suffix (r : regex) s o :
  In o (run r s) → s = consumed s (fst o) ++ fst o.
Proof.
  intros Hin.
  destruct (run_eats (fun _ => true) r (eats_any r) s o Hin) as (w & E & _).
  unfold consumed. rewrite E at 2 3. rewrite length_app.
  replace (length w + length (fst o) - length (fst o)) with (length w)
    by lia.
  rewrite take_app_length. exact E.
Qed.

(** The groups of [SPLIT_SCENE_HEADER_RE] are parts of the line. *)
Lemma split_parts s o :
  In o (run SPLIT_SCENE_HEADER_RE s) →
  ∃ g1 g2, snd o = [g1; g2] ∧ part_of g1 s ∧ part_of g2 s.
Proof.
  unfold SPLIT_SCENE_HEADER_RE. cbn [cat]. intros H.
  rewrite run_cat in H. apply in_then_run in H as (o1 & o' & H1 & H & ->).
  rewrite (plain_captures (star is_ws) eq_refl _ _ H1). cbn [snd app].
  pose proof (run_suffix _ _ _ H1) as S1.
  rewrite run_cat in H. apply in_then_run in H as (o2 & o'' & H2 & H & ->).
  cbn [run] in H2. apply in_map_iff in H2 as (ox & <- & Hx).
  rewrite (plain_captures _ plain_cue _ _ Hx). cbn [snd fst app] in *.
  pose proof (run_suffix
                (Cat scene_word (Cat (star is_ws) (plus is_any_digit)))
                _ _ Hx) as S2.
  rewrite run_cat in H. apply in_then_run in H as (o3 & o4 & H3 & H & ->).
  rewrite (plain_captures (star is_ws) eq_refl _ _ H3). cbn [snd app].
  pose proof (run_suffix _ _ _ H3) as S3.
  rewrite run_cat in H. apply in_then_run in H as (o5 & o6 & H5 & H & ->).
  rewrite (plain_captures (Opt (Chr _)) eq_refl _ _ H5). cbn [snd app].
  pose proof (run_suffix _ _ _ H5) as S5.
  rewrite run_cat in H. apply in_then_run in H as (o7 & o8 & H7 & H8 & ->).
  rewrite (plain_captures (star is_ws) eq_refl _ _ H7). cbn [snd app].
  pose proof (run_suffix _ _ _ H7) as S7.
  cbn [run] in H8. apply in_map_iff in H8 as (o9 & <- & H9).
  pose proof (run_suffix (star is_dot) _ _ H9) as S9. cbn [snd fst].
  rewrite (plain_captures (star is_dot) eq_refl _ _ H9).
  eexists _, _. split; [ reflexivity | ].
  pose proof (part_of_end _ _ _ S1) as P1.
  pose proof (part_of_end _ _ _ S2) as P2.
  pose proof (part_of_end _ _ _ S3) as P3.
  pose proof (part_of_end _ _ _ S5) as P5.
  pose proof (part_of_end _ _ _ S7) as P7.
  split.
  - exact (part_of_trans _ _ _ (part_of_start _ _ _ S2) P1).
  - apply (part_of_trans _ (fst o7)); [ exact (part_of_start _ _ _ S9) | ].
    eauto using part_of_trans.
Qed.

Lemma splitSceneHeader_parts (line : jsstring) (parts : SceneHeaderParts) :
  splitSceneHeader line = Some parts →
  part_of (sh_number parts) line ∧ part_of (sh_description parts) line.
Proof.
  unfold splitSceneHeader. rewrite exec_start_head.
  destruct (run SPLIT_SCENE_HEADER_RE line) as [|o os] eqn:Hrun;
    cbn [head fmap option_fmap option_map]; [ discriminate | ].
  destruct (split_parts line o) as (g1 & g2 & -> & P1 & P2);
    [ rewrite Hrun; left; reflexivity | ].
  intros [= <-]. cbn [sh_number sh_description].
  split; (eapply part_of_trans; [ apply part_of_trim | assumption ]).
Qed.

Lemma parseInline_parts (line : jsstring) (parts : InlineParts) :
  parseInlineCharacterDialogue line = Some parts →
  part_of (characterName parts) line ∧ part_of (dialogueText parts) line.
Proof.
  unfold parseInlineCharacterDialogue. cbv zeta. rewrite exec_start_head.
  destruct (run INLINE_RE (trim line)) as [|o os] eqn:Hrun;
    cbn [head fmap option_fmap option_map]; [ discriminate | ].
  destruct (inline_captures (trim line) o)
    as (g1 & gap1 & colon & gap2 & g2 & -> & Hline & _);
    [ rewrite Hrun; left; reflexivity | ].
  destruct (negb (truthy (trim g1)) || negb (truthy (trim g2)));
    [ discriminate | ].
  destruct (negb (test_start CHARACTER_RE (trim g1 ++ u ":")));
    [ discriminate | ].
  intros [= <-]. cbn [characterName dialogueText].
  split.
  - apply (part_of_trans _ g1); [ apply part_of_trim | ].
    apply (part_of_trans _ (trim line)); [ | apply part_of_trim ].
    rewrite Hline. apply part_of_front.
  - apply (part_of_trans _ g2); [ apply part_of_trim | ].
    apply (part_of_trans _ (trim line)); [ | apply part_of_trim ].
    rewrite Hline. exists (g1 ++ gap1 ++ colon :: gap2), [].
    rewrite app_nil_r, <- !app_assoc. reflexivity.
Qed.

Context {host : Host}.
Variable toLowerCase : jsstring -> jsstring.
Variable CSS : Type.
Variable getFormatStylesFn : jsstring -> jsstring -> jsstring -> CSS.

Let process := processLine toLowerCase CSS getFormatStylesFn.

(** One turn writes parts of its line only. *)
Lemma processLine_texts lines mm sid i (st : PasteState CSS) :
  ∃ st' blocks,
    process lines mm sid i st = Returned st'
    ∧ formattedHTML st' = formattedHTML st ++ blocks
    ∧ (blocks = [] ∨ i < length lines)
    ∧ Forall (fun text => part_of text (line_at lines i))
        (flat_map block_texts blocks).
Proof.
  assert (Hstripped :
            part_of (stripLeadingBullets (trim (line_at lines i)))
              (line_at lines i)).
  { eapply part_of_trans;
      [ apply part_of_stripLeadingBullets | apply part_of_trim ]. }
  assert (Hrange : truthy (trim (line_at lines i)) = true → i < length lines).
  { intros Htruthy. destruct (decide (i < length lines)) as [H | H];
      [ exact H | ].
    unfold line_at in Htruthy. rewrite nth_overflow in Htruthy by lia.
    discriminate Htruthy. }
  unfold process, processLine.
  destruct (truthy (trim (line_at lines i))); cbn [negb].
  2: { exists st, []. rewrite app_nil_r.
       repeat split; [ left; reflexivity | constructor ]. }
  specialize (Hrange eq_refl).
  destruct (parseInlineCharacterDialogue _) as [parts|] eqn:Hinline.
  { apply parseInline_parts in Hinline as [Pname Ptext].
    eexists _, [_; _]. split; [ reflexivity | ]. split; [ reflexivity | ].
    split; [ right; exact Hrange | ].
    cbn [flat_map block_texts app buildLineDivHTML lineText].
    repeat constructor; eapply part_of_trans; eassumption. }
  destruct (classifyWithContextAndMemory_label toLowerCase
              (stripLeadingBullets (trim (line_at lines i)))
              (buildContext lines i (classifiedTypes st)) mm sid)
    as (c & -> & _).
  cbn [and_then].
  destruct (jseq c (u "scene-header-top-line"));
    [ destruct (splitSceneHeader _) as [parts|] eqn:Hsplit | ].
  - apply splitSceneHeader_parts in Hsplit as [Pnumber Pdescription].
    eexists _, [_]. split; [ reflexivity | ]. split; [ reflexivity | ].
    split; [ right; exact Hrange | ].
    cbn [flat_map block_texts app buildLineDivHTML lineText].
    repeat constructor; eapply part_of_trans; eassumption.
  - eexists _, [_]. split; [ reflexivity | ]. split; [ reflexivity | ].
    split; [ right; exact Hrange | ].
    cbn [flat_map block_texts app buildLineDivHTML lineText].
    repeat constructor. exact Hstripped.
  - eexists _, [_]. split; [ reflexivity | ]. split; [ reflexivity | ].
    split; [ right; exact Hrange | ].
    cbn [flat_map block_texts app buildLineDivHTML lineText].
    repeat constructor. exact Hstripped.
Qed.

Lemma run_loop_texts lines mm sid indices (st : PasteState CSS) :
  ∃ st' blocks,
    run_loop CSS (process lines mm sid) indices st = Returned st'
    ∧ formattedHTML st' = formattedHTML st ++ blocks
    ∧ Forall (fun text => ∃ line, In line lines ∧ part_of text line)
        (flat_map block_texts blocks).
Proof.
  revert st. induction indices as [|i rest IH]; intros st; cbn [run_loop].
  { exists st, []. rewrite app_nil_r. repeat split. constructor. }
  destruct (processLine_texts lines mm sid i st)
    as (st1 & b1 & Hrun & Hb1 & Hrange & Ht1).
  rewrite Hrun. cbn [and_then].
  destruct (IH st1) as (st' & b2 & Hrun' & Hb2 & Ht2).
  exists st', (b1 ++ b2). split; [ exact Hrun' | ].
  split; [ rewrite Hb2, Hb1, app_assoc; reflexivity | ].
  rewrite flat_map_app. apply Forall_app. split; [ | exact Ht2 ].
  destruct Hrange as [-> | Hi]; [ constructor | ].
  eapply Forall_impl; [ exact Ht1 | ].
  intros text Htext. exists (line_at lines i). split; [ | exact Htext ].
  apply nth_In. exact Hi.
Qed.

(** X28. [handlePaste] writes text of the clipboard only: the text of every
    [div] is a contiguous part of one of the lines of the pasted text. *)
Theorem handlePaste_writes_pasted_text
    (textData : jsstring) (hasSelection : bool)
    (memoryManager : option (jsstring -> LoadOutcome)) (sessionId : jsstring) :
  ∃ st,
    handlePaste toLowerCase CSS getFormatStylesFn textData hasSelection
      memoryManager sessionId = Returned st
    ∧ Forall
        (fun text =>
           ∃ line, In line (split_on 10%N textData)
                   ∧ part_of text line ∧ part_of line textData)
        (flat_map block_texts (formattedHTML st)).
Proof.
  unfold handlePaste.
  destruct (negb (truthy textData));
    [ exists (initialState CSS); split; [ reflexivity | constructor ] | ].
  destruct (negb hasSelection);
    [ exists (initialState CSS); split; [ reflexivity | constructor ] | ].
  destruct (run_loop_texts (paste_lines textData) memoryManager sessionId
              (seq 0 (length (paste_lines textData))) (initialState CSS))
    as (st & blocks & Hrun & Hb & Htexts).
  exists st. split; [ exact Hrun | ].
  rewrite Hb. cbn [initialState formattedHTML app].
  eapply Forall_impl; [ exact Htexts | ].
  intros text (line & Hline & Hpart). exists line.
  unfold paste_lines in Hline. apply filter_In in Hline as [Hline _].
  split; [ exact Hline | ]. split; [ exact Hpart | ].
  exact (part_of_field _ _ _ Hline).
Qed.

End PastedText.

(** ** Transitions *)

Section Transitions.

Lemma strip_prefix_fold (w s rest : jsstring) :
  strip_prefix (fun a b => (fold_case a =? fold_case b)%N) w s = Some rest
  ↔ ∃ start, s = start ++ rest ∧ map fold_case start = map fold_case w.
Proof.
  revert s. induction w as [|a w IH]; intros s; cbn [strip_prefix].
  - split.
    + intros [= ->]. exists []. auto.
    + intros (start & -> & E). destruct start; [ reflexivity | ].
      discriminate E.
  - destruct s as [|b s].
    + split; [ discriminate | ].
      intros (start & E & E'). destruct start; discriminate.
    + destruct (fold_case a =? fold_case b)%N eqn:Hab.
      * apply N.eqb_eq in Hab. rewrite IH. split.
        -- intros (start & -> & E). exists (b :: start). cbn [map app].
           rewrite E, Hab. auto.
        -- intros (start & E & E'). destruct start as [|c start];
             [ discriminate E' | ].
           injection E as <- ->. injection E' as _ E'. exists start. auto.
      * apply N.eqb_neq in Hab. split; [ discriminate | ].
        intros (start & E & E'). destruct start as [|c start];
          [ discriminate E' | ].
        injection E as <- _. injection E' as E' _. congruence.
Qed.

Lemma test_start_alts (ws : list jsstring) (s : jsstring) :
  test_start (alts StrI ws) s = existsb (fun w => test_start (StrI w) s) ws.
Proof.
  induction ws as [|w rest IH].
  - destruct s; reflexivity.
  - destruct rest as [|w' rest'].
    + cbn [alts existsb]. rewrite orb_false_r. reflexivity.
    + change (alts StrI (w :: w' :: rest'))
        with (Alt (StrI w) (alts StrI (w' :: rest'))).
      rewrite test_start_alt, IH. reflexivity.
Qed.

(** X29. A line is a transition exactly when, normalised, it starts with
    one of the eight words, in any case of the Latin letters and whatever
    follows the word, even inside a longer word. *)
Theorem isTransition_starts_with_word (line : jsstring) :
  isTransition line = true
  ↔ ∃ word start rest,
      In word transitionWords
      ∧ normalizeLine line = start ++ rest
      ∧ map fold_case start = map fold_case word.
Proof.
  unfold isTransition, any_of_i. cbv zeta.
  fold transitionWords. rewrite test_start_alts, existsb_exists.
  split.
  - intros (word & Hword & Htest). rewrite test_start_StrI in Htest.
    destruct (strip_prefix _ word (normalizeLine line)) as [rest|] eqn:E;
      [ | discriminate Htest ].
    apply strip_prefix_fold in E as (start & E & Hfold).
    exists word, start, rest. auto.
  - intros (word & start & rest & Hword & E & Hfold).
    exists word. split; [ exact Hword | ]. rewrite test_start_StrI.
    assert (Hstrip :
              strip_prefix (fun a b => (fold_case a =? fold_case b)%N) word
                (normalizeLine line) = Some rest)
      by (apply strip_prefix_fold; exists start; auto).
    rewrite Hstrip. reflexivity.
Qed.

End Transitions.

(** ** The counts over all the calls *)

Section AllCalls.

Context {host : Host}.

Lemma session_records_cons call calls sid :
  session_records (call :: calls) sid
  = if jseq (call_session call) sid
    then call_records call ++ session_records calls sid
    else session_records calls sid.
Proof.
  unfold session_records. cbn [List.filter].
  destruct (jseq (call_session call) sid); reflexivity.
Qed.

Lemma times_named_app name (xs ys : list ClassificationRecord) :
  times_named name (xs ++ ys) = times_named name xs + times_named name ys.
Proof. unfold times_named. rewrite List.filter_app. apply length_app. Qed.

Lemma run_updates_counts calls st :
  well_formed st = true →
  ∃ st', run_updates st calls = Some st'
         ∧ ∀ sid name,
             count_of (stored st' sid) name
             = added name (times_named name (session_records calls sid))
                 (count_of (stored st sid) name).
Proof.
  revert st. induction calls as [|call calls IH]; intros st Hwf.
  { exists st. split; [ reflexivity | ]. intros sid name.
    destruct (count_of (stored st sid) name) as [[|]|]; reflexivity. }
  destruct (updateMemory_spec st (call_now call) (call_session call)
              (call_records call) Hwf)
    as (st1 & _ & _ & Hupdate & _ & _ & _ & Hwf1 & Hstored & Hother).
  destruct (IH st1 Hwf1) as (st' & Hrun & Hcount).
  exists st'. split.
  { rewrite run_updates_cons, Hupdate. exact Hrun. }
  intros sid name. rewrite Hcount, session_records_cons.
  destruct (jseq (call_session call) sid) eqn:E.
  - apply jseq_true in E. rewrite <- E, Hstored, count_of_updated.
    rewrite times_named_app. symmetry. apply added_add.
  - apply jseq_false in E. rewrite (Hother sid) by congruence. reflexivity.
Qed.

(** X30. After any calls of [updateMemory] on a new manager, each awaited
    before the next is made, [characterDialogueMap] of a session has, for a
    name that [k] character records name in all the calls for the session:
    no property when [k] is 0 or the name is [__proto__]; the number [k]
    for any other name that is none of a member of [Object.prototype]; and,
    for the name of a member, the string of that member followed by [k]
    digits 1. *)
Theorem updateMemory_counts_all_calls
    (h0 : gmap loc object) (calls : list UpdateCall) :
  ∃ st,
    run_updates (new_manager h0) calls = Some st
    ∧ ∀ sid name,
        count_of (stored st sid) name
        = counted name (times_named name (session_records calls sid)).
Proof.
  destruct (run_updates_counts calls (new_manager h0) (well_formed_new h0))
    as (st & Hrun & Hcount).
  exists st. split; [ exact Hrun | ].
  intros sid name. rewrite Hcount.
  unfold stored, new_manager. cbn [storage]. rewrite lookup_empty.
  apply added_none.
Qed.

End AllCalls.
